(** * Containerized Data Importer: storage capabilities, storage profiles,
      the DataVolume mutating webhook and the importer's format readers

    A shallow embedding of

    - [pkg/util/util.go] (package [util] and package [storagecapabilities]),
    - [pkg/controller/storageprofile-controller.go],
    - the DataVolume mutating webhook ([Admit], package [webhooks]),
    - [pkg/importer/format-readers.go],

    followed by the properties the specification states about them.

    Conventions.  A Go [map[string]string] is a [gmap string string]; a nil
    map and an empty map are both [∅] (the code only reads nil maps, or
    replaces them by [make(...)] before writing).  A slice is a [list]; nil
    and empty slices are both [[]].  A pointer that may be nil is an
    [option].  Kubernetes string enumerations ([PersistentVolumeMode],
    [PersistentVolumeAccessMode]) stay strings, as in the API.  Every call to
    the API server can fail; the model lets each call fail through an
    explicit fault plan. *)

From Stdlib Require Import Strings.Ascii Strings.Byte.
From stdpp Require Import gmap strings list fin_maps.


(* ===================================================================== *)
(** * Part I: the program                                                  *)
(* ===================================================================== *)

(** ** Go runtime notions *)
Module golang.

(** The order in which [for k, v := range m] visits a map is unspecified.
    The model takes it from an oracle that returns some permutation. *)
Class MapRange := {
  range_order : ∀ A : Type, list A → list A;
  range_order_perm : ∀ (A : Type) (l : list A), range_order A l ≡ₚ l
}.

(** [for k, v := range m]: the entries of [m] in the oracle's order. *)
Definition range `{MapRange} `{Countable K} {V : Type} (m : gmap K V) : list (K * V) :=
  range_order (K * V) (map_to_list m).

(** [m[k]] on a [map[string]string]: the zero value for a missing key. *)
Definition index (m : gmap string string) (k : string) : string :=
  default "" (m !! k).

(** [_, found := m[k]]. *)
Definition found {V : Type} (m : gmap string V) (k : string) : bool :=
  bool_decide (is_Some (m !! k)).

(** The [error] interface, as far as the code inspects it. *)
Inductive error : Type :=
| StatusNotFound (name : string)          (* an API error with reason NotFound *)
| StatusError (reason : string)           (* any other API error *)
| errorString (msg : string)              (* errors.New, fmt.Errorf *)
| withMessage (cause : error) (msg : string). (* errors.Wrap, errors.WithMessage *)

#[global] Instance error_eq_dec : EqDecision error.
Proof. solve_decision. Defined.

End golang.

(** ** k8s.io/api/core/v1 *)
Module v1.

Definition PersistentVolumeAccessMode := string.
Definition PersistentVolumeMode := string.

Definition ReadWriteOnce : PersistentVolumeAccessMode := "ReadWriteOnce".
Definition ReadOnlyMany : PersistentVolumeAccessMode := "ReadOnlyMany".
Definition ReadWriteMany : PersistentVolumeAccessMode := "ReadWriteMany".

Definition PersistentVolumeBlock : PersistentVolumeMode := "Block".
Definition PersistentVolumeFilesystem : PersistentVolumeMode := "Filesystem".

(** The fields of a PersistentVolume the code reads, and its phase. *)
Record PersistentVolume := {
  Name : string;
  StorageClassName : string;                      (* Spec.StorageClassName *)
  AccessModes : list PersistentVolumeAccessMode;  (* Spec.AccessModes *)
  VolumeMode : option PersistentVolumeMode;       (* Spec.VolumeMode *)
  Phase : string                                  (* Status.Phase *)
}.

End v1.

(** ** k8s.io/api/storage/v1 *)
Module storagev1.

Record StorageClass := {
  Name : string;
  Labels : gmap string string;
  Annotations : gmap string string;
  DeletionTimestamp : option Z;
  Provisioner : string;
  Parameters : gmap string string
}.

End storagev1.

(** ** The CDI API types (package cdiv1) *)
Module cdiv1.

(** [CDICloneStrategy] and its three constants are declared in the API
    package; the controller refers to them by name.  The API type is a
    string that admission restricts to these three values. *)
Inductive CDICloneStrategy := CloneStrategyHostAssisted | CloneStrategySnapshot | CloneStrategyCsiClone.

#[global] Instance CDICloneStrategy_eq_dec : EqDecision CDICloneStrategy.
Proof. solve_decision. Defined.

Record ClaimPropertySet := {
  AccessModes : list v1.PersistentVolumeAccessMode;
  VolumeMode : option v1.PersistentVolumeMode
}.

#[global] Instance ClaimPropertySet_eq_dec : EqDecision ClaimPropertySet.
Proof. solve_decision. Defined.

Record StorageProfileSpec := {
  CloneStrategy : option CDICloneStrategy;
  ClaimPropertySets : list ClaimPropertySet
}.

#[global] Instance StorageProfileSpec_eq_dec : EqDecision StorageProfileSpec.
Proof. solve_decision. Defined.

Record StorageProfileStatus := {
  StorageClass : option string;
  Provisioner : option string;
  StatusCloneStrategy : option CDICloneStrategy;
  StatusClaimPropertySets : list ClaimPropertySet
}.

#[global] Instance StorageProfileStatus_eq_dec : EqDecision StorageProfileStatus.
Proof. solve_decision. Defined.

Record StorageProfile := {
  Kind : string;
  APIVersion : string;
  Name : string;
  Labels : gmap string string;
  OwnerReferences : list string;
  Spec : StorageProfileSpec;
  Status : StorageProfileStatus
}.

#[global] Instance StorageProfile_eq_dec : EqDecision StorageProfile.
Proof. solve_decision. Defined.

(** Functional updates of a profile, for the assignments the code makes
    through the pointer. *)
Definition withStatus (p : StorageProfile) (s : StorageProfileStatus) : StorageProfile :=
  {| Kind := Kind p; APIVersion := APIVersion p; Name := Name p; Labels := Labels p;
     OwnerReferences := OwnerReferences p; Spec := Spec p; Status := s |}.

Definition withLabels (p : StorageProfile) (l : gmap string string) : StorageProfile :=
  {| Kind := Kind p; APIVersion := APIVersion p; Name := Name p; Labels := l;
     OwnerReferences := OwnerReferences p; Spec := Spec p; Status := Status p |}.

End cdiv1.

(** ** The controller-runtime client, as an in-memory object store *)
Module client.
Import golang.

(** Which API calls of one reconcile pass fail, and how.  Each kind of call
    is made at most once in a pass. *)
Record Faults := {
  GetStorageClass_err : option error;
  GetStorageProfile_err : option error;
  ListPersistentVolumes_err : option error;
  ListStorageProfiles_err : option error;
  Create_err : option error;
  Update_err : option error;
  Delete_err : option error
}.

Definition noFaults : Faults :=
  {| GetStorageClass_err := None; GetStorageProfile_err := None;
     ListPersistentVolumes_err := None; ListStorageProfiles_err := None;
     Create_err := None; Update_err := None; Delete_err := None |}.

Record Client := {
  StorageClasses : gmap string storagev1.StorageClass;
  StorageProfiles : gmap string cdiv1.StorageProfile;
  PersistentVolumes : list v1.PersistentVolume;
  faults : Faults
}.

Definition withStorageProfiles (cl : Client) (ps : gmap string cdiv1.StorageProfile) : Client :=
  {| StorageClasses := StorageClasses cl; StorageProfiles := ps;
     PersistentVolumes := PersistentVolumes cl; faults := faults cl |}.

Definition GetStorageClass (cl : Client) (name : string) : error + storagev1.StorageClass :=
  match GetStorageClass_err (faults cl) with
  | Some e => inl e
  | None =>
      match StorageClasses cl !! name with
      | Some sc => inr sc
      | None => inl (StatusNotFound name)
      end
  end.

Definition GetStorageProfile (cl : Client) (name : string) : error + cdiv1.StorageProfile :=
  match GetStorageProfile_err (faults cl) with
  | Some e => inl e
  | None =>
      match StorageProfiles cl !! name with
      | Some p => inr p
      | None => inl (StatusNotFound name)
      end
  end.

Definition ListPersistentVolumes (cl : Client) : error + list v1.PersistentVolume :=
  match ListPersistentVolumes_err (faults cl) with
  | Some e => inl e
  | None => inr (PersistentVolumes cl)
  end.

Definition ListStorageProfiles (cl : Client) : error + list cdiv1.StorageProfile :=
  match ListStorageProfiles_err (faults cl) with
  | Some e => inl e
  | None => inr (map_to_list (StorageProfiles cl)).*2
  end.

Definition Create (cl : Client) (p : cdiv1.StorageProfile) : Client * option error :=
  match Create_err (faults cl) with
  | Some e => (cl, Some e)
  | None =>
      match StorageProfiles cl !! cdiv1.Name p with
      | Some _ => (cl, Some (StatusError "AlreadyExists"))
      | None => (withStorageProfiles cl (<[cdiv1.Name p := p]> (StorageProfiles cl)), None)
      end
  end.

Definition Update (cl : Client) (p : cdiv1.StorageProfile) : Client * option error :=
  match Update_err (faults cl) with
  | Some e => (cl, Some e)
  | None =>
      match StorageProfiles cl !! cdiv1.Name p with
      | Some _ => (withStorageProfiles cl (<[cdiv1.Name p := p]> (StorageProfiles cl)), None)
      | None => (cl, Some (StatusNotFound (cdiv1.Name p)))
      end
  end.

Definition Delete (cl : Client) (name : string) : Client * option error :=
  match Delete_err (faults cl) with
  | Some e => (cl, Some e)
  | None =>
      match StorageProfiles cl !! name with
      | Some _ => (withStorageProfiles cl (delete name (StorageProfiles cl)), None)
      | None => (cl, Some (StatusNotFound name))
      end
  end.

End client.

(** ** k8serrors *)
Module k8serrors.
Import golang.

Definition IsNotFound (e : error) : bool :=
  match e with StatusNotFound _ => true | _ => false end.

End k8serrors.

(** ** Package common: constants declared outside the files modelled here *)
Module common.

Class Constants := {
  CDILabelKey : string;
  CDILabelValue : string;
  CDIComponentLabel : string;
  AppKubernetesManagedByLabel : string;
  AppKubernetesComponentLabel : string;
  ConfigName : string
}.

(** The two label keys that [GetRecommendedInstallerLabelsFromCr] copies
    from the CDI custom resource. *)
Class InstallerLabelKeys := {
  AppKubernetesPartOfLabel : string;
  AppKubernetesVersionLabel : string
}.

End common.

(** ** Package util ([pkg/util/util.go]) *)
Module util.
Import golang.

(** [ResolveVolumeMode] returns the volume mode if set, otherwise defaults
    to file system mode. *)
Definition ResolveVolumeMode (volumeMode : option v1.PersistentVolumeMode) : v1.PersistentVolumeMode :=
  let retVolumeMode := v1.PersistentVolumeFilesystem in
  match volumeMode with
  | Some vm => if decide (vm = v1.PersistentVolumeBlock) then v1.PersistentVolumeBlock else retVolumeMode
  | None => retVolumeMode
  end.

(** [MergeLabels]: every entry of [src] is written into [dest].  The keys of
    a map are distinct, so the visiting order does not matter and the result
    is the union in which [src] wins. *)
Definition MergeLabels (src dest : gmap string string) : gmap string string :=
  src ∪ dest.

(** [SetRecommendedLabels], as a function from the object's labels to its
    new labels. *)
Definition SetRecommendedLabels `{common.Constants} (objLabels installerLabels : gmap string string)
    (controllerName : string) : gmap string string :=
  let staticLabels : gmap string string :=
    <[common.AppKubernetesManagedByLabel := controllerName]>
      (<[common.AppKubernetesComponentLabel := "storage"]> ∅) in
  let mergedLabels := MergeLabels staticLabels objLabels in
  MergeLabels installerLabels mergedLabels.

(** *** The termination message *)

Definition newline : ascii := "010"%char.
Definition carriageReturn : ascii := "013"%char.

(** [strings.ReplaceAll(s, old, new)] for a one-byte [old]. *)
Fixpoint ReplaceAll (s : string) (old : ascii) (new : string) : string :=
  match s with
  | EmptyString => EmptyString
  | String c rest =>
      if decide (c = old) then new +:+ ReplaceAll rest old new
      else String c (ReplaceAll rest old new)
  end.

(** [bytes.IndexByte(data, c)]. *)
Fixpoint IndexByte (data : string) (c : ascii) : option nat :=
  match data with
  | EmptyString => None
  | String d rest => if decide (d = c) then Some 0 else S <$> IndexByte rest c
  end.

(** [bufio.dropCR]: drops one trailing carriage return. *)
Fixpoint dropCR (data : string) : string :=
  match data with
  | EmptyString => EmptyString
  | String c EmptyString => if decide (c = carriageReturn) then EmptyString else data
  | String c rest => String c (dropCR rest)
  end.

(** [bufio.MaxScanTokenSize]: the largest buffer a default scanner uses. *)
Definition MaxScanTokenSize : Z := 64 * 1024.

(** The first [scanner.Scan()] of a default [bufio.Scanner] (split function
    [ScanLines]) over [strings.NewReader(data)], followed by
    [scanner.Text()].  [None] when [Scan] reports false: on empty input, or
    when the first line with its terminator does not fit the buffer. *)
Definition Scan (data : string) : option string :=
  if decide (data = EmptyString) then None
  else
    let lineLen := default (String.length data) (IndexByte data newline) in
    if decide (Z.of_nat lineLen < MaxScanTokenSize)%Z
    then Some (dropCR (String.substring 0 lineLen data))
    else None.

Record FileSystem := {
  files : gmap string string;
  WriteFile_err : option error
}.

(** [ioutil.WriteFile(file, data, perm)]. *)
Definition WriteFile (fs : FileSystem) (file data : string) : FileSystem * option error :=
  match WriteFile_err fs with
  | Some e => (fs, Some e)
  | None => ({| files := <[file := data]> (files fs); WriteFile_err := WriteFile_err fs |}, None)
  end.

(** [WriteTerminationMessageToFile] writes the passed in message to the
    passed in message file. *)
Definition WriteTerminationMessageToFile (fs : FileSystem) (file message : string)
    : FileSystem * option error :=
  let message := ReplaceAll message newline " " in
  (* Only write the first line of the message. *)
  match Scan message with
  | Some text =>
      match WriteFile fs file text with
      | (fs', Some err) => (fs', Some (withMessage err "could not create termination message file"))
      | (fs', None) => (fs', None)
      end
  | None => (fs, None)
  end.

(** *** Rounding *)

(** The value of an [int64] expression whose mathematical value is [z]. *)
Definition int64 (z : Z) : Z := ((z + 2 ^ 63) `mod` 2 ^ 64 - 2 ^ 63)%Z.

(** [RoundDown] returns the number rounded down to the nearest multiple.
    Go's [/] truncates toward zero and panics on a zero divisor ([None]). *)
Definition RoundDown (number multiple : Z) : option Z :=
  if decide (multiple = 0%Z) then None
  else Some (int64 (int64 (number `quot` multiple) * multiple)).

(** *** The namespace of the pod *)

(** [strings.TrimSpace] on the bytes of a Go string.  White space is what
    [unicode.IsSpace] accepts, each character in its UTF-8 encoding: the six
    ASCII characters '\t', '\n', '\v', '\f', '\r' and ' ', then U+0085,
    U+00A0, U+1680, U+2000 to U+200A, U+2028, U+2029, U+202F, U+205F and
    U+3000.  A byte sequence that is not the encoding of one of them, an
    invalid encoding included, is no white space. *)
Definition bytesOf (s : string) : list N := N_of_ascii <$> String.list_ascii_of_string s.
Definition stringOf (b : list N) : string := String.string_of_list_ascii (ascii_of_N <$> b).

Definition asciiSpace : list N := [0x09; 0x0A; 0x0B; 0x0C; 0x0D; 0x20]%N.

Definition whiteSpace : list (list N) :=
  ((λ c, [c]) <$> asciiSpace)
  ++ [ [0xC2; 0x85]; [0xC2; 0xA0]; [0xE1; 0x9A; 0x80] ]%N
  ++ ((λ c, [0xE2; 0x80; c]%N) <$>
        [0x80; 0x81; 0x82; 0x83; 0x84; 0x85; 0x86; 0x87; 0x88; 0x89; 0x8A;
         0xA8; 0xA9; 0xAF]%N)
  ++ [ [0xE2; 0x81; 0x9F]; [0xE3; 0x80; 0x80] ]%N.

(** The width in bytes of the white-space character the bytes start with,
    or end with. *)
Definition leadingSpace (b : list N) : option nat :=
  length <$> List.find (λ space, bool_decide (space `prefix_of` b)) whiteSpace.

Definition trailingSpace (b : list N) : option nat :=
  length <$> List.find (λ space, bool_decide (space `suffix_of` b)) whiteSpace.

(** The two loops of the trimming, one white-space character per step;
    [fuel] bounds the steps, and the length of the bytes is enough. *)
Fixpoint trimLeft (fuel : nat) (b : list N) : list N :=
  match fuel, leadingSpace b with
  | S fuel, Some width => trimLeft fuel (drop width b)
  | _, _ => b
  end.

Fixpoint trimRight (fuel : nat) (b : list N) : list N :=
  match fuel, trailingSpace b with
  | S fuel, Some width => trimRight fuel (take (length b - width) b)
  | _, _ => b
  end.

Definition TrimSpace (s : string) : string :=
  let b := bytesOf s in
  stringOf (trimRight (length b) (trimLeft (length b) b)).

(** [ioutil.ReadFile] on the pod's file system. *)
Class OS := {
  ReadFile : string → error + string
}.

Definition getNamespace `{OS} (path : string) : string :=
  match ReadFile path with
  | inr data =>
      let ns := TrimSpace data in
      if decide (0 < String.length ns) then ns else "cdi"
  | inl _ => "cdi"
  end.

(** [GetNamespace] returns the namespace the pod is executing in. *)
Definition GetNamespace `{OS} : string :=
  getNamespace "/var/run/secrets/kubernetes.io/serviceaccount/namespace".

(** *** Labels *)

(** The loop of [MergeLabels], entry by entry in the order of the range
    over [src]. *)
Definition MergeLabels_range `{MapRange} (src dest : gmap string string) : gmap string string :=
  foldl (λ dest entry, <[entry.1 := entry.2]> dest) dest (range src).

(** [GetRecommendedInstallerLabelsFromCr] returns the recommended labels to
    set on CDI resources, from the labels of the CDI custom resource. *)
Definition GetRecommendedInstallerLabelsFromCr `{MapRange} `{common.InstallerLabelKeys}
    (crLabels : gmap string string) : gmap string string :=
  let labels : gmap string string := ∅ in
  (* In non-standalone installs, we fetch labels that were set on the CDI CR
     by the installer *)
  foldl (λ labels entry,
           if decide (entry.1 = common.AppKubernetesPartOfLabel
                      ∨ entry.1 = common.AppKubernetesVersionLabel)
           then <[entry.1 := entry.2]> labels
           else labels)
        labels (range crLabels).

(** *** Zeroing a range at the end of the destination file *)

(** An open [os.File]: its bytes, the current offset, and which of the
    coming calls fail.  [Write_errs] lists the outcomes of the coming [Write]
    calls, first call first; calls beyond the list succeed. *)
Record File := {
  contents : list byte;
  offset : nat;
  Seek_err : option error;
  Truncate_err : option error;
  Write_errs : list (option error)
}.

Definition withContents (f : File) (c : list byte) (o : nat) : File :=
  {| contents := c; offset := o; Seek_err := Seek_err f;
     Truncate_err := Truncate_err f; Write_errs := Write_errs f |}.

(** [outFile.Seek(0, io.SeekEnd)] and [outFile.Seek(0, io.SeekCurrent)]. *)
Definition SeekEnd (f : File) : File * (error + Z) :=
  match Seek_err f with
  | Some e => (f, inl e)
  | None => (withContents f (contents f) (length (contents f)),
             inr (Z.of_nat (length (contents f))))
  end.

Definition SeekCurrent (f : File) : File * (error + Z) :=
  match Seek_err f with
  | Some e => (f, inl e)
  | None => (f, inr (Z.of_nat (offset f)))
  end.

(** [outFile.Truncate(size)]: the file is cut, or extended with zero bytes,
    to [size] bytes; the offset stays.  A negative size is an error. *)
Definition Truncate (f : File) (size : Z) : File * option error :=
  match Truncate_err f with
  | Some e => (f, Some e)
  | None =>
      if decide (size < 0)%Z then (f, Some (errorString "invalid argument"))
      else
        let n := Z.to_nat size in
        (withContents f (take n (contents f) ++ replicate (n - length (contents f)) Byte.x00)
           (offset f), None)
  end.

(** [outFile.Write(b)]: the bytes go to the current offset, over what is
    there and past the end (a gap is zero bytes), and the offset moves on. *)
Definition Write (f : File) (b : list byte) : File * (error + Z) :=
  match Write_errs f with
  | Some e :: rest =>
      ({| contents := contents f; offset := offset f; Seek_err := Seek_err f;
          Truncate_err := Truncate_err f; Write_errs := rest |}, inl e)
  | outcome =>
      ({| contents := take (offset f) (contents f)
                      ++ replicate (offset f - length (contents f)) Byte.x00
                      ++ b ++ drop (offset f + length b) (contents f);
          offset := offset f + length b;
          Seek_err := Seek_err f; Truncate_err := Truncate_err f;
          Write_errs := tail outcome |}, inr (Z.of_nat (length b)))
  end.

(** [AppendZeroWithTruncate] resizes the file to append zeroes, meant only
    for newly-created (empty and zero-length) regular files. *)
Definition AppendZeroWithTruncate (outFile : File) (start length : Z) : File * option error :=
  match SeekEnd outFile with
  | (outFile, inl err) => (outFile, Some err)
  | (outFile, inr end_) =>
      if decide (start ≠ end_) then
        (outFile, Some (errorString "starting offset does not match previous ending offset, cannot safely append zeroes to this file using truncate"))
      else
        match Truncate outFile (int64 (start + length)) with
        | (outFile, Some err) => (outFile, Some err)
        | (outFile, None) =>
            match SeekEnd outFile with
            | (outFile, inl err) => (outFile, Some err)
            | (outFile, inr _) => (outFile, None)
            end
        end
  end.

(** [len(zeroBuffer)]: 32 MiB of zero bytes. *)
Definition zeroBufferLen : Z := Z.shiftl 32 20.

(** The [for count < length] loop of [AppendZeroWithWrite].  [None] when
    [fuel] iterations did not end it. *)
Fixpoint AppendZeroWithWrite_loop (fuel : nat) (outFile : File) (start length count : Z)
    : option (File * option error) :=
  if decide (count < length)%Z then
    match fuel with
    | 0 => None
    | S fuel =>
        let blockSize := zeroBufferLen in
        let remaining := (length - count)%Z in
        let blockSize := if decide (remaining < blockSize)%Z then remaining else blockSize in
        match Write outFile (replicate (Z.to_nat blockSize) Byte.x00) with
        | (outFile, inl err) =>
            Some (outFile, Some (withMessage err "unable to write zeroes"))
        | (outFile, inr written) =>
            AppendZeroWithWrite_loop fuel outFile start length (count + written)
        end
    end
  else Some (outFile, None).

(** [AppendZeroWithWrite] just does normal file writes to the destination,
    a slow but reliable fallback option.  Every block holds at least one
    byte, so [length] iterations are enough. *)
Definition AppendZeroWithWrite (outFile : File) (start length : Z) : option (File * option error) :=
  match SeekCurrent outFile with
  | (outFile, inl err) => Some (outFile, Some err)
  | (outFile, inr offset) =>
      if decide (start ≠ offset) then
        Some (outFile, Some (errorString "starting offset does not match previous ending offset, cannot safely append zeroes to this file using write"))
      else AppendZeroWithWrite_loop (Z.to_nat length) outFile start length 0
  end.

End util.

(** ** Package storagecapabilities (second part of [pkg/util/util.go]) *)
Module storagecapabilities.
Import golang.

(** [StorageCapabilities] is a simple holder of storage capabilities. *)
Record StorageCapabilities := {
  AccessMode : v1.PersistentVolumeAccessMode;
  VolumeMode : v1.PersistentVolumeMode
}.

#[global] Instance StorageCapabilities_eq_dec : EqDecision StorageCapabilities.
Proof. solve_decision. Defined.

#[global] Instance StorageCapabilities_countable : Countable StorageCapabilities.
Proof.
  refine (inj_countable' (λ c, (AccessMode c, VolumeMode c))
                         (λ p, {| AccessMode := p.1; VolumeMode := p.2 |}) _).
  by intros [].
Defined.

Definition createRbdCapabilities : list StorageCapabilities :=
  [ {| AccessMode := v1.ReadWriteMany; VolumeMode := v1.PersistentVolumeBlock |};
    {| AccessMode := v1.ReadWriteOnce; VolumeMode := v1.PersistentVolumeBlock |};
    {| AccessMode := v1.ReadWriteOnce; VolumeMode := v1.PersistentVolumeFilesystem |} ].

Definition rwoFilesystem : list StorageCapabilities :=
  [ {| AccessMode := v1.ReadWriteOnce; VolumeMode := v1.PersistentVolumeFilesystem |} ].
Definition rwxFilesystem : list StorageCapabilities :=
  [ {| AccessMode := v1.ReadWriteMany; VolumeMode := v1.PersistentVolumeFilesystem |} ].
Definition rwoBlock : list StorageCapabilities :=
  [ {| AccessMode := v1.ReadWriteOnce; VolumeMode := v1.PersistentVolumeBlock |} ].

(** [CapabilitiesByProvisionerKey] defines default capabilities for
    different storage classes. *)
Definition CapabilitiesByProvisionerKey : gmap string (list StorageCapabilities) :=
  list_to_map [
    (* hostpath-provisioner *)
    ("kubevirt.io.hostpath-provisioner", rwoFilesystem);
    ("kubevirt.io/hostpath-provisioner", rwoFilesystem);
    (* nfs-csi *)
    ("nfs.csi.k8s.io", rwxFilesystem);
    (* ceph-rbd *)
    ("kubernetes.io/rbd", createRbdCapabilities);
    ("rbd.csi.ceph.com", createRbdCapabilities);
    ("rook-ceph.rbd.csi.ceph.com", createRbdCapabilities);
    ("openshift-storage.rbd.csi.ceph.com", createRbdCapabilities);
    (* ceph-fs *)
    ("cephfs.csi.ceph.com", rwxFilesystem);
    ("openshift-storage.cephfs.csi.ceph.com", rwxFilesystem);
    (* storageos *)
    ("kubernetes.io/storageos", rwoFilesystem);
    ("storageos", rwoFilesystem);
    (* AWSElasticBlockStore *)
    ("kubernetes.io/aws-ebs", rwoBlock);
    ("ebs.csi.aws.com", rwoBlock);
    (* Azure disk *)
    ("kubernetes.io/azure-disk", rwoBlock);
    ("disk.csi.azure.com", rwoBlock);
    (* Azure file *)
    ("kubernetes.io/azure-file", rwxFilesystem);
    ("file.csi.azure.com", rwxFilesystem);
    (* GCE Persistent Disk *)
    ("kubernetes.io/gce-pd", rwoBlock);
    ("pd.csi.storage.gke.io", rwoBlock);
    (* portworx *)
    ("kubernetes.io/portworx-volume/shared", rwxFilesystem);
    ("pxd.openstorage.org/shared", rwxFilesystem);
    ("kubernetes.io/portworx-volume", rwoFilesystem);
    ("pxd.openstorage.org", rwoFilesystem);
    (* Trident *)
    ("csi.trident.netapp.io/ontap-nas", rwxFilesystem);
    ("csi.trident.netapp.io/ontap-san", rwoBlock)
  ].

Definition storageClassToProvisionerKeyMapper : gmap string (storagev1.StorageClass → string) :=
  list_to_map [
    ("pxd.openstorage.org", λ sc : storagev1.StorageClass,
       let val := index (storagev1.Parameters sc) "shared" in
       if decide (val = "true") then "pxd.openstorage.org/shared"
       else "pxd.openstorage.org");
    ("kubernetes.io/portworx-volume", λ sc : storagev1.StorageClass,
       let val := index (storagev1.Parameters sc) "shared" in
       if decide (val = "true") then "kubernetes.io/portworx-volume/shared"
       else "kubernetes.io/portworx-volume");
    ("csi.trident.netapp.io", λ sc : storagev1.StorageClass,
       let val := index (storagev1.Parameters sc) "backendType" in
       if decide (val = "ontap-nas") then "csi.trident.netapp.io/ontap-nas"
       else if decide (val = "ontap-san") then "csi.trident.netapp.io/ontap-san"
       else "UNKNOWN")
  ].

Definition storageProvisionerKey (sc : storagev1.StorageClass) : string :=
  match storageClassToProvisionerKeyMapper !! storagev1.Provisioner sc with
  | Some keyMapper => keyMapper sc
  | None => (* by default the Provisioner name is the key *)
      storagev1.Provisioner sc
  end.

Definition isLocalStorageOperator (sc : storagev1.StorageClass) : bool :=
  found (storagev1.Labels sc) "local.storage.openshift.io/owner-name".

Definition knownNoProvisioner (sc : storagev1.StorageClass) : bool :=
  if isLocalStorageOperator sc then true else false.

(** The set of keys of [capabilitiesMap] after the first loop of
    [uniqueCapabilities]. *)
Definition capabilitiesMap (input : list StorageCapabilities) : gmap StorageCapabilities bool :=
  foldl (λ m capability, <[capability := true]> m) ∅ input.

Definition uniqueCapabilities `{MapRange} (input : list StorageCapabilities) : list StorageCapabilities :=
  foldl (λ output entry, output ++ [entry.1]) [] (range (capabilitiesMap input)).

(** The nested loops of [capabilitiesForNoProvisioner] over the listed
    volumes and their access modes. *)
Definition collectCapabilities (sc : storagev1.StorageClass) (items : list v1.PersistentVolume)
    : list StorageCapabilities :=
  foldl (λ capabilities pv,
           if decide (v1.StorageClassName pv = storagev1.Name sc) then
             foldl (λ capabilities accessMode,
                      capabilities ++ [ {| AccessMode := accessMode;
                                           VolumeMode := util.ResolveVolumeMode (v1.VolumeMode pv) |} ])
                   capabilities (v1.AccessModes pv)
           else capabilities)
        [] items.

Definition capabilitiesForNoProvisioner `{MapRange} (cl : client.Client) (sc : storagev1.StorageClass)
    : list StorageCapabilities * bool :=
  (* There's so many no-provisioner storage classes, let's start slow with
     the known ones. *)
  if negb (knownNoProvisioner sc) then ([], false)
  else
    match client.ListPersistentVolumes cl with
    | inl _ => ([], false)
    | inr pvs =>
        let capabilities := collectCapabilities sc pvs in
        let capabilities := uniqueCapabilities capabilities in
        (capabilities, bool_decide (0 < length capabilities))
    end.

(** [Get] finds and returns a predefined StorageCapabilities for a given
    StorageClass. *)
Definition Get `{MapRange} (cl : client.Client) (sc : storagev1.StorageClass)
    : list StorageCapabilities * bool :=
  let provisionerKey := storageProvisionerKey sc in
  if decide (provisionerKey = "kubernetes.io/no-provisioner") then
    capabilitiesForNoProvisioner cl sc
  else
    match CapabilitiesByProvisionerKey !! provisionerKey with
    | Some capabilities => (capabilities, true)
    | None => ([], false)
    end.

End storagecapabilities.

(** ** Package controller ([pkg/controller/storageprofile-controller.go]) *)
Module controller.
Import golang.

(** Functions of the repository that the controller calls and that are
    declared outside the files modelled here: [operator.SetOwnerRuntime]
    (sets the owner reference of a new profile, and can fail) and
    [IgnoreNotFound].  They are parameters of the model. *)
Class Imports := {
  SetOwnerRuntime : cdiv1.StorageProfile → error + cdiv1.StorageProfile;
  IgnoreNotFound : option error → option error
}.

(** [StorageProfileReconciler] members.  The uncached client is only handed
    to [SetOwnerRuntime]; logging is left out. *)
Record StorageProfileReconciler := {
  installerLabels : gmap string string
}.

(** What a reconcile pass reads and writes: the objects behind [r.client]
    and the process-wide [IncompleteProfileGauge].  The gauge holds
    [float64(numIncomplete)], kept here as the integer itself. *)
Record World := {
  api : client.Client;
  IncompleteProfileGauge : nat
}.

Definition withApi (w : World) (cl : client.Client) : World :=
  {| api := cl; IncompleteProfileGauge := IncompleteProfileGauge w |}.

(** [MakeEmptyStorageProfileSpec] creates StorageProfile manifest. *)
Definition MakeEmptyStorageProfileSpec `{common.Constants} (name : string) : cdiv1.StorageProfile :=
  {| cdiv1.Kind := "StorageProfile";
     cdiv1.APIVersion := "cdi.kubevirt.io/v1beta1";
     cdiv1.Name := name;
     cdiv1.Labels := <[common.CDILabelKey := common.CDILabelValue]>
                       (<[common.CDIComponentLabel := ""]> ∅);
     cdiv1.OwnerReferences := [];
     cdiv1.Spec := {| cdiv1.CloneStrategy := None; cdiv1.ClaimPropertySets := [] |};
     cdiv1.Status := {| cdiv1.StorageClass := None; cdiv1.Provisioner := None;
                        cdiv1.StatusCloneStrategy := None;
                        cdiv1.StatusClaimPropertySets := [] |} |}.

Definition createEmptyStorageProfile `{common.Constants} `{Imports}
    (r : StorageProfileReconciler) (sc : storagev1.StorageClass) : error + cdiv1.StorageProfile :=
  let storageProfile := MakeEmptyStorageProfileSpec (storagev1.Name sc) in
  let storageProfile :=
    cdiv1.withLabels storageProfile
      (util.SetRecommendedLabels (cdiv1.Labels storageProfile) (installerLabels r) "cdi-controller") in
  match SetOwnerRuntime storageProfile with
  | inl err => inl err
  | inr storageProfile => inr storageProfile
  end.

(** [getStorageProfile]: the profile to work on and, when it was read from
    the store, the copy [prevStorageProfile] of what was read. *)
Definition getStorageProfile `{common.Constants} `{Imports}
    (r : StorageProfileReconciler) (cl : client.Client) (sc : storagev1.StorageClass)
    : error + (cdiv1.StorageProfile * option cdiv1.StorageProfile) :=
  match client.GetStorageProfile cl (storagev1.Name sc) with
  | inl err =>
      if k8serrors.IsNotFound err then
        match createEmptyStorageProfile r sc with
        | inl err => inl err
        | inr storageProfile => inr (storageProfile, None)
        end
      else inl err
  | inr storageProfile => inr (storageProfile, Some storageProfile)
  end.

Definition reconcilePropertySets `{MapRange} (cl : client.Client) (sc : storagev1.StorageClass)
    : list cdiv1.ClaimPropertySet :=
  let claimPropertySets := [] in
  let '(capabilities, found) := storagecapabilities.Get cl sc in
  if found then
    foldl (λ claimPropertySets capability,
             claimPropertySets ++
               [ {| cdiv1.AccessModes := [storagecapabilities.AccessMode capability];
                    cdiv1.VolumeMode := Some (storagecapabilities.VolumeMode capability) |} ])
          claimPropertySets capabilities
  else claimPropertySets.

Definition reconcileCloneStrategy (sc : storagev1.StorageClass)
    (clonestrategy : option cdiv1.CDICloneStrategy) : option cdiv1.CDICloneStrategy :=
  match clonestrategy with
  | None =>
      if decide (index (storagev1.Annotations sc) "cdi.kubevirt.io/clone-strategy" = "copy") then
        Some cdiv1.CloneStrategyHostAssisted
      else if decide (index (storagev1.Annotations sc) "cdi.kubevirt.io/clone-strategy" = "snapshot") then
        Some cdiv1.CloneStrategySnapshot
      else if decide (index (storagev1.Annotations sc) "cdi.kubevirt.io/clone-strategy" = "csi-clone") then
        Some cdiv1.CloneStrategyCsiClone
      else clonestrategy
  | Some _ => clonestrategy
  end.

(** [updateStorageProfile]: create the profile when none was read, update it
    when it differs from what was read.  [reflect.DeepEqual] is equality of
    the modelled objects; as these do not tell a nil slice from an empty
    one, Go can find different, and write again, a profile the model finds
    equal: the store then gets an object the model cannot tell from the one
    it held, by a call of [Update] that can fail. *)
Definition updateStorageProfile (cl : client.Client)
    (prevStorageProfile : option cdiv1.StorageProfile) (storageProfile : cdiv1.StorageProfile)
    : client.Client * option error :=
  match prevStorageProfile with
  | None => client.Create cl storageProfile
  | Some prev =>
      if decide (prev = storageProfile) then (cl, None)
      else (* Updates have happened, update StorageProfile. *)
        client.Update cl storageProfile
  end.

(** The validation loop of [reconcileStorageProfile] over
    [Spec.ClaimPropertySets]: the error of the first set that names a volume
    mode without an access mode. *)
Fixpoint checkClaimPropertySets (sets : list cdiv1.ClaimPropertySet) : option error :=
  match sets with
  | [] => None
  | cps :: rest =>
      match cdiv1.VolumeMode cps with
      | Some volumeMode =>
          if decide (length (cdiv1.AccessModes cps) = 0) then
            Some (errorString ("must provide access mode for volume mode: " +:+ volumeMode))
          else checkClaimPropertySets rest
      | None => checkClaimPropertySets rest
      end
  end.

Definition reconcileStorageProfile `{MapRange} `{common.Constants} `{Imports}
    (r : StorageProfileReconciler) (cl : client.Client) (sc : storagev1.StorageClass)
    : client.Client * option error :=
  match getStorageProfile r cl sc with
  | inl err => (cl, Some err)
  | inr (storageProfile, prevStorageProfile) =>
      let spec := cdiv1.Spec storageProfile in
      let StatusStorageClass := Some (storagev1.Name sc) in
      let StatusProvisioner := Some (storagev1.Provisioner sc) in
      let StatusCloneStrategy := reconcileCloneStrategy sc (cdiv1.CloneStrategy spec) in
      let validated : error + list cdiv1.ClaimPropertySet :=
        if decide (0 < length (cdiv1.ClaimPropertySets spec)) then
          match checkClaimPropertySets (cdiv1.ClaimPropertySets spec) with
          | Some err => inl err
          | None => inr (cdiv1.ClaimPropertySets spec)
          end
        else inr (reconcilePropertySets cl sc) in
      match validated with
      | inl err => (cl, Some err)
      | inr claimPropertySets =>
          let storageProfile :=
            cdiv1.withStatus storageProfile
              {| cdiv1.StorageClass := StatusStorageClass;
                 cdiv1.Provisioner := StatusProvisioner;
                 cdiv1.StatusCloneStrategy := StatusCloneStrategy;
                 cdiv1.StatusClaimPropertySets := claimPropertySets |} in
          let storageProfile :=
            cdiv1.withLabels storageProfile
              (util.SetRecommendedLabels (cdiv1.Labels storageProfile) (installerLabels r) "cdi-controller") in
          updateStorageProfile cl prevStorageProfile storageProfile
      end
  end.

(** The loop of [isIncomplete] over a non-empty list of sets. *)
Fixpoint isIncomplete_loop (sets : list cdiv1.ClaimPropertySet) : bool :=
  match sets with
  | [] => false
  | cps :: rest =>
      if decide (length (cdiv1.AccessModes cps) = 0) then true
      else match cdiv1.VolumeMode cps with
           | None => true
           | Some _ => isIncomplete_loop rest
           end
  end.

Definition isIncomplete (sets : list cdiv1.ClaimPropertySet) : bool :=
  if decide (0 < length sets) then isIncomplete_loop sets
  else true.

Definition checkIncompleteProfiles (w : World) : World * option error :=
  let numIncomplete := 0 in
  match client.ListStorageProfiles (api w) with
  | inl err => (w, Some err)
  | inr items =>
      let numIncomplete :=
        foldl (λ numIncomplete profile,
                 if isIncomplete (cdiv1.StatusClaimPropertySets (cdiv1.Status profile))
                 then S numIncomplete else numIncomplete)
              numIncomplete items in
      ({| api := api w; IncompleteProfileGauge := numIncomplete |}, None)
  end.

Definition deleteStorageProfile `{Imports} (w : World) (name : string) : World * option error :=
  let '(cl, err) := client.Delete (api w) name in
  match IgnoreNotFound err with
  | Some err => (withApi w cl, Some err)
  | None => checkIncompleteProfiles (withApi w cl)
  end.

Definition isNoProvisioner (name : string) (cl : client.Client) : bool :=
  match client.GetStorageClass cl name with
  | inl _ => false
  | inr storageClass =>
      bool_decide (storagev1.Provisioner storageClass = "kubernetes.io/no-provisioner")
  end.

(** [Reconcile], the reconcile.Reconciler implementation for the
    StorageProfileReconciler object.  The request is the name of the
    StorageClass; the result is the returned error. *)
Definition Reconcile `{MapRange} `{common.Constants} `{Imports}
    (r : StorageProfileReconciler) (w : World) (req : string) : World * option error :=
  match client.GetStorageClass (api w) req with
  | inl err =>
      if k8serrors.IsNotFound err then deleteStorageProfile w req
      else (w, Some err)
  | inr storageClass =>
      match storagev1.DeletionTimestamp storageClass with
      | Some _ => deleteStorageProfile w req
      | None =>
          match reconcileStorageProfile r (api w) storageClass with
          | (cl, Some err) => (withApi w cl, Some err)
          | (cl, None) => checkIncompleteProfiles (withApi w cl)
          end
      end
  end.

End controller.

(** ** Package webhooks: the DataVolume mutating webhook *)
Module webhooks.
Import golang.

Record DataVolumeSourcePVC := {
  PVC_Namespace : string;
  PVC_Name : string
}.

(** [DataVolumeSource]: the PVC source, or some other source. *)
Record DataVolumeSource := {
  PVC : option DataVolumeSourcePVC
}.

Record DataVolumeSourceRef := {
  SourceRef_Kind : string;
  SourceRef_Namespace : option string;
  SourceRef_Name : string
}.

Record DataVolume := {
  Namespace : string;
  Name : string;
  Annotations : gmap string string;
  Source : option DataVolumeSource;        (* Spec.Source *)
  SourceRef : option DataVolumeSourceRef   (* Spec.SourceRef *)
}.

Definition withAnnotations (dv : DataVolume) (a : gmap string string) : DataVolume :=
  {| Namespace := Namespace dv; Name := Name dv; Annotations := a;
     Source := Source dv; SourceRef := SourceRef dv |}.

Record DataSource := {
  DataSource_Source : DataVolumeSource     (* Spec.Source *)
}.

Record CDIConfig := {
  DataVolumeTTLSeconds : option Z          (* Spec.DataVolumeTTLSeconds *)
}.

Definition UserInfo := string.

Record AdmissionRequest := {
  Operation : string;
  Request_Namespace : string;
  Request_Name : string;
  Object_Raw : string;
  OldObject_Raw : string;
  Request_UserInfo : UserInfo
}.

Record AdmissionReview := {
  Request : AdmissionRequest
}.

(** [admissionv1.Update]. *)
Definition Update : string := "UPDATE".

Record StatusCause := {
  Type_ : string;
  Message : string;
  Field : string
}.

(** [metav1.CauseTypeFieldValueInvalid]. *)
Definition CauseTypeFieldValueInvalid : string := "FieldValueInvalid".

(** [k8sfield.NewPath(name, moreNames...).String()]: the names joined by dots. *)
Definition NewPath_String (names : list string) : string :=
  String.concat "." names.

Record GroupVersionResource := {
  Group : string;
  Version : string;
  Resource : string
}.

Definition tokenResource : GroupVersionResource :=
  {| Group := ""; Version := "v1"; Resource := "persistentvolumeclaims" |}.

(** [token.Payload]. *)
Record Payload := {
  Payload_Operation : string;
  Payload_Name : string;
  Payload_Namespace : string;
  Payload_Resource : GroupVersionResource;
  Params : gmap string string
}.

(** An admission response, recorded as the call that builds it.  The four
    builders are declared in another file of package webhooks. *)
Inductive AdmissionResponse :=
| toAdmissionResponseError (err : error)
| allowedAdmissionResponse
| toPatchResponse (original modified : DataVolume)
| toRejectedAdmissionResponse (causes : list StatusCause).

(** Constants and functions that [Admit] uses and that are declared outside
    the file modelled here. *)
Class Imports := {
  AnnDeleteAfterCompletion : string;       (* controller.AnnDeleteAfterCompletion *)
  AnnCloneToken : string;                  (* controller.AnnCloneToken *)
  DataVolumeDataSource : string;           (* cdiv1.DataVolumeDataSource *)
  OperationClone : string;                 (* token.OperationClone *)
  validateDataVolumeResource : AdmissionReview → option error;
  Unmarshal : string → error + DataVolume  (* json.Unmarshal into a DataVolume *)
}.

(** [dataVolumeMutatingWebhook], through the calls [Admit] makes on its
    members: the two reads of the CDI client, the token generator, and
    [clone.CanUserClonePVC] on the subject access review proxy. *)
Record dataVolumeMutatingWebhook := {
  DataSources_Get : string → string → error + DataSource;
  CDIConfigs_Get : string → error + CDIConfig;
  tokenGenerator_Generate : Payload → error + string;
  CanUserClonePVC : string → string → string → UserInfo → bool * string * option error
}.

(** What [Admit] has computed when it reaches the clone authorization. *)
Record CloneRequest := {
  dataVolume : DataVolume;
  modifiedDataVolume : DataVolume;
  sourceNamespace : string;
  sourceName : string;
  targetNamespace : string;
  targetName : string
}.

(** The source PVC of the DataVolume: its own, or the one of the DataSource
    it refers to. *)
Definition pvcSourceOf `{Imports} (wh : dataVolumeMutatingWebhook) (dataVolume : DataVolume)
    : error + option DataVolumeSourcePVC :=
  match Source dataVolume with
  | Some source => inr (PVC source)
  | None =>
      match SourceRef dataVolume with
      | Some sourceRef =>
          if decide (SourceRef_Kind sourceRef = DataVolumeDataSource) then
            let ns := Namespace dataVolume in
            let ns := match SourceRef_Namespace sourceRef with
                      | Some n => if decide (n ≠ "") then n else ns
                      | None => ns
                      end in
            match DataSources_Get wh ns (SourceRef_Name sourceRef) with
            | inl err => inl err
            | inr dataSource => inr (PVC (DataSource_Source dataSource))
            end
          else inr None
      | None => inr None
      end
  end.

(** The TTL step: [modifiedDataVolume] and the flag [modified]. *)
Definition applyTTL `{Imports} (config : CDIConfig) (dataVolume : DataVolume) : DataVolume * bool :=
  let modifiedDataVolume := dataVolume in
  let modified := false in
  match DataVolumeTTLSeconds config with
  | Some _ =>
      if decide (index (Annotations modifiedDataVolume) AnnDeleteAfterCompletion ≠ "false") then
        (withAnnotations modifiedDataVolume
           (<[AnnDeleteAfterCompletion := "true"]> (Annotations modifiedDataVolume)), true)
      else (modifiedDataVolume, modified)
  | None => (modifiedDataVolume, modified)
  end.

(** [Admit] up to, and excluding, the call of [clone.CanUserClonePVC]:
    either the response it returns early, or the clone request it goes on
    with. *)
Definition Admit_prepare `{common.Constants} `{Imports}
    (wh : dataVolumeMutatingWebhook) (ar : AdmissionReview) : AdmissionResponse + CloneRequest :=
  match validateDataVolumeResource ar with
  | Some err => inl (toAdmissionResponseError err)
  | None =>
  match Unmarshal (Object_Raw (Request ar)) with
  | inl err => inl (toAdmissionResponseError err)
  | inr dataVolume =>
  match pvcSourceOf wh dataVolume with
  | inl err => inl (toAdmissionResponseError err)
  | inr pvcSource =>
  let targetNamespace := Namespace dataVolume in
  let targetName := Name dataVolume in
  let targetNamespace :=
    if decide (targetNamespace = "") then Request_Namespace (Request ar) else targetNamespace in
  let targetName :=
    if decide (targetName = "") then Request_Name (Request ar) else targetName in
  match CDIConfigs_Get wh common.ConfigName with
  | inl err => inl (toAdmissionResponseError err)
  | inr config =>
  let '(modifiedDataVolume, modified) := applyTTL config dataVolume in
  match pvcSource with
  | None =>
      if modified then inl (toPatchResponse dataVolume modifiedDataVolume)
      else inl allowedAdmissionResponse
  | Some pvcSource =>
      let sourceNamespace := PVC_Namespace pvcSource in
      let sourceName := PVC_Name pvcSource in
      let sourceNamespace :=
        if decide (sourceNamespace = "") then targetNamespace else sourceNamespace in
      let request :=
        {| dataVolume := dataVolume; modifiedDataVolume := modifiedDataVolume;
           sourceNamespace := sourceNamespace; sourceName := sourceName;
           targetNamespace := targetNamespace; targetName := targetName |} in
      if decide (Operation (Request ar) = Update) then
        match Unmarshal (OldObject_Raw (Request ar)) with
        | inl err => inl (toAdmissionResponseError err)
        | inr oldDataVolume =>
            if found (Annotations oldDataVolume) AnnCloneToken then
              inl allowedAdmissionResponse
            else inr request
        end
      else inr request
  end end end end end.

(** [Admit] from the call of [clone.CanUserClonePVC] to the end. *)
Definition Admit_clone `{Imports}
    (wh : dataVolumeMutatingWebhook) (ar : AdmissionReview) (c : CloneRequest) : AdmissionResponse :=
  match CanUserClonePVC wh (sourceNamespace c) (sourceName c) (targetNamespace c)
                        (Request_UserInfo (Request ar)) with
  | (_, _, Some err) => toAdmissionResponseError err
  | (false, reason, None) =>
      let causes :=
        [ {| Type_ := CauseTypeFieldValueInvalid;
             Message := reason;
             Field := NewPath_String ["spec"; "source"; "PVC"; "namespace"] |} ] in
      toRejectedAdmissionResponse causes
  | (true, _, None) =>
      let tokenData :=
        {| Payload_Operation := OperationClone;
           Payload_Name := sourceName c;
           Payload_Namespace := sourceNamespace c;
           Payload_Resource := tokenResource;
           Params := <["targetNamespace" := targetNamespace c]>
                       (<["targetName" := targetName c]> ∅) |} in
      match tokenGenerator_Generate wh tokenData with
      | inl err => toAdmissionResponseError err
      | inr token =>
          let modifiedDataVolume :=
            withAnnotations (modifiedDataVolume c)
              (<[AnnCloneToken := token]> (Annotations (modifiedDataVolume c))) in
          toPatchResponse (dataVolume c) modifiedDataVolume
      end
  end.

Definition Admit `{common.Constants} `{Imports}
    (wh : dataVolumeMutatingWebhook) (ar : AdmissionReview) : AdmissionResponse :=
  match Admit_prepare wh ar with
  | inl response => response
  | inr request => Admit_clone wh ar request
  end.

End webhooks.

(** ** Package image: the registry of known headers (declared outside the
       files modelled here) *)
Module image.

(** [image.Header]: the exported fields the importer reads, and the method
    [Match] deciding whether a header buffer starts an image of the format. *)
Record Header := {
  Format : string;
  SizeOff : nat;
  SizeLen : nat;
  Match : list byte → bool
}.

(** [Headers] is [map[string]Header]. *)
Class Registry := {
  MaxExpectedHdrSize : nat;
  CopyKnownHdrs : gmap string Header
}.

End image.

(** ** Package importer ([pkg/importer/format-readers.go]) *)
Module importer.
Import golang.

(** An [io.Reader] on the stack: the bytes it still yields, and, when it is
    also an [io.Closer], what its [Close] returns.  Only the reader on top of
    the stack is ever read. *)
Record Reader := {
  data : list byte;
  closer : option (option error)
}.

(** [ioutil.NopCloser], [io.MultiReader], [bytes.NewReader]. *)
Definition NopCloser (r : Reader) : Reader :=
  {| data := data r; closer := Some None |}.
Definition MultiReader (r1 r2 : Reader) : Reader :=
  {| data := data r1 ++ data r2; closer := None |}.
Definition NewReader (b : list byte) : Reader :=
  {| data := b; closer := None |}.

(** [rdr.Close()] on a reader of the stack. *)
Definition Reader_Close (r : Reader) : option error :=
  default None (closer r).

(** The decompressors: [gzip.NewReader] and [xz.NewReader] from the stream
    below them.  They read the stream header from that stream and fail on a
    malformed one; what they have read by then is gone from the stream, so
    a failure comes with the bytes the stream still yields. *)
Class Decompressors := {
  gzip_NewReader : Reader → error * list byte + Reader;
  xz_NewReader : Reader → error * list byte + Reader
}.

Record reader := {
  rdrType : nat;
  rdr : Reader
}.

(** [FormatReaders] contains the stack of readers needed to get information
    from the input stream. *)
Record FormatReaders := {
  readers : list reader;
  buf : list byte;            (* holds file headers *)
  Convert : bool;
  Archived : bool;
  ArchiveXz : bool;
  ArchiveGz : bool
}.

Definition rdrGz : nat := 0.
Definition rdrMulti : nat := 1.
Definition rdrXz : nat := 2.
Definition rdrStream : nat := 3.

(** map scheme and format to rdrType *)
Definition rdrTypM : gmap string nat :=
  list_to_map [("gz", rdrGz); ("xz", rdrXz); ("stream", rdrStream)].

(** [rdrTypM[k]]: zero for a missing key. *)
Definition rdrTypM_index (k : string) : nat := default 0 (rdrTypM !! k).

Definition withReaders (fr : FormatReaders) (rs : list reader) : FormatReaders :=
  {| readers := rs; buf := buf fr; Convert := Convert fr; Archived := Archived fr;
     ArchiveXz := ArchiveXz fr; ArchiveGz := ArchiveGz fr |}.

Definition withBuf (fr : FormatReaders) (b : list byte) : FormatReaders :=
  {| readers := readers fr; buf := b; Convert := Convert fr; Archived := Archived fr;
     ArchiveXz := ArchiveXz fr; ArchiveGz := ArchiveGz fr |}.

Definition withFlags (fr : FormatReaders) (convert archived archiveXz archiveGz : bool) : FormatReaders :=
  {| readers := readers fr; buf := buf fr; Convert := convert; Archived := archived;
     ArchiveXz := archiveXz; ArchiveGz := archiveGz |}.

(** [TopReader] returns the top-level reader of the stack.  On an empty stack
    the Go code panics; [constructReaders] pushes the stream first, so the
    default below is never reached from it. *)
Definition TopReader (fr : FormatReaders) : Reader :=
  match last (readers fr) with
  | Some top => rdr top
  | None => NewReader []
  end.

(** [appendReader]: nothing is appended for a nil reader; a multi-reader is
    chained in front of the current top; a reader that is not a closer gets
    a nop closer. *)
Definition appendReader (fr : FormatReaders) (rType : nat) (x : option Reader) : FormatReaders :=
  match x with
  | None => fr
  | Some r =>
      let r := if decide (rType = rdrMulti) then MultiReader r (TopReader fr) else r in
      let r := match closer r with None => NopCloser r | Some _ => r end in
      withReaders fr (readers fr ++ [ {| rdrType := rType; rdr := r |} ])
  end.

(** The receiver after a reader constructor that failed has read from the
    top reader: the top reader yields what is left. *)
Definition withTopData (fr : FormatReaders) (rest : list byte) : FormatReaders :=
  match last (readers fr) with
  | Some top =>
      let top' := {| rdrType := rdrType top;
                     rdr := {| data := rest; closer := closer (rdr top) |} |} in
      withReaders fr (removelast (readers fr) ++ [top'])
  | None => fr
  end.

(** [gzReader] and [xzReader]: the reader, or the error together with the
    receiver, whose top reader the failed constructor has read from. *)
Definition gzReader `{Decompressors} (fr : FormatReaders) : error * FormatReaders + Reader :=
  match gzip_NewReader (TopReader fr) with
  | inl (err, rest) => inl (withMessage err "could not create gzip reader", withTopData fr rest)
  | inr gz => inr gz
  end.

Definition xzReader `{Decompressors} (fr : FormatReaders) : error * FormatReaders + Reader :=
  match xz_NewReader (TopReader fr) with
  | inl (err, rest) => inl (withMessage err "could not create xz reader", withTopData fr rest)
  | inr xz => inr xz
  end.

(** The big-endian number spelled by the bytes, as
    [strconv.ParseInt(hex.EncodeToString(b), 16, 64)] reads it. *)
Definition bigEndian (b : list byte) : Z :=
  foldl (λ acc x, acc * 256 + Z.of_N (Byte.to_N x))%Z 0%Z b.

(** [qcow2NopReader]: there is no qcow2 reader, so no reader is returned;
    the error reports a size field that does not parse as an [int64]. *)
Definition qcow2NopReader (fr : FormatReaders) (h : image.Header) : option error :=
  let s := take (image.SizeLen h) (drop (image.SizeOff h) (buf fr)) in
  if decide (s = [] ∨ (2 ^ 63 ≤ bigEndian s)%Z) then
    Some (errorString "unable to determine original qcow2 file size")
  else None.

(** [fileFormatSelector]: based on the passed in header, append the
    format-specific reader to the readers stack. *)
Definition fileFormatSelector `{Decompressors} (fr : FormatReaders) (hdr : image.Header) : FormatReaders :=
  let fFmt := image.Format hdr in
  let '(r, err, fr) :=
    if decide (fFmt = "gz") then
      match gzReader fr with
      | inr r => (Some r, None, withFlags fr (Convert fr) true (ArchiveXz fr) true)
      | inl (err, fr) => (None, Some err, fr)
      end
    else if decide (fFmt = "qcow2") then
      (None, qcow2NopReader fr hdr, withFlags fr true (Archived fr) (ArchiveXz fr) (ArchiveGz fr))
    else if decide (fFmt = "xz") then
      match xzReader fr with
      | inr r => (Some r, None, withFlags fr (Convert fr) true true (ArchiveGz fr))
      | inl (err, fr) => (None, Some err, fr)
      end
    else if decide (fFmt = "vmdk" ∨ fFmt = "vdi" ∨ fFmt = "vhd" ∨ fFmt = "vhdx") then
      (None, None, withFlags fr true (Archived fr) (ArchiveXz fr) (ArchiveGz fr))
    else (None, None, fr) in
  match err, r with
  | None, Some r => appendReader fr (rdrTypM_index fFmt) (Some r)
  | _, _ => fr
  end.

(** [read]: [io.ReadFull] from the top-most reader into [fr.buf].  The bytes
    read leave the top reader; a stream shorter than the buffer is an
    error.  (On an empty stack [TopReader] panics; see there.) *)
Definition read (fr : FormatReaders) : error + FormatReaders :=
  let n := length (buf fr) in
  match last (readers fr) with
  | None => inl (errorString "EOF")
  | Some top =>
      let stream := data (rdr top) in
      if decide (n ≤ length stream) then
        let top' := {| rdrType := rdrType top;
                       rdr := {| data := drop n stream; closer := closer (rdr top) |} |} in
        inr (withBuf (withReaders fr (removelast (readers fr) ++ [top'])) (take n stream))
      else if decide (length stream = 0) then inl (errorString "EOF")
      else inl (errorString "unexpected EOF")
  end.

(** [matchHeader]: return the matching header, if one is found, from the
    passed-in map of known headers; the map is modified.  The model returns
    the matching entry, key and header ([&kh] in the code), and the map
    after the call. *)
Definition matchHeader `{MapRange} (fr : FormatReaders) (knownHdrs : gmap string image.Header)
    : error + (FormatReaders * gmap string image.Header * option (string * image.Header)) :=
  match read fr with  (* read current header *)
  | inl err => inl err
  | inr fr =>
      (* append multi-reader so that the header data can be re-read by
         subsequent readers *)
      let fr := appendReader fr rdrMulti (Some (NewReader (buf fr))) in
      (* loop through known headers until a match *)
      match List.find (λ entry : string * image.Header, image.Match entry.2 (buf fr))
                      (range knownHdrs) with
      | Some (format, kh) =>
          (* delete this header format key so that it's not processed again *)
          inr (fr, delete format knownHdrs, Some (format, kh))
      | None => inr (fr, knownHdrs, None)  (* no match *)
      end
  end.

(** The outcome of header detection: the readers, what is left of the local
    copy of the known headers, the keys matched so far in the order they
    matched (a record kept by the model), and the error returned. *)
Record Detection := {
  state : FormatReaders;
  remaining : gmap string image.Header;
  matched : list string;
  result : option error
}.

(** The [for] loop of [constructReaders].  [None] when [fuel] iterations
    did not reach a [break] or a [return]. *)
Fixpoint constructReaders_loop `{MapRange} `{Decompressors} (fuel : nat) (fr : FormatReaders)
    (knownHdrs : gmap string image.Header) (log : list string) : option Detection :=
  match fuel with
  | 0 => None
  | S fuel =>
      match matchHeader fr knownHdrs with
      | inl err =>
          Some {| state := fr; remaining := knownHdrs; matched := log;
                  result := Some (withMessage err "could not process image header") |}
      | inr (fr, knownHdrs, None) =>
          (* done processing headers, we have the orig source file *)
          Some {| state := fr; remaining := knownHdrs; matched := log; result := None |}
      | inr (fr, knownHdrs, Some (format, hdr)) =>
          (* create format-specific reader and append it to dataStream
             readers stack *)
          let fr := fileFormatSelector fr hdr in
          let log := log ++ [format] in
          (* exit loop if hdr is qcow2 *)
          if decide (image.Format hdr = "qcow2") then
            Some {| state := fr; remaining := knownHdrs; matched := log; result := None |}
          else constructReaders_loop fuel fr knownHdrs log
      end
  end.

(** [constructReaders]: the loop gets one iteration per known header and
    one more. *)
Definition constructReaders `{MapRange} `{Decompressors} `{image.Registry}
    (fr : FormatReaders) (r : Reader) : option Detection :=
  let fr := appendReader fr (rdrTypM_index "stream") (Some r) in
  let knownHdrs := image.CopyKnownHdrs in  (* need local copy since keys are removed *)
  constructReaders_loop (S (size knownHdrs)) fr knownHdrs [].

(** [NewFormatReaders] creates a new instance of FormatReaders using the
    input stream passed in.  The progress reader that wraps the stream when
    a total is known yields the same bytes; it is not modelled. *)
Definition NewFormatReaders `{MapRange} `{Decompressors} `{image.Registry}
    (stream : Reader) : option Detection :=
  let readers :=
    {| readers := []; buf := replicate image.MaxExpectedHdrSize Byte.x00;
       Convert := false; Archived := false; ArchiveXz := false; ArchiveGz := false |} in
  constructReaders readers stream.

(** [Close]: close readers in reverse order.  [i] counts the readers still
    to close, so the loop variable of the code is [i - 1]; [closed] lists the
    indices whose [Close] was called, in call order. *)
Fixpoint Close_loop (rs : list reader) (i : nat) (rtnerr : option error) (closed : list nat)
    : option error * list nat :=
  match i with
  | 0 => (rtnerr, closed)
  | S i =>
      match rs !! i with
      | Some r =>
          let err := Reader_Close (rdr r) in
          let rtnerr := match err with
                        | Some _ => err  (* tracking last error *)
                        | None => rtnerr
                        end in
          Close_loop rs i rtnerr (closed ++ [i])
      | None => (rtnerr, closed)
      end
  end.

Definition Close (fr : FormatReaders) : option error * list nat :=
  Close_loop (readers fr) (length (readers fr)) None [].

End importer.

(** ** Sample inputs *)
Module samples.

(** The oracle that visits a map in the order of its entry list. *)
#[global] Instance listed_order : golang.MapRange :=
  {| golang.range_order := λ A l, l;
     golang.range_order_perm := λ A l, reflexivity l |}.

(** The oracle that visits a map in the reverse of that order. *)
Definition reversed_order : golang.MapRange :=
  {| golang.range_order := λ A l, reverse l;
     golang.range_order_perm := λ A l, reverse_Permutation l |}.

(** A no-provisioner class without the local-storage-operator label, and one
    with it. *)
Definition plainLocalClass : storagev1.StorageClass :=
  {| storagev1.Name := "local"; storagev1.Labels := ∅; storagev1.Annotations := ∅;
     storagev1.DeletionTimestamp := None;
     storagev1.Provisioner := "kubernetes.io/no-provisioner";
     storagev1.Parameters := ∅ |}.

Definition operatorLocalClass : storagev1.StorageClass :=
  {| storagev1.Name := "local";
     storagev1.Labels := {[ "local.storage.openshift.io/owner-name" := "local-disks" ]};
     storagev1.Annotations := ∅;
     storagev1.DeletionTimestamp := None;
     storagev1.Provisioner := "kubernetes.io/no-provisioner";
     storagev1.Parameters := ∅ |}.

Definition localVolume (name phase : string) : v1.PersistentVolume :=
  {| v1.Name := name; v1.StorageClassName := "local";
     v1.AccessModes := [v1.ReadWriteOnce]; v1.VolumeMode := None; v1.Phase := phase |}.

Definition clusterWith (pvs : list v1.PersistentVolume) : client.Client :=
  {| client.StorageClasses := ∅; client.StorageProfiles := ∅;
     client.PersistentVolumes := pvs; client.faults := client.noFaults |}.

Definition portworxClass (shared : gmap string string) : storagev1.StorageClass :=
  {| storagev1.Name := "px"; storagev1.Labels := ∅; storagev1.Annotations := ∅;
     storagev1.DeletionTimestamp := None;
     storagev1.Provisioner := "pxd.openstorage.org";
     storagev1.Parameters := shared |}.

(** Constant values for the samples; the properties below do not depend on
    them. *)
#[global] Instance constants : common.Constants :=
  {| common.CDILabelKey := "app";
     common.CDILabelValue := "containerized-data-importer";
     common.CDIComponentLabel := "cdi.kubevirt.io";
     common.AppKubernetesManagedByLabel := "app.kubernetes.io/managed-by";
     common.AppKubernetesComponentLabel := "app.kubernetes.io/component";
     common.ConfigName := "config" |}.

(** Owner references that are set without failure. *)
#[global] Instance controllerImports : controller.Imports :=
  {| controller.SetOwnerRuntime := λ p,
       inr {| cdiv1.Kind := cdiv1.Kind p; cdiv1.APIVersion := cdiv1.APIVersion p;
              cdiv1.Name := cdiv1.Name p; cdiv1.Labels := cdiv1.Labels p;
              cdiv1.OwnerReferences := ["cdi"];
              cdiv1.Spec := cdiv1.Spec p; cdiv1.Status := cdiv1.Status p |};
     controller.IgnoreNotFound := λ err,
       match err with
       | Some e => if k8serrors.IsNotFound e then None else Some e
       | None => None
       end |}.

Definition reconciler : controller.StorageProfileReconciler :=
  {| controller.installerLabels := ∅ |}.

(** A profile of class "local" whose spec is given. *)
Definition profileWithSpec (spec : cdiv1.StorageProfileSpec) : cdiv1.StorageProfile :=
  {| cdiv1.Kind := "StorageProfile"; cdiv1.APIVersion := "cdi.kubevirt.io/v1beta1";
     cdiv1.Name := "local"; cdiv1.Labels := ∅; cdiv1.OwnerReferences := [];
     cdiv1.Spec := spec;
     cdiv1.Status := {| cdiv1.StorageClass := None; cdiv1.Provisioner := None;
                        cdiv1.StatusCloneStrategy := None;
                        cdiv1.StatusClaimPropertySets := [] |} |}.

(** A spec set that names a volume mode and no access mode. *)
Definition blockWithoutAccessMode : cdiv1.ClaimPropertySet :=
  {| cdiv1.AccessModes := []; cdiv1.VolumeMode := Some v1.PersistentVolumeBlock |}.

Definition clusterOf (classes : list storagev1.StorageClass) (profiles : list cdiv1.StorageProfile)
    (pvs : list v1.PersistentVolume) : client.Client :=
  {| client.StorageClasses := list_to_map ((λ sc, (storagev1.Name sc, sc)) <$> classes);
     client.StorageProfiles := list_to_map ((λ p, (cdiv1.Name p, p)) <$> profiles);
     client.PersistentVolumes := pvs; client.faults := client.noFaults |}.

(** Values for the webhook's constants, and a decoder that knows three
    DataVolumes by the name of their raw form. *)
Definition cloneDataVolume (annotations : gmap string string) : webhooks.DataVolume :=
  {| webhooks.Namespace := "target-ns"; webhooks.Name := "clone-dv";
     webhooks.Annotations := annotations;
     webhooks.Source :=
       Some {| webhooks.PVC := Some {| webhooks.PVC_Namespace := "source-ns";
                                       webhooks.PVC_Name := "golden" |} |};
     webhooks.SourceRef := None |}.

Definition blankDataVolume : webhooks.DataVolume :=
  {| webhooks.Namespace := "target-ns"; webhooks.Name := "blank-dv";
     webhooks.Annotations := ∅;
     webhooks.Source := Some {| webhooks.PVC := None |};
     webhooks.SourceRef := None |}.

#[global] Instance webhookImports : webhooks.Imports :=
  {| webhooks.AnnDeleteAfterCompletion := "cdi.kubevirt.io/storage.deleteAfterCompletion";
     webhooks.AnnCloneToken := "cdi.kubevirt.io/storage.clone.token";
     webhooks.DataVolumeDataSource := "DataSource";
     webhooks.OperationClone := "Clone";
     webhooks.validateDataVolumeResource := λ _, None;
     webhooks.Unmarshal := λ raw,
       if decide (raw = "clone-dv") then inr (cloneDataVolume ∅)
       else if decide (raw = "clone-dv-with-token") then
         inr (cloneDataVolume {[ "cdi.kubevirt.io/storage.clone.token" := "signed" ]})
       else if decide (raw = "blank-dv") then inr blankDataVolume
       else inl (golang.errorString "unexpected end of JSON input") |}.

(** A webhook whose CDIConfig has the given TTL and whose access review
    answers as told. *)
Definition webhook (ttl : option Z) (authorized : bool) : webhooks.dataVolumeMutatingWebhook :=
  {| webhooks.DataSources_Get := λ ns name, inl (golang.StatusNotFound name);
     webhooks.CDIConfigs_Get := λ name, inr {| webhooks.DataVolumeTTLSeconds := ttl |};
     webhooks.tokenGenerator_Generate := λ payload, inr "signed";
     webhooks.CanUserClonePVC := λ sourceNamespace sourceName targetNamespace user,
       (authorized, if authorized then "" else "user may not clone the source", None) |}.

Definition review (operation object oldObject : string) : webhooks.AdmissionReview :=
  {| webhooks.Request :=
       {| webhooks.Operation := operation; webhooks.Request_Namespace := "target-ns";
          webhooks.Request_Name := ""; webhooks.Object_Raw := object;
          webhooks.OldObject_Raw := oldObject; webhooks.Request_UserInfo := "alice" |} |}.

(** A small registry with four-byte headers, and decompressors that take
    the payload to be what follows a four-byte stream header. *)
Definition gzMagic (b : list byte) : bool :=
  match b with Byte.x1f :: Byte.x8b :: _ => true | _ => false end.
Definition qcow2Magic (b : list byte) : bool :=
  match b with Byte.x51 :: Byte.x46 :: Byte.x49 :: Byte.xfb :: _ => true | _ => false end.
Definition vmdkMagic (b : list byte) : bool :=
  match b with Byte.x4b :: Byte.x44 :: Byte.x4d :: Byte.x56 :: _ => true | _ => false end.

#[global] Instance registry : image.Registry :=
  {| image.MaxExpectedHdrSize := 4;
     image.CopyKnownHdrs := list_to_map [
       ("gz", {| image.Format := "gz"; image.SizeOff := 0; image.SizeLen := 0;
                 image.Match := gzMagic |});
       ("qcow2", {| image.Format := "qcow2"; image.SizeOff := 0; image.SizeLen := 4;
                    image.Match := qcow2Magic |});
       ("vmdk", {| image.Format := "vmdk"; image.SizeOff := 0; image.SizeLen := 0;
                   image.Match := vmdkMagic |}) ] |}.

Definition payloadAfterHeader (closes : bool) (r : importer.Reader)
    : golang.error * list byte + importer.Reader :=
  if decide (4 ≤ length (importer.data r)) then
    inr {| importer.data := drop 4 (importer.data r);
           importer.closer := if closes then Some None else None |}
  else inl (golang.errorString "unexpected EOF", []).

#[global] Instance decompressors : importer.Decompressors :=
  {| importer.gzip_NewReader := payloadAfterHeader true;
     importer.xz_NewReader := payloadAfterHeader false |}.

(** A gzip stream that holds a qcow2 image, and a vmdk image. *)
Definition gzippedQcow2 : importer.Reader :=
  {| importer.data := [Byte.x1f; Byte.x8b; Byte.x08; Byte.x00;
                       Byte.x51; Byte.x46; Byte.x49; Byte.xfb;
                       Byte.x00; Byte.x00; Byte.x00; Byte.x03];
     importer.closer := Some None |}.

Definition vmdkImage : importer.Reader :=
  {| importer.data := [Byte.x4b; Byte.x44; Byte.x4d; Byte.x56;
                       Byte.x01; Byte.x00; Byte.x00; Byte.x00];
     importer.closer := Some None |}.

Definition noReaders : importer.FormatReaders :=
  {| importer.readers := []; importer.buf := replicate 4 Byte.x00;
     importer.Convert := false; importer.Archived := false;
     importer.ArchiveXz := false; importer.ArchiveGz := false |}.

(** A stack of three readers of which the two lower ones fail to close. *)
Definition failingStack : importer.FormatReaders :=
  importer.withReaders noReaders
    [ {| importer.rdrType := importer.rdrStream;
         importer.rdr := {| importer.data := [];
                            importer.closer := Some (Some (golang.errorString "stream")) |} |};
      {| importer.rdrType := importer.rdrMulti;
         importer.rdr := {| importer.data := [];
                            importer.closer := Some (Some (golang.errorString "multi")) |} |};
      {| importer.rdrType := importer.rdrGz;
         importer.rdr := {| importer.data := []; importer.closer := Some None |} |} ].

(** A pod whose namespace file holds "  kube-system" and a line feed. *)
Definition podFiles : util.OS :=
  {| util.ReadFile := λ path,
       if decide (path = "/var/run/secrets/kubernetes.io/serviceaccount/namespace")
       then inr ("  kube-system" +:+ String (ascii_of_N 10) "")
       else inl (golang.errorString "no such file or directory") |}.

(** A two-byte file positioned at its end, whose calls do not fail. *)
Definition dataFile : util.File :=
  {| util.contents := [Byte.x51; Byte.x46]; util.offset := 2;
     util.Seek_err := None; util.Truncate_err := None; util.Write_errs := [] |}.

End samples.

(* ===================================================================== *)
(** * Part II: properties                                                  *)
(* ===================================================================== *)

(** ** Go runtime *)

Lemma index_eq_nonempty (m : gmap string string) (k v : string) :
  v ≠ "" → golang.index m k = v ↔ m !! k = Some v.
Proof.
  intros Hv. unfold golang.index.
  destruct (m !! k) as [x|]; simpl; split; intros Heq; congruence.
Qed.

Lemma elem_of_range `{golang.MapRange} `{Countable K} {V : Type} (m : gmap K V) (k : K) (v : V) :
  (k, v) ∈ golang.range m ↔ m !! k = Some v.
Proof.
  unfold golang.range. rewrite golang.range_order_perm. apply elem_of_map_to_list.
Qed.

Lemma NoDup_range_keys `{golang.MapRange} `{Countable K} {V : Type} (m : gmap K V) :
  NoDup (golang.range m).*1.
Proof.
  unfold golang.range. rewrite golang.range_order_perm. apply NoDup_fst_map_to_list.
Qed.

(** A loop that appends one element per step builds the mapped list. *)
Lemma foldl_snoc_fmap {A B : Type} (f : A → B) (l : list A) (acc : list B) :
  foldl (λ out x, out ++ [f x]) acc l = acc ++ (f <$> l).
Proof.
  revert acc. induction l as [|x l IH]; intros acc; simpl.
  - by rewrite app_nil_r.
  - rewrite IH, <- app_assoc. done.
Qed.

(** ** Package storagecapabilities *)

Section storagecapabilities_facts.
Import storagecapabilities.
Context `{golang.MapRange}.

Lemma capabilitiesMap_lookup (input : list StorageCapabilities) (c : StorageCapabilities) :
  is_Some (capabilitiesMap input !! c) ↔ c ∈ input.
Proof.
  unfold capabilitiesMap.
  assert (Hgen : ∀ m : gmap StorageCapabilities bool,
             is_Some (foldl (λ m capability, <[capability := true]> m) m input !! c)
             ↔ is_Some (m !! c) ∨ c ∈ input).
  { induction input as [|x input IH]; intros m; simpl.
    - rewrite elem_of_nil. tauto.
    - rewrite IH, elem_of_cons, lookup_insert_is_Some.
      destruct (decide (x = c)) as [->|Hne]; [tauto|].
      split; [intros [[?|[_ ?]]|?]|intros [?|[?|?]]]; try tauto; congruence. }
  rewrite Hgen, lookup_empty, is_Some_alt. tauto.
Qed.

Lemma uniqueCapabilities_keys (input : list StorageCapabilities) :
  uniqueCapabilities input = (golang.range (capabilitiesMap input)).*1.
Proof. unfold uniqueCapabilities. by rewrite foldl_snoc_fmap. Qed.

(** [uniqueCapabilities] keeps exactly the capabilities of its input, each
    once. *)
Lemma uniqueCapabilities_spec (input : list StorageCapabilities) :
  NoDup (uniqueCapabilities input) ∧ ∀ c, c ∈ uniqueCapabilities input ↔ c ∈ input.
Proof.
  rewrite uniqueCapabilities_keys. split; [apply NoDup_range_keys|].
  intros c. rewrite <- (capabilitiesMap_lookup input c), list_elem_of_fmap. split.
  - intros [[c' b] [-> Hin]]. apply elem_of_range in Hin. eauto.
  - intros [b Hb]. exists (c, b). split; [done|]. by apply elem_of_range.
Qed.

Lemma collectCapabilities_spec (sc : storagev1.StorageClass) (items : list v1.PersistentVolume)
    (c : StorageCapabilities) :
  c ∈ collectCapabilities sc items ↔
  ∃ pv, pv ∈ items ∧ v1.StorageClassName pv = storagev1.Name sc
        ∧ AccessMode c ∈ v1.AccessModes pv
        ∧ VolumeMode c = util.ResolveVolumeMode (v1.VolumeMode pv).
Proof.
  unfold collectCapabilities.
  set (step := λ (capabilities : list StorageCapabilities) (pv : v1.PersistentVolume), _).
  assert (Hgen : ∀ acc, c ∈ foldl step acc items ↔
             c ∈ acc ∨ ∃ pv, pv ∈ items ∧ v1.StorageClassName pv = storagev1.Name sc
                             ∧ AccessMode c ∈ v1.AccessModes pv
                             ∧ VolumeMode c = util.ResolveVolumeMode (v1.VolumeMode pv)).
  { induction items as [|pv items IH]; intros acc; simpl.
    - split; [tauto|]. intros [?|(pv & Hin & _)]; [done|]. by apply elem_of_nil in Hin.
    - rewrite IH. unfold step. destruct (decide _) as [Hname|Hname].
      + rewrite (foldl_snoc_fmap (λ accessMode, {| AccessMode := accessMode;
                   VolumeMode := util.ResolveVolumeMode (v1.VolumeMode pv) |})).
        rewrite elem_of_app, list_elem_of_fmap. split.
        * intros [[Hacc|(am & -> & Ham)]|(pv' & Hin & Hrest)].
          -- by left.
          -- right. exists pv. rewrite elem_of_cons. simpl. split_and!; [by left|done..].
          -- right. exists pv'. rewrite elem_of_cons. split; [by right|done].
        * intros [Hacc|(pv' & Hin & Hn & Ham & Hvm)]; [by left; left|].
          apply elem_of_cons in Hin as [->|Hin].
          -- left; right. exists (AccessMode c). split; [|done]. destruct c; simpl in *; by subst.
          -- right. eauto 10.
      + split.
        * intros [Hacc|(pv' & Hin & Hrest)]; [by left|].
          right. exists pv'. rewrite elem_of_cons. split; [by right|done].
        * intros [Hacc|(pv' & Hin & Hn & Hrest)]; [by left|].
          apply elem_of_cons in Hin as [->|Hin]; [done|]. right. eauto 10. }
  rewrite Hgen, elem_of_nil. tauto.
Qed.

Lemma mapper_lookup_other (p : string) :
  p ≠ "pxd.openstorage.org" → p ≠ "kubernetes.io/portworx-volume" → p ≠ "csi.trident.netapp.io" →
  storageClassToProvisionerKeyMapper !! p = None.
Proof.
  intros H1 H2 H3. unfold storageClassToProvisionerKeyMapper. simpl.
  rewrite !lookup_insert_ne by done. apply lookup_empty.
Qed.

Lemma storageProvisionerKey_no_provisioner (sc : storagev1.StorageClass) :
  storagev1.Provisioner sc = "kubernetes.io/no-provisioner" →
  storageProvisionerKey sc = "kubernetes.io/no-provisioner".
Proof.
  intros Hp. unfold storageProvisionerKey. rewrite Hp.
  by rewrite mapper_lookup_other.
Qed.

End storagecapabilities_facts.

Section storagecapabilities_claims.
Import storagecapabilities.

(** C1 (as amended).  For a StorageClass whose provisioner is
    "kubernetes.io/no-provisioner", [Get] reports a capability exactly when
    the class carries the label "local.storage.openshift.io/owner-name", the
    listing of PersistentVolumes succeeds, and some listed volume, whatever
    its phase, has the class name as StorageClassName, the capability's
    access mode among its access modes and the capability's volume mode as
    its resolved volume mode.  The reported list has no duplicates, and the
    found flag says whether it is non-empty. *)
Theorem Get_no_provisioner_capabilities `{golang.MapRange}
    (cl : client.Client) (sc : storagev1.StorageClass) :
  storagev1.Provisioner sc = "kubernetes.io/no-provisioner" →
  NoDup (Get cl sc).1
  ∧ (Get cl sc).2 = bool_decide ((Get cl sc).1 ≠ [])
  ∧ ∀ c : StorageCapabilities,
      c ∈ (Get cl sc).1 ↔
      is_Some (storagev1.Labels sc !! "local.storage.openshift.io/owner-name")
      ∧ ∃ pvs pv, client.ListPersistentVolumes cl = inr pvs
                  ∧ pv ∈ pvs
                  ∧ v1.StorageClassName pv = storagev1.Name sc
                  ∧ AccessMode c ∈ v1.AccessModes pv
                  ∧ VolumeMode c = util.ResolveVolumeMode (v1.VolumeMode pv).
Proof.
  intros Hp. unfold Get. rewrite (storageProvisionerKey_no_provisioner sc Hp).
  rewrite decide_True by done. unfold capabilitiesForNoProvisioner, knownNoProvisioner,
    isLocalStorageOperator, golang.found.
  case_bool_decide as Hlabel; simpl.
  - destruct (client.ListPersistentVolumes cl) as [err|pvs] eqn:Hlist; simpl.
    + split_and!; [constructor|done|].
      intros c. rewrite elem_of_nil. split; [done|].
      intros (_ & pvs & pv & Hpvs & _). discriminate.
    + destruct (uniqueCapabilities_spec (collectCapabilities sc pvs)) as [Hnodup Hmem].
      split_and!; [done| |].
      * by destruct (uniqueCapabilities _) as [|c l].
      * intros c. rewrite Hmem, collectCapabilities_spec. split.
        -- intros (pv & Hin & Hrest). split; [done|]. by exists pvs, pv.
        -- intros (_ & pvs' & pv & Hpvs & Hrest). simplify_eq. by exists pv.
  - split_and!; [constructor|done|].
    intros c. rewrite elem_of_nil. split; [done|]. by intros [? _].
Qed.

(** The theorem at a labelled class with one volume. *)
Lemma Get_no_provisioner_capabilities_witness :
  let cl := samples.clusterWith [samples.localVolume "pv0" "Available"] in
  let sc := samples.operatorLocalClass in
  storagev1.Provisioner sc = "kubernetes.io/no-provisioner"
  ∧ NoDup (Get cl sc).1
  ∧ (Get cl sc).2 = bool_decide ((Get cl sc).1 ≠ [])
  ∧ ∀ c : StorageCapabilities,
      c ∈ (Get cl sc).1 ↔
      is_Some (storagev1.Labels sc !! "local.storage.openshift.io/owner-name")
      ∧ ∃ pvs pv, client.ListPersistentVolumes cl = inr pvs
                  ∧ pv ∈ pvs
                  ∧ v1.StorageClassName pv = storagev1.Name sc
                  ∧ AccessMode c ∈ v1.AccessModes pv
                  ∧ VolumeMode c = util.ResolveVolumeMode (v1.VolumeMode pv).
Proof.
  intros cl sc. split; [reflexivity|].
  apply (Get_no_provisioner_capabilities cl sc). reflexivity.
Defined.

(** C1 as stated fails: a no-provisioner class without the operator label is
    reported to have no capabilities, although a bound volume of the class
    is listed. *)
Lemma Get_no_provisioner_unlabelled_counterexample :
  ¬ (∀ (R : golang.MapRange) (cl : client.Client) (sc : storagev1.StorageClass),
       storagev1.Provisioner sc = "kubernetes.io/no-provisioner" →
       ∀ c : StorageCapabilities,
         c ∈ (Get cl sc).1 ↔
         ∃ pv, pv ∈ client.PersistentVolumes cl
               ∧ v1.Phase pv = "Bound"
               ∧ v1.StorageClassName pv = storagev1.Name sc
               ∧ AccessMode c ∈ v1.AccessModes pv
               ∧ VolumeMode c = util.ResolveVolumeMode (v1.VolumeMode pv)).
Proof.
  intros Hclaim.
  pose proof (Hclaim samples.listed_order
                (samples.clusterWith [samples.localVolume "pv0" "Bound"])
                samples.plainLocalClass eq_refl
                {| AccessMode := v1.ReadWriteOnce; VolumeMode := v1.PersistentVolumeFilesystem |})
    as [_ Hback].
  assert (Hin : {| AccessMode := v1.ReadWriteOnce; VolumeMode := v1.PersistentVolumeFilesystem |}
                ∈ (Get (samples.clusterWith [samples.localVolume "pv0" "Bound"])
                       samples.plainLocalClass).1).
  { apply Hback. exists (samples.localVolume "pv0" "Bound").
    split_and!; [apply list_elem_of_singleton; reflexivity|reflexivity|reflexivity| |reflexivity].
    apply list_elem_of_singleton. reflexivity. }
  vm_compute in Hin. by apply elem_of_nil in Hin.
Qed.

(** The phase of a volume is not consulted: an available volume of a
    labelled class counts like a bound one. *)
Lemma Get_no_provisioner_ignores_phase :
  Get (samples.clusterWith [samples.localVolume "pv0" "Available"]) samples.operatorLocalClass
  = ([ {| AccessMode := v1.ReadWriteOnce; VolumeMode := v1.PersistentVolumeFilesystem |} ], true).
Proof. vm_compute. reflexivity. Qed.

Lemma Get_no_provisioner_unlabelled :
  Get (samples.clusterWith [samples.localVolume "pv0" "Bound"]) samples.plainLocalClass
  = ([], false).
Proof. vm_compute. reflexivity. Qed.

End storagecapabilities_claims.

Section provisioner_keying.
Import storagecapabilities.

Lemma mapper_lookup_pxd :
  storageClassToProvisionerKeyMapper !! "pxd.openstorage.org" =
  Some (λ sc : storagev1.StorageClass,
          let val := golang.index (storagev1.Parameters sc) "shared" in
          if decide (val = "true") then "pxd.openstorage.org/shared"
          else "pxd.openstorage.org").
Proof. reflexivity. Qed.

Lemma mapper_lookup_portworx_volume :
  storageClassToProvisionerKeyMapper !! "kubernetes.io/portworx-volume" =
  Some (λ sc : storagev1.StorageClass,
          let val := golang.index (storagev1.Parameters sc) "shared" in
          if decide (val = "true") then "kubernetes.io/portworx-volume/shared"
          else "kubernetes.io/portworx-volume").
Proof. reflexivity. Qed.

(** The key of a portworx class: the provisioner, with "/shared" appended
    when the parameter shared is "true". *)
Lemma storageProvisionerKey_portworx (sc : storagev1.StorageClass) :
  storagev1.Provisioner sc = "kubernetes.io/portworx-volume"
  ∨ storagev1.Provisioner sc = "pxd.openstorage.org" →
  storageProvisionerKey sc =
    if decide (storagev1.Parameters sc !! "shared" = Some "true")
    then storagev1.Provisioner sc +:+ "/shared"
    else storagev1.Provisioner sc.
Proof.
  intros Hp. unfold storageProvisionerKey.
  assert (Hidx : golang.index (storagev1.Parameters sc) "shared" = "true"
                 ↔ storagev1.Parameters sc !! "shared" = Some "true")
    by (by apply index_eq_nonempty).
  destruct Hp as [-> | ->].
  - rewrite mapper_lookup_portworx_volume. simpl.
    destruct (decide (golang.index _ _ = _)), (decide (_ !! _ = _)); tauto.
  - rewrite mapper_lookup_pxd. simpl.
    destruct (decide (golang.index _ _ = _)), (decide (_ !! _ = _)); tauto.
Qed.

(** C8.  For a class of provisioner "kubernetes.io/portworx-volume" or
    "pxd.openstorage.org", [Get] looks the static table up under the key
    computed from the parameters: with shared="true" the key ends in
    "/shared" and the answer is ReadWriteMany/Filesystem, otherwise the key
    is the provisioner and the answer is ReadWriteOnce/Filesystem. *)
Theorem Get_portworx_keyed_by_shared `{golang.MapRange}
    (cl : client.Client) (sc : storagev1.StorageClass) :
  storagev1.Provisioner sc = "kubernetes.io/portworx-volume"
  ∨ storagev1.Provisioner sc = "pxd.openstorage.org" →
  (storagev1.Parameters sc !! "shared" = Some "true" →
     storageProvisionerKey sc = storagev1.Provisioner sc +:+ "/shared"
     ∧ Get cl sc = ([ {| AccessMode := v1.ReadWriteMany;
                         VolumeMode := v1.PersistentVolumeFilesystem |} ], true))
  ∧ (storagev1.Parameters sc !! "shared" ≠ Some "true" →
     storageProvisionerKey sc = storagev1.Provisioner sc
     ∧ Get cl sc = ([ {| AccessMode := v1.ReadWriteOnce;
                         VolumeMode := v1.PersistentVolumeFilesystem |} ], true)).
Proof.
  intros Hp. pose proof (storageProvisionerKey_portworx sc Hp) as Hkey.
  unfold Get. rewrite Hkey.
  split; intros Hshared.
  - rewrite decide_True by done. split; [done|].
    destruct Hp as [-> | ->]; reflexivity.
  - rewrite decide_False by done. split; [done|].
    destruct Hp as [-> | ->]; reflexivity.
Qed.

(** The theorem at a shared portworx class. *)
Lemma Get_portworx_keyed_by_shared_witness :
  let cl := samples.clusterWith [] in
  let sc := samples.portworxClass {[ "shared" := "true" ]} in
  (storagev1.Provisioner sc = "kubernetes.io/portworx-volume"
   ∨ storagev1.Provisioner sc = "pxd.openstorage.org")
  ∧ storagev1.Parameters sc !! "shared" = Some "true"
  ∧ storageProvisionerKey sc = "pxd.openstorage.org/shared"
  ∧ Get cl sc = ([ {| AccessMode := v1.ReadWriteMany;
                      VolumeMode := v1.PersistentVolumeFilesystem |} ], true).
Proof.
  intros cl sc.
  assert (Hp : storagev1.Provisioner sc = "kubernetes.io/portworx-volume"
               ∨ storagev1.Provisioner sc = "pxd.openstorage.org") by (right; reflexivity).
  assert (Hs : storagev1.Parameters sc !! "shared" = Some "true") by reflexivity.
  split; [exact Hp|]. split; [exact Hs|].
  exact (proj1 (Get_portworx_keyed_by_shared cl sc Hp) Hs).
Defined.

Lemma Get_portworx_not_shared :
  Get (samples.clusterWith []) (samples.portworxClass {[ "shared" := "false" ]})
  = ([ {| AccessMode := v1.ReadWriteOnce; VolumeMode := v1.PersistentVolumeFilesystem |} ], true).
Proof. vm_compute. reflexivity. Qed.

End provisioner_keying.

(** ** Package util: the termination message *)

Section termination_message.
Import util.

Lemma get_ReplaceAll_newline (s : string) (i : nat) :
  String.get i (ReplaceAll s newline " ") ≠ Some newline.
Proof.
  revert i. induction s as [|c s IH]; intros i; simpl; [done|].
  destruct (decide (c = newline)) as [->|Hc]; simpl.
  - destruct i as [|i]; [discriminate|apply IH].
  - destruct i as [|i]; [congruence|apply IH].
Qed.

(** [ReplaceAll] keeps every byte but the newline, which becomes a space. *)
Lemma get_ReplaceAll (s : string) (i : nat) :
  String.get i (ReplaceAll s newline " ") =
  (λ c, if decide (c = newline) then " "%char else c) <$> String.get i s.
Proof.
  revert i. induction s as [|c s IH]; intros i; simpl; [done|].
  destruct (decide (c = newline)) as [->|Hc]; simpl.
  - destruct i as [|i]; [done|apply IH].
  - destruct i as [|i]; simpl; [by rewrite decide_False|apply IH].
Qed.

Lemma length_ReplaceAll (s : string) :
  String.length (ReplaceAll s newline " ") = String.length s.
Proof.
  induction s as [|c s IH]; simpl; [done|].
  destruct (decide (c = newline)); simpl.
  - change ("" +:+ ReplaceAll s newline " ") with (ReplaceAll s newline " "). by rewrite IH.
  - by rewrite IH.
Qed.

Lemma IndexByte_absent (s : string) (c : ascii) :
  (∀ i, String.get i s ≠ Some c) → IndexByte s c = None.
Proof.
  induction s as [|d s IH]; intros Hs; simpl; [done|].
  destruct (decide (d = c)) as [->|Hd].
  - by specialize (Hs 0).
  - rewrite IH; [done|]. intros i. apply (Hs (S i)).
Qed.

Lemma substring_whole (s : string) : String.substring 0 (String.length s) s = s.
Proof. induction s as [|c s IH]; simpl; [done|by rewrite IH]. Qed.

Lemma get_dropCR (s : string) (i : nat) (c : ascii) :
  String.get i (dropCR s) = Some c → String.get i s = Some c.
Proof.
  revert i. induction s as [|d s IH]; intros i; simpl; [done|].
  destruct s as [|e s].
  - destruct (decide (d = carriageReturn)); [by destruct i|done].
  - destruct i as [|i]; [done|]. apply IH.
Qed.

(** On input without a newline, [Scan] yields the whole input less one
    trailing carriage return, or nothing. *)
Lemma Scan_single_line (s text : string) :
  (∀ i, String.get i s ≠ Some newline) → Scan s = Some text → text = dropCR s.
Proof.
  intros Hs. unfold Scan. rewrite (IndexByte_absent s newline Hs). simpl.
  destruct (decide (s = "")); [done|].
  destruct (decide _); [|done]. rewrite substring_whole. congruence.
Qed.

(** C9.  [WriteTerminationMessageToFile] either leaves the files as they
    are, or sets the termination file to a content without any newline: the
    message with every newline replaced by a space (and one trailing carriage
    return dropped). *)
Theorem WriteTerminationMessageToFile_single_line (fs : FileSystem) (file message : string) :
  (WriteTerminationMessageToFile fs file message).1 = fs
  ∨ ∃ content : string,
      (WriteTerminationMessageToFile fs file message).2 = None
      ∧ files (WriteTerminationMessageToFile fs file message).1 = <[file := content]> (files fs)
      ∧ content = dropCR (ReplaceAll message newline " ")
      ∧ (∀ i, String.get i content ≠ Some newline)
      ∧ (∀ i c, String.get i message = Some c →
           String.get i (ReplaceAll message newline " ")
           = Some (if decide (c = newline) then " "%char else c)).
Proof.
  unfold WriteTerminationMessageToFile.
  destruct (Scan (ReplaceAll message newline " ")) as [text|] eqn:Hscan; [|by left].
  apply Scan_single_line in Hscan; [|apply get_ReplaceAll_newline].
  unfold WriteFile. destruct (WriteFile_err fs) as [e|]; simpl; [by left|].
  right. exists text. split_and!; [done|done|done| |].
  - intros i Hi. subst text. apply get_dropCR in Hi. by apply get_ReplaceAll_newline in Hi.
  - intros i c Hi. by rewrite get_ReplaceAll, Hi.
Qed.

(** A message of fewer than 64 KiB that is not empty is written, when the
    file can be written. *)
Lemma WriteTerminationMessageToFile_writes (fs : FileSystem) (file message : string) :
  message ≠ "" → (Z.of_nat (String.length message) < MaxScanTokenSize)%Z →
  WriteFile_err fs = None →
  WriteTerminationMessageToFile fs file message =
    ({| files := <[file := dropCR (ReplaceAll message newline " ")]> (files fs);
        WriteFile_err := None |}, None).
Proof.
  intros Hne Hlen Hfs. unfold WriteTerminationMessageToFile, Scan.
  rewrite (IndexByte_absent _ newline (get_ReplaceAll_newline message)). simpl.
  rewrite decide_False.
  - rewrite length_ReplaceAll, decide_True by done.
    rewrite <- (length_ReplaceAll message) at 1. rewrite substring_whole.
    unfold WriteFile. by rewrite Hfs.
  - intros Heq. apply (f_equal String.length) in Heq. rewrite length_ReplaceAll in Heq.
    destruct message; [done|discriminate].
Qed.

Example WriteTerminationMessageToFile_two_lines :
  WriteTerminationMessageToFile {| files := ∅; WriteFile_err := None |} "/dev/termination-log"
    ("disk full" +:+ String newline "retry later")
  = ({| files := {[ "/dev/termination-log" := "disk full retry later" ]}; WriteFile_err := None |},
     None).
Proof. vm_compute. reflexivity. Qed.

(** C9 at a message of two lines. *)
Lemma WriteTerminationMessageToFile_single_line_witness :
  let fs := {| files := ∅; WriteFile_err := None |} in
  let file := "/dev/termination-log" in
  let message := "disk full" +:+ String newline "retry later" in
  files (WriteTerminationMessageToFile fs file message).1 !! file = Some "disk full retry later"
  ∧ ((WriteTerminationMessageToFile fs file message).1 = fs
     ∨ ∃ content : string,
         (WriteTerminationMessageToFile fs file message).2 = None
         ∧ files (WriteTerminationMessageToFile fs file message).1 = <[file := content]> (files fs)
         ∧ content = dropCR (ReplaceAll message newline " ")
         ∧ (∀ i, String.get i content ≠ Some newline)
         ∧ (∀ i c, String.get i message = Some c →
              String.get i (ReplaceAll message newline " ")
              = Some (if decide (c = newline) then " "%char else c))).
Proof.
  intros fs file message. split; [reflexivity|].
  exact (WriteTerminationMessageToFile_single_line fs file message).
Defined.

End termination_message.

(** ** Package controller: the storage profile reconciler *)

Section storage_profile_reconciler.
Import controller.
Context {order : golang.MapRange} {consts : common.Constants} {imports : controller.Imports}.

(** A failed write leaves the store as it was. *)
Lemma Create_error_unchanged (cl cl' : client.Client) (p : cdiv1.StorageProfile) (e : golang.error) :
  client.Create cl p = (cl', Some e) → cl' = cl.
Proof.
  unfold client.Create. destruct (client.Create_err _); [congruence|].
  destruct (_ !! _); congruence.
Qed.

Lemma Update_error_unchanged (cl cl' : client.Client) (p : cdiv1.StorageProfile) (e : golang.error) :
  client.Update cl p = (cl', Some e) → cl' = cl.
Proof.
  unfold client.Update. destruct (client.Update_err _); [congruence|].
  destruct (_ !! _); congruence.
Qed.

Lemma updateStorageProfile_error_unchanged (cl cl' : client.Client)
    (prev : option cdiv1.StorageProfile) (p : cdiv1.StorageProfile) (e : golang.error) :
  updateStorageProfile cl prev p = (cl', Some e) → cl' = cl.
Proof.
  unfold updateStorageProfile. destruct prev as [prev|].
  - destruct (decide _); [congruence|apply Update_error_unchanged].
  - apply Create_error_unchanged.
Qed.

(** Whenever [reconcileStorageProfile] returns an error, no object of the
    store has changed. *)
Lemma reconcileStorageProfile_error_unchanged (r : StorageProfileReconciler)
    (cl cl' : client.Client) (sc : storagev1.StorageClass) (e : golang.error) :
  reconcileStorageProfile r cl sc = (cl', Some e) → cl' = cl.
Proof.
  unfold reconcileStorageProfile.
  destruct (getStorageProfile r cl sc) as [err|[storageProfile prev]]; [congruence|].
  destruct (decide _).
  - destruct (checkClaimPropertySets _); [congruence|]. apply updateStorageProfile_error_unchanged.
  - apply updateStorageProfile_error_unchanged.
Qed.

(** The validation loop reports the first set that names a volume mode and
    no access mode. *)
Lemma checkClaimPropertySets_offending (sets : list cdiv1.ClaimPropertySet) :
  (∃ cps, cps ∈ sets ∧ is_Some (cdiv1.VolumeMode cps) ∧ cdiv1.AccessModes cps = []) →
  ∃ cps volumeMode,
    cps ∈ sets ∧ cdiv1.VolumeMode cps = Some volumeMode ∧ cdiv1.AccessModes cps = []
    ∧ checkClaimPropertySets sets
      = Some (golang.errorString ("must provide access mode for volume mode: " +:+ volumeMode)).
Proof.
  induction sets as [|cps sets IH]; intros (bad & Hin & Hvm & Ham).
  - by apply elem_of_nil in Hin.
  - simpl. destruct (cdiv1.VolumeMode cps) as [vm|] eqn:Hcps.
    + destruct (decide (length (cdiv1.AccessModes cps) = 0)) as [Hlen|Hlen].
      * exists cps, vm. split_and!; [apply list_elem_of_here|done| |done].
        by apply nil_length_inv.
      * apply elem_of_cons in Hin as [->|Hin]; [by rewrite Ham in Hlen|].
        destruct IH as (cps' & vm' & Hin' & Hrest); [by exists bad|].
        exists cps', vm'. split; [by apply list_elem_of_further|done].
    + apply elem_of_cons in Hin as [->|Hin].
      * rewrite Hcps in Hvm. by destruct Hvm.
      * destruct IH as (cps' & vm' & Hin' & Hrest); [by exists bad|].
        exists cps', vm'. split; [by apply list_elem_of_further|done].
Qed.

Lemma checkClaimPropertySets_None (sets : list cdiv1.ClaimPropertySet) :
  checkClaimPropertySets sets = None ↔
  ∀ cps, cps ∈ sets → is_Some (cdiv1.VolumeMode cps) → cdiv1.AccessModes cps ≠ [].
Proof.
  induction sets as [|cps sets IH]; simpl.
  - split; [|done]. intros _ cps Hin. by apply elem_of_nil in Hin.
  - destruct (cdiv1.VolumeMode cps) as [vm|] eqn:Hcps.
    + destruct (decide (length (cdiv1.AccessModes cps) = 0)) as [Hlen|Hlen].
      * split; [done|]. intros Hall. apply nil_length_inv in Hlen.
        exfalso. apply (Hall cps); [apply list_elem_of_here|by rewrite Hcps|done].
      * rewrite IH. split.
        -- intros Hall cps' [->|Hin]%elem_of_cons; [|by apply Hall].
           intros _ Hnil. by rewrite Hnil in Hlen.
        -- intros Hall cps' Hin. apply Hall. by apply list_elem_of_further.
    + rewrite IH. split.
      * intros Hall cps' [->|Hin]%elem_of_cons; [|by apply Hall].
        rewrite Hcps. by intros [? ?].
      * intros Hall cps' Hin. apply Hall. by apply list_elem_of_further.
Qed.

(** C5.  When the profile that [reconcileStorageProfile] reads has a spec
    set with a volume mode and no access mode, the call returns the error
    "must provide access mode for volume mode: ..." for such a set, and the
    store it returns is the store it was given: nothing is created or
    updated. *)
Theorem reconcileStorageProfile_volume_mode_needs_access_mode
    (r : StorageProfileReconciler) (cl : client.Client) (sc : storagev1.StorageClass)
    (profile : cdiv1.StorageProfile) :
  client.GetStorageProfile cl (storagev1.Name sc) = inr profile →
  (∃ cps, cps ∈ cdiv1.ClaimPropertySets (cdiv1.Spec profile)
          ∧ is_Some (cdiv1.VolumeMode cps) ∧ cdiv1.AccessModes cps = []) →
  ∃ cps volumeMode,
    cps ∈ cdiv1.ClaimPropertySets (cdiv1.Spec profile)
    ∧ cdiv1.VolumeMode cps = Some volumeMode ∧ cdiv1.AccessModes cps = []
    ∧ reconcileStorageProfile r cl sc
      = (cl, Some (golang.errorString
                     ("must provide access mode for volume mode: " +:+ volumeMode))).
Proof.
  intros Hget Hbad.
  destruct (checkClaimPropertySets_offending _ Hbad) as (cps & vm & Hin & Hvm & Ham & Hcheck).
  exists cps, vm. split_and!; [done..|].
  unfold reconcileStorageProfile, getStorageProfile. rewrite Hget.
  rewrite decide_True.
  - by rewrite Hcheck.
  - destruct (cdiv1.ClaimPropertySets (cdiv1.Spec profile)); simpl; [|lia].
    by apply elem_of_nil in Hin.
Qed.

(** What a successful [reconcileStorageProfile] leaves in the store: a
    profile whose status names the class and its provisioner, carries the
    reconciled clone strategy, and carries the spec's property sets, or the
    computed ones when the spec has none; the spec's sets passed the
    validation. *)
Lemma reconcileStorageProfile_success (r : StorageProfileReconciler)
    (cl cl' : client.Client) (sc : storagev1.StorageClass) :
  reconcileStorageProfile r cl sc = (cl', None) →
  ∃ key p,
    client.StorageProfiles cl' !! key = Some p
    ∧ cdiv1.Status p =
        {| cdiv1.StorageClass := Some (storagev1.Name sc);
           cdiv1.Provisioner := Some (storagev1.Provisioner sc);
           cdiv1.StatusCloneStrategy :=
             reconcileCloneStrategy sc (cdiv1.CloneStrategy (cdiv1.Spec p));
           cdiv1.StatusClaimPropertySets :=
             if decide (0 < length (cdiv1.ClaimPropertySets (cdiv1.Spec p)))
             then cdiv1.ClaimPropertySets (cdiv1.Spec p)
             else reconcilePropertySets cl sc |}
    ∧ checkClaimPropertySets (cdiv1.ClaimPropertySets (cdiv1.Spec p)) = None.
Proof.
  unfold reconcileStorageProfile.
  destruct (getStorageProfile r cl sc) as [err|[sp prev]] eqn:Hget; [done|].
  set (claimSets := if decide (0 < length (cdiv1.ClaimPropertySets (cdiv1.Spec sp)))
                    then cdiv1.ClaimPropertySets (cdiv1.Spec sp)
                    else reconcilePropertySets cl sc).
  assert (Hvalid : (∃ err, checkClaimPropertySets (cdiv1.ClaimPropertySets (cdiv1.Spec sp)) = Some err
                           ∧ 0 < length (cdiv1.ClaimPropertySets (cdiv1.Spec sp)))
                   ∨ checkClaimPropertySets (cdiv1.ClaimPropertySets (cdiv1.Spec sp)) = None).
  { destruct (checkClaimPropertySets _) as [err|] eqn:Hc; [left|by right].
    exists err. split; [done|]. destruct (cdiv1.ClaimPropertySets _); simpl in *; [done|lia]. }
  destruct Hvalid as [(err & Hc & Hlen)|Hc].
  { rewrite decide_True, Hc by done. done. }
  assert (Hsets : (if decide (0 < length (cdiv1.ClaimPropertySets (cdiv1.Spec sp)))
                   then match checkClaimPropertySets (cdiv1.ClaimPropertySets (cdiv1.Spec sp)) with
                        | Some err => inl err
                        | None => inr (cdiv1.ClaimPropertySets (cdiv1.Spec sp))
                        end
                   else inr (reconcilePropertySets cl sc)) = inr claimSets).
  { unfold claimSets. destruct (decide _); [by rewrite Hc|done]. }
  rewrite Hsets. clear Hsets.
  set (sp' := cdiv1.withLabels _ _).
  assert (Hstatus : cdiv1.Status sp' =
            {| cdiv1.StorageClass := Some (storagev1.Name sc);
               cdiv1.Provisioner := Some (storagev1.Provisioner sc);
               cdiv1.StatusCloneStrategy :=
                 reconcileCloneStrategy sc (cdiv1.CloneStrategy (cdiv1.Spec sp'));
               cdiv1.StatusClaimPropertySets :=
                 if decide (0 < length (cdiv1.ClaimPropertySets (cdiv1.Spec sp')))
                 then cdiv1.ClaimPropertySets (cdiv1.Spec sp')
                 else reconcilePropertySets cl sc |}) by done.
  assert (Hspec : cdiv1.Spec sp' = cdiv1.Spec sp) by done.
  intros Hupdate.
  assert (Hstored : ∃ key, client.StorageProfiles cl' !! key = Some sp').
  { revert Hupdate. unfold updateStorageProfile. destruct prev as [prev|].
    - destruct (decide (prev = sp')) as [Heq|Hne].
      + intros [= <-]. exists (storagev1.Name sc).
        revert Hget. unfold getStorageProfile, client.GetStorageProfile.
        destruct (client.GetStorageProfile_err _) as [e|].
        { destruct (k8serrors.IsNotFound e); [|done].
          by destruct (createEmptyStorageProfile r sc). }
        destruct (client.StorageProfiles cl !! storagev1.Name sc) as [q|]; simpl.
        * intros [= <- <-]. by rewrite Heq.
        * by destruct (createEmptyStorageProfile r sc).
      + unfold client.Update. destruct (client.Update_err _); [done|].
        destruct (_ !! _); [|done]. intros [= <-]. exists (cdiv1.Name sp'). simpl.
        by rewrite lookup_insert_eq.
    - unfold client.Create. destruct (client.Create_err _); [done|].
      destruct (_ !! _); [done|]. intros [= <-]. exists (cdiv1.Name sp'). simpl.
      by rewrite lookup_insert_eq. }
  destruct Hstored as [key Hkey]. exists key, sp'.
  split_and!; [done|done|by rewrite Hspec].
Qed.

(** Where a successful [reconcileStorageProfile] leaves its result: the
    profile it read, or made when there was none, is in the store with its
    name and spec as they were, and the status computed from that spec and
    the class. *)
Lemma reconcileStorageProfile_stored (r : StorageProfileReconciler)
    (cl cl' : client.Client) (sc : storagev1.StorageClass) :
  reconcileStorageProfile r cl sc = (cl', None) →
  ∃ read prev key p,
    getStorageProfile r cl sc = inr (read, prev)
    ∧ (key = storagev1.Name sc ∨ key = cdiv1.Name read)
    ∧ client.StorageProfiles cl' !! key = Some p
    ∧ cdiv1.Name p = cdiv1.Name read
    ∧ cdiv1.Spec p = cdiv1.Spec read
    ∧ cdiv1.StorageClass (cdiv1.Status p) = Some (storagev1.Name sc)
    ∧ cdiv1.StatusCloneStrategy (cdiv1.Status p)
      = reconcileCloneStrategy sc (cdiv1.CloneStrategy (cdiv1.Spec read)).
Proof.
  unfold reconcileStorageProfile.
  destruct (getStorageProfile r cl sc) as [err|[sp prev]] eqn:Hget; [done|].
  cbv zeta.
  assert (Hstore : ∀ sp' : cdiv1.StorageProfile,
            cdiv1.Name sp' = cdiv1.Name sp →
            updateStorageProfile cl prev sp' = (cl', None) →
            ∃ key, (key = storagev1.Name sc ∨ key = cdiv1.Name sp)
                   ∧ client.StorageProfiles cl' !! key = Some sp').
  { intros sp' Hname. unfold updateStorageProfile. destruct prev as [prev|].
    - destruct (decide (prev = sp')) as [Heq|Hne].
      + intros [= <-]. exists (storagev1.Name sc). split; [by left|].
        revert Hget. unfold getStorageProfile, client.GetStorageProfile.
        destruct (client.GetStorageProfile_err _) as [e|].
        { destruct (k8serrors.IsNotFound e); [|done].
          by destruct (createEmptyStorageProfile r sc). }
        destruct (client.StorageProfiles cl !! storagev1.Name sc) as [q|]; simpl.
        * intros [= <- <-]. by rewrite Heq.
        * by destruct (createEmptyStorageProfile r sc).
      + unfold client.Update. destruct (client.Update_err _); [done|].
        destruct (_ !! _); [|done]. intros [= <-]. exists (cdiv1.Name sp').
        split; [by right|]. simpl. by rewrite lookup_insert_eq.
    - unfold client.Create. destruct (client.Create_err _); [done|].
      destruct (_ !! _); [done|]. intros [= <-]. exists (cdiv1.Name sp').
      split; [by right|]. simpl. by rewrite lookup_insert_eq. }
  destruct (decide (0 < length (cdiv1.ClaimPropertySets (cdiv1.Spec sp)))).
  - destruct (checkClaimPropertySets _); [done|].
    intros Hupdate. apply Hstore in Hupdate as (key & Hkey & Hlookup); [|done].
    exists sp, prev, key. eexists. split_and!; [done|done|exact Hlookup|done..].
  - intros Hupdate. apply Hstore in Hupdate as (key & Hkey & Hlookup); [|done].
    exists sp, prev, key. eexists. split_and!; [done|done|exact Hlookup|done..].
Qed.

(** The profile [getStorageProfile] hands over is the one the store holds
    under the name of the class, or the empty profile made for the class
    when the store has none. *)
Lemma getStorageProfile_read (r : StorageProfileReconciler) (cl : client.Client)
    (sc : storagev1.StorageClass) (read : cdiv1.StorageProfile)
    (prev : option cdiv1.StorageProfile) :
  getStorageProfile r cl sc = inr (read, prev) →
  match client.GetStorageProfile cl (storagev1.Name sc) with
  | inr stored => read = stored ∧ prev = Some stored
  | inl err =>
      k8serrors.IsNotFound err = true
      ∧ createEmptyStorageProfile r sc = inr read ∧ prev = None
  end.
Proof.
  unfold getStorageProfile.
  destruct (client.GetStorageProfile cl (storagev1.Name sc)) as [err|stored].
  - destruct (k8serrors.IsNotFound err); [|done].
    destruct (createEmptyStorageProfile r sc) as [err'|fresh]; [done|].
    by intros [= <- <-].
  - by intros [= <- <-].
Qed.

(** C10.  [reconcileCloneStrategy] returns a clone strategy of the spec
    unchanged; without one it reads the annotation
    "cdi.kubevirt.io/clone-strategy" of the class: "copy" gives
    HostAssisted, "snapshot" gives Snapshot, "csi-clone" gives CsiClone, and
    anything else, or no annotation, gives nil.  A successful
    [reconcileStorageProfile] applies it to the spec it read: the profile
    the store held under the name of the class, or the empty profile made
    for the class, is stored with that spec unchanged, under the name of
    the class or its own, and its status carries the strategy of the spec,
    or, when the spec has none, the one the annotation of the class
    names. *)
Theorem reconcileCloneStrategy_seeds_status
    (r : StorageProfileReconciler) (cl : client.Client) (sc : storagev1.StorageClass) :
  (∀ clonestrategy : option cdiv1.CDICloneStrategy,
     reconcileCloneStrategy sc clonestrategy =
       match clonestrategy with
       | Some strategy => Some strategy
       | None =>
           let annotation := storagev1.Annotations sc !! "cdi.kubevirt.io/clone-strategy" in
           if decide (annotation = Some "copy") then Some cdiv1.CloneStrategyHostAssisted
           else if decide (annotation = Some "snapshot") then Some cdiv1.CloneStrategySnapshot
           else if decide (annotation = Some "csi-clone") then Some cdiv1.CloneStrategyCsiClone
           else None
       end)
  ∧ (∀ cl', reconcileStorageProfile r cl sc = (cl', None) →
       ∃ read key p,
         match client.GetStorageProfile cl (storagev1.Name sc) with
         | inr stored => read = stored
         | inl err => createEmptyStorageProfile r sc = inr read
         end
         ∧ (key = storagev1.Name sc ∨ key = cdiv1.Name read)
         ∧ client.StorageProfiles cl' !! key = Some p
         ∧ cdiv1.Name p = cdiv1.Name read
         ∧ cdiv1.Spec p = cdiv1.Spec read
         ∧ cdiv1.StorageClass (cdiv1.Status p) = Some (storagev1.Name sc)
         ∧ cdiv1.StatusCloneStrategy (cdiv1.Status p)
           = reconcileCloneStrategy sc (cdiv1.CloneStrategy (cdiv1.Spec p))
         ∧ cdiv1.StatusCloneStrategy (cdiv1.Status p)
           = match cdiv1.CloneStrategy (cdiv1.Spec read) with
             | Some strategy => Some strategy
             | None =>
                 let annotation :=
                   storagev1.Annotations sc !! "cdi.kubevirt.io/clone-strategy" in
                 if decide (annotation = Some "copy")
                 then Some cdiv1.CloneStrategyHostAssisted
                 else if decide (annotation = Some "snapshot")
                 then Some cdiv1.CloneStrategySnapshot
                 else if decide (annotation = Some "csi-clone")
                 then Some cdiv1.CloneStrategyCsiClone
                 else None
             end).
Proof.
  assert (Htable : ∀ clonestrategy : option cdiv1.CDICloneStrategy,
     reconcileCloneStrategy sc clonestrategy =
       match clonestrategy with
       | Some strategy => Some strategy
       | None =>
           let annotation := storagev1.Annotations sc !! "cdi.kubevirt.io/clone-strategy" in
           if decide (annotation = Some "copy") then Some cdiv1.CloneStrategyHostAssisted
           else if decide (annotation = Some "snapshot") then Some cdiv1.CloneStrategySnapshot
           else if decide (annotation = Some "csi-clone") then Some cdiv1.CloneStrategyCsiClone
           else None
       end).
  { intros [strategy|]; simpl; [done|].
    set (a := golang.index _ _).
    assert (Hcopy : a = "copy" ↔ storagev1.Annotations sc !! "cdi.kubevirt.io/clone-strategy"
                                   = Some "copy") by (by apply index_eq_nonempty).
    assert (Hsnap : a = "snapshot" ↔ storagev1.Annotations sc !! "cdi.kubevirt.io/clone-strategy"
                                       = Some "snapshot") by (by apply index_eq_nonempty).
    assert (Hcsi : a = "csi-clone" ↔ storagev1.Annotations sc !! "cdi.kubevirt.io/clone-strategy"
                                       = Some "csi-clone") by (by apply index_eq_nonempty).
    repeat (destruct (decide _)); tauto. }
  split; [exact Htable|].
  intros cl' Hok.
  destruct (reconcileStorageProfile_stored r cl cl' sc Hok)
    as (read & prev & key & p & Hget & Hkey & Hlookup & Hname & Hspec & Hclass & Hstrategy).
  apply getStorageProfile_read in Hget.
  exists read, key, p. split_and!; try done.
  - destruct (client.GetStorageProfile cl (storagev1.Name sc)); [by destruct Hget as (_ & ? & _)|].
    by destruct Hget.
  - by rewrite Hspec.
  - by rewrite Hstrategy, Htable.
Qed.

Lemma isIncomplete_loop_spec (sets : list cdiv1.ClaimPropertySet) :
  isIncomplete_loop sets = true ↔
  ∃ cps, cps ∈ sets ∧ (cdiv1.AccessModes cps = [] ∨ cdiv1.VolumeMode cps = None).
Proof.
  induction sets as [|cps sets IH]; simpl.
  - split; [done|]. intros (cps & Hin & _). by apply elem_of_nil in Hin.
  - destruct (decide (length (cdiv1.AccessModes cps) = 0)) as [Hlen|Hlen].
    + split; [|done]. intros _. exists cps. split; [apply list_elem_of_here|].
      left. by apply nil_length_inv.
    + destruct (cdiv1.VolumeMode cps) as [vm|] eqn:Hvm.
      * rewrite IH. split.
        -- intros (cps' & Hin & Hbad). exists cps'. split; [by apply list_elem_of_further|done].
        -- intros (cps' & [->|Hin]%elem_of_cons & Hbad); [|by exists cps'].
           destruct Hbad as [Hbad|Hbad]; [by rewrite Hbad in Hlen|congruence].
      * split; [|done]. intros _. exists cps. split; [apply list_elem_of_here|by right].
Qed.

(** [isIncomplete]: no set at all, or a set without access mode or without
    volume mode. *)
Lemma isIncomplete_spec (sets : list cdiv1.ClaimPropertySet) :
  isIncomplete sets = true ↔
  sets = [] ∨ ∃ cps, cps ∈ sets ∧ (cdiv1.AccessModes cps = [] ∨ cdiv1.VolumeMode cps = None).
Proof.
  unfold isIncomplete. destruct (decide (0 < length sets)) as [Hlen|Hlen].
  - rewrite isIncomplete_loop_spec. split; [by right|].
    intros [->|?]; [simpl in Hlen; lia|done].
  - split; [|done]. intros _. left. destruct sets; [done|simpl in Hlen; lia].
Qed.

(** The counting loop of [checkIncompleteProfiles]. *)
Lemma count_incomplete (items : list cdiv1.StorageProfile) (n : nat) :
  foldl (λ numIncomplete profile,
           if isIncomplete (cdiv1.StatusClaimPropertySets (cdiv1.Status profile))
           then S numIncomplete else numIncomplete) n items
  = n + length (filter (λ profile,
                  isIncomplete (cdiv1.StatusClaimPropertySets (cdiv1.Status profile)) = true)
                  items).
Proof.
  revert n. induction items as [|p items IH]; intros n; simpl; [lia|].
  rewrite IH, filter_cons.
  destruct (isIncomplete _) eqn:Hp.
  - rewrite decide_True by done. simpl. lia.
  - rewrite decide_False by done. lia.
Qed.

Lemma checkIncompleteProfiles_success (w w' : World) :
  checkIncompleteProfiles w = (w', None) →
  api w' = api w
  ∧ IncompleteProfileGauge w' =
      length (filter (λ profile,
                isIncomplete (cdiv1.StatusClaimPropertySets (cdiv1.Status profile)) = true)
                (map_to_list (client.StorageProfiles (api w))).*2).
Proof.
  unfold checkIncompleteProfiles, client.ListStorageProfiles.
  destruct (client.ListStorageProfiles_err _); [done|].
  intros [= <-]. simpl. by rewrite count_incomplete.
Qed.

Lemma deleteStorageProfile_success (w w' : World) (name : string) :
  deleteStorageProfile w name = (w', None) →
  IncompleteProfileGauge w' =
    length (filter (λ profile,
              isIncomplete (cdiv1.StatusClaimPropertySets (cdiv1.Status profile)) = true)
              (map_to_list (client.StorageProfiles (api w'))).*2).
Proof.
  unfold deleteStorageProfile. destruct (client.Delete _ _) as [cl err].
  destruct (IgnoreNotFound err); [done|].
  intros [Hapi Hgauge]%checkIncompleteProfiles_success. by rewrite Hapi.
Qed.

(** C2.  After a reconcile pass that returns no error, the gauge equals the
    number of stored profiles whose status property sets are incomplete; and
    a list of sets is incomplete exactly when it is empty or holds a set
    with no access mode or no volume mode. *)
Theorem Reconcile_sets_IncompleteProfileGauge
    (r : StorageProfileReconciler) (w w' : World) (req : string) :
  Reconcile r w req = (w', None) →
  IncompleteProfileGauge w' =
    length (filter (λ profile,
              isIncomplete (cdiv1.StatusClaimPropertySets (cdiv1.Status profile)) = true)
              (map_to_list (client.StorageProfiles (api w'))).*2)
  ∧ ∀ sets : list cdiv1.ClaimPropertySet,
      isIncomplete sets = true ↔
      sets = [] ∨ ∃ cps, cps ∈ sets
                         ∧ (cdiv1.AccessModes cps = [] ∨ cdiv1.VolumeMode cps = None).
Proof.
  intros Hok. split; [|apply isIncomplete_spec].
  revert Hok. unfold Reconcile.
  destruct (client.GetStorageClass (api w) req) as [err|storageClass].
  - destruct (k8serrors.IsNotFound err); [apply deleteStorageProfile_success|done].
  - destruct (storagev1.DeletionTimestamp storageClass); [apply deleteStorageProfile_success|].
    destruct (reconcileStorageProfile r (api w) storageClass) as [cl [err|]]; [done|].
    intros [Hapi Hgauge]%checkIncompleteProfiles_success. by rewrite Hapi.
Qed.

End storage_profile_reconciler.

Section storage_profile_reconciler_samples.
Import controller.

(** C5 at a stored profile whose only spec set is Block without an access
    mode. *)
Lemma reconcileStorageProfile_volume_mode_needs_access_mode_witness :
  let profile := samples.profileWithSpec
                   {| cdiv1.CloneStrategy := None;
                      cdiv1.ClaimPropertySets := [samples.blockWithoutAccessMode] |} in
  let cl := samples.clusterOf [samples.operatorLocalClass] [profile] [] in
  let sc := samples.operatorLocalClass in
  client.GetStorageProfile cl (storagev1.Name sc) = inr profile
  ∧ (∃ cps, cps ∈ cdiv1.ClaimPropertySets (cdiv1.Spec profile)
            ∧ is_Some (cdiv1.VolumeMode cps) ∧ cdiv1.AccessModes cps = [])
  ∧ ∃ cps volumeMode,
      cps ∈ cdiv1.ClaimPropertySets (cdiv1.Spec profile)
      ∧ cdiv1.VolumeMode cps = Some volumeMode ∧ cdiv1.AccessModes cps = []
      ∧ reconcileStorageProfile samples.reconciler cl sc
        = (cl, Some (golang.errorString
                       ("must provide access mode for volume mode: " +:+ volumeMode))).
Proof.
  intros profile cl sc.
  assert (Hget : client.GetStorageProfile cl (storagev1.Name sc) = inr profile) by reflexivity.
  assert (Hbad : ∃ cps, cps ∈ cdiv1.ClaimPropertySets (cdiv1.Spec profile)
                        ∧ is_Some (cdiv1.VolumeMode cps) ∧ cdiv1.AccessModes cps = []).
  { exists samples.blockWithoutAccessMode.
    split; [apply list_elem_of_here|]. split; [eexists; reflexivity|reflexivity]. }
  split; [exact Hget|]. split; [exact Hbad|].
  exact (reconcileStorageProfile_volume_mode_needs_access_mode
           samples.reconciler cl sc profile Hget Hbad).
Defined.

Example reconcileStorageProfile_block_without_access_mode :
  let profile := samples.profileWithSpec
                   {| cdiv1.CloneStrategy := None;
                      cdiv1.ClaimPropertySets := [samples.blockWithoutAccessMode] |} in
  let cl := samples.clusterOf [samples.operatorLocalClass] [profile] [] in
  reconcileStorageProfile samples.reconciler cl samples.operatorLocalClass
  = (cl, Some (golang.errorString "must provide access mode for volume mode: Block")).
Proof. vm_compute. reflexivity. Qed.

(** C10 at a class annotated "snapshot" that has no profile yet: the
    profile made for it is stored under the name of the class, with the
    empty spec and the status Snapshot. *)
Lemma reconcileCloneStrategy_seeds_status_witness :
  let sc := {| storagev1.Name := "fast"; storagev1.Labels := ∅;
               storagev1.Annotations := {[ "cdi.kubevirt.io/clone-strategy" := "snapshot" ]};
               storagev1.DeletionTimestamp := None;
               storagev1.Provisioner := "rbd.csi.ceph.com";
               storagev1.Parameters := ∅ |} in
  let cl := samples.clusterOf [sc] [] [] in
  let cl' := (reconcileStorageProfile samples.reconciler cl sc).1 in
  reconcileStorageProfile samples.reconciler cl sc = (cl', None)
  ∧ (cdiv1.StatusCloneStrategy ∘ cdiv1.Status) <$> (client.StorageProfiles cl' !! "fast")
    = Some (Some cdiv1.CloneStrategySnapshot)
  ∧ ∃ read key p,
      match client.GetStorageProfile cl (storagev1.Name sc) with
      | inr stored => read = stored
      | inl err => createEmptyStorageProfile samples.reconciler sc = inr read
      end
      ∧ (key = storagev1.Name sc ∨ key = cdiv1.Name read)
      ∧ client.StorageProfiles cl' !! key = Some p
      ∧ cdiv1.Name p = cdiv1.Name read
      ∧ cdiv1.Spec p = cdiv1.Spec read
      ∧ cdiv1.StorageClass (cdiv1.Status p) = Some (storagev1.Name sc)
      ∧ cdiv1.StatusCloneStrategy (cdiv1.Status p)
        = reconcileCloneStrategy sc (cdiv1.CloneStrategy (cdiv1.Spec p))
      ∧ cdiv1.StatusCloneStrategy (cdiv1.Status p)
        = match cdiv1.CloneStrategy (cdiv1.Spec read) with
          | Some strategy => Some strategy
          | None =>
              let annotation :=
                storagev1.Annotations sc !! "cdi.kubevirt.io/clone-strategy" in
              if decide (annotation = Some "copy")
              then Some cdiv1.CloneStrategyHostAssisted
              else if decide (annotation = Some "snapshot")
              then Some cdiv1.CloneStrategySnapshot
              else if decide (annotation = Some "csi-clone")
              then Some cdiv1.CloneStrategyCsiClone
              else None
          end.
Proof.
  intros sc cl cl'.
  assert (Hok : reconcileStorageProfile samples.reconciler cl sc = (cl', None))
    by (vm_compute; reflexivity).
  split; [exact Hok|]. split; [vm_compute; reflexivity|].
  exact (proj2 (reconcileCloneStrategy_seeds_status samples.reconciler cl sc) cl' Hok).
Defined.

(** A spec that names a clone strategy prevails over the annotation of the
    class. *)
Example reconcileStorageProfile_keeps_spec_strategy :
  let sc := {| storagev1.Name := "local"; storagev1.Labels := ∅;
               storagev1.Annotations := {[ "cdi.kubevirt.io/clone-strategy" := "snapshot" ]};
               storagev1.DeletionTimestamp := None;
               storagev1.Provisioner := "rbd.csi.ceph.com";
               storagev1.Parameters := ∅ |} in
  let profile := samples.profileWithSpec
                   {| cdiv1.CloneStrategy := Some cdiv1.CloneStrategyCsiClone;
                      cdiv1.ClaimPropertySets := [] |} in
  let cl' := (reconcileStorageProfile samples.reconciler
                (samples.clusterOf [sc] [profile] []) sc).1 in
  (λ p, (cdiv1.CloneStrategy (cdiv1.Spec p), cdiv1.StatusCloneStrategy (cdiv1.Status p)))
    <$> (client.StorageProfiles cl' !! "local")
  = Some (Some cdiv1.CloneStrategyCsiClone, Some cdiv1.CloneStrategyCsiClone).
Proof. vm_compute. reflexivity. Qed.

Example reconcileStorageProfile_seeds_snapshot :
  let sc := {| storagev1.Name := "fast"; storagev1.Labels := ∅;
               storagev1.Annotations := {[ "cdi.kubevirt.io/clone-strategy" := "snapshot" ]};
               storagev1.DeletionTimestamp := None;
               storagev1.Provisioner := "rbd.csi.ceph.com";
               storagev1.Parameters := ∅ |} in
  let cl' := (reconcileStorageProfile samples.reconciler
                (samples.clusterOf [sc] [] []) sc).1 in
  (cdiv1.StatusCloneStrategy ∘ cdiv1.Status) <$> (client.StorageProfiles cl' !! "fast")
  = Some (Some cdiv1.CloneStrategySnapshot).
Proof. vm_compute. reflexivity. Qed.

(** C2 at a cluster with one unlabelled no-provisioner class: the pass
    creates a profile without property sets, and the gauge counts it. *)
Lemma Reconcile_sets_IncompleteProfileGauge_witness :
  let w := {| api := samples.clusterOf [samples.plainLocalClass] [] [];
              IncompleteProfileGauge := 0 |} in
  let w' := (Reconcile samples.reconciler w "local").1 in
  Reconcile samples.reconciler w "local" = (w', None)
  ∧ IncompleteProfileGauge w' =
      length (filter (λ profile,
                isIncomplete (cdiv1.StatusClaimPropertySets (cdiv1.Status profile)) = true)
                (map_to_list (client.StorageProfiles (api w'))).*2)
  ∧ ∀ sets : list cdiv1.ClaimPropertySet,
      isIncomplete sets = true ↔
      sets = [] ∨ ∃ cps, cps ∈ sets
                         ∧ (cdiv1.AccessModes cps = [] ∨ cdiv1.VolumeMode cps = None).
Proof.
  intros w w'.
  assert (Hok : Reconcile samples.reconciler w "local" = (w', None))
    by (vm_compute; reflexivity).
  split; [exact Hok|].
  exact (Reconcile_sets_IncompleteProfileGauge samples.reconciler w w' "local" Hok).
Defined.

Example Reconcile_counts_one_incomplete_profile :
  IncompleteProfileGauge
    (Reconcile samples.reconciler
       {| api := samples.clusterOf [samples.plainLocalClass] [] []; IncompleteProfileGauge := 0 |}
       "local").1 = 1.
Proof. vm_compute. reflexivity. Qed.

End storage_profile_reconciler_samples.

(** ** Package webhooks: the DataVolume mutating webhook *)

Section mutating_webhook.
Import webhooks.
Context {consts : common.Constants} {imports : webhooks.Imports}.

(** The TTL step writes "true" under [AnnDeleteAfterCompletion] when the
    config has a TTL and the annotation is not "false", and changes nothing
    otherwise. *)
Lemma applyTTL_spec (config : CDIConfig) (dv : DataVolume) :
  applyTTL config dv =
    if decide (is_Some (DataVolumeTTLSeconds config)
               ∧ Annotations dv !! AnnDeleteAfterCompletion ≠ Some "false")
    then (withAnnotations dv (<[AnnDeleteAfterCompletion := "true"]> (Annotations dv)), true)
    else (dv, false).
Proof.
  unfold applyTTL.
  assert (Hidx : golang.index (Annotations dv) AnnDeleteAfterCompletion = "false"
                 ↔ Annotations dv !! AnnDeleteAfterCompletion = Some "false")
    by (by apply index_eq_nonempty).
  destruct (DataVolumeTTLSeconds config) as [ttl|].
  - destruct (decide (golang.index _ _ ≠ _)) as [Hne|Heq].
    + rewrite decide_True; [done|]. split; [by eexists|]. by rewrite <- Hidx.
    + rewrite decide_False; [done|]. intros [_ Hne]. apply Heq. by rewrite Hidx.
  - rewrite decide_False; [done|]. by intros [[? ?] _].
Qed.

(** With a PVC source, [Admit] answers before the access review only with
    an error or a plain allow, never with a patch. *)
Lemma Admit_prepare_early_with_pvc (wh : dataVolumeMutatingWebhook) (ar : AdmissionReview)
    (dv : DataVolume) (pvc : DataVolumeSourcePVC) (response : AdmissionResponse) :
  Unmarshal (Object_Raw (Request ar)) = inr dv →
  pvcSourceOf wh dv = inr (Some pvc) →
  Admit_prepare wh ar = inl response →
  response = allowedAdmissionResponse ∨ ∃ err, response = toAdmissionResponseError err.
Proof.
  intros Hdv Hpvc. unfold Admit_prepare.
  destruct (validateDataVolumeResource ar) as [err|]; [intros [= <-]; eauto|].
  rewrite Hdv, Hpvc.
  destruct (CDIConfigs_Get wh common.ConfigName) as [err|config]; [intros [= <-]; eauto|].
  destruct (applyTTL config dv) as [modifiedDataVolume modified].
  destruct (decide (Operation (Request ar) = Update)); [|done].
  destruct (Unmarshal (OldObject_Raw (Request ar))) as [err|old]; [intros [= <-]; eauto|].
  destruct (golang.found _ _); [intros [= <-]; eauto|done].
Qed.

(** The clone request [Admit] goes on with names the source PVC of the
    DataVolume. *)
Lemma Admit_prepare_request (wh : dataVolumeMutatingWebhook) (ar : AdmissionReview)
    (dv : DataVolume) (pvc : DataVolumeSourcePVC) (request : CloneRequest) :
  Unmarshal (Object_Raw (Request ar)) = inr dv →
  pvcSourceOf wh dv = inr (Some pvc) →
  Admit_prepare wh ar = inr request →
  dataVolume request = dv
  ∧ sourceName request = PVC_Name pvc
  ∧ sourceNamespace request =
      (if decide (PVC_Namespace pvc = "") then targetNamespace request else PVC_Namespace pvc).
Proof.
  intros Hdv Hpvc. unfold Admit_prepare.
  destruct (validateDataVolumeResource ar) as [err|]; [done|].
  rewrite Hdv, Hpvc.
  destruct (CDIConfigs_Get wh common.ConfigName) as [err|config]; [done|].
  destruct (applyTTL config dv) as [modifiedDataVolume modified].
  destruct (decide (Operation (Request ar) = Update)).
  - destruct (Unmarshal (OldObject_Raw (Request ar))) as [err|old]; [done|].
    destruct (golang.found _ _); [done|]. by intros [= <-].
  - by intros [= <-].
Qed.

(** The clone request [Admit] goes on with, in full: the decoded object, its
    TTL step, the target taken from the request where the object leaves it
    empty, and the source PVC in its own namespace or else the target's. *)
Lemma Admit_prepare_inr (wh : dataVolumeMutatingWebhook) (ar : AdmissionReview)
    (request : CloneRequest) :
  Admit_prepare wh ar = inr request →
  ∃ dv pvc config,
    Unmarshal (Object_Raw (Request ar)) = inr dv
    ∧ pvcSourceOf wh dv = inr (Some pvc)
    ∧ CDIConfigs_Get wh common.ConfigName = inr config
    ∧ dataVolume request = dv
    ∧ modifiedDataVolume request = (applyTTL config dv).1
    ∧ targetNamespace request
      = (if decide (Namespace dv = "") then Request_Namespace (Request ar) else Namespace dv)
    ∧ targetName request
      = (if decide (Name dv = "") then Request_Name (Request ar) else Name dv)
    ∧ sourceName request = PVC_Name pvc
    ∧ sourceNamespace request
      = (if decide (PVC_Namespace pvc = "") then targetNamespace request
         else PVC_Namespace pvc)
    ∧ (Operation (Request ar) = Update →
         ∃ old, Unmarshal (OldObject_Raw (Request ar)) = inr old
                ∧ Annotations old !! AnnCloneToken = None).
Proof.
  unfold Admit_prepare.
  destruct (validateDataVolumeResource ar) as [err|]; [done|].
  destruct (Unmarshal (Object_Raw (Request ar))) as [err|dv]; [done|].
  destruct (pvcSourceOf wh dv) as [err|[pvc|]] eqn:Hpvc; [done| |].
  - destruct (CDIConfigs_Get wh common.ConfigName) as [err|config]; [done|].
    destruct (applyTTL config dv) as [modifiedDataVolume modified] eqn:Httl.
    destruct (decide (Operation (Request ar) = Update)) as [Hop|Hop].
    + destruct (Unmarshal (OldObject_Raw (Request ar))) as [err|old]; [done|].
      unfold golang.found. destruct (bool_decide _) eqn:Hfound; [done|].
      intros [= <-]. exists dv, pvc, config. simpl. rewrite Httl.
      split_and!; try done.
      intros _. exists old. split; [done|].
      apply bool_decide_eq_false in Hfound. by apply eq_None_not_Some.
    + intros [= <-]. exists dv, pvc, config. simpl. rewrite Httl.
      split_and!; done.
  - destruct (CDIConfigs_Get wh common.ConfigName) as [err|config]; [done|].
    destruct (applyTTL config dv) as [modifiedDataVolume [|]]; done.
Qed.

(** C4.  For a DataVolume with a PVC clone source the access review is made
    on the source PVC: [clone.CanUserClonePVC] is asked for the PVC of that
    name, in the namespace of the source, or the target's when the source
    names none, for a clone into the target namespace, the DataVolume's or
    else the request's, on behalf of the user of the request.  Whenever
    [Admit] answers with a patch, that review has authorized the user, and
    the patched DataVolume carries the generated token; and whenever that
    review denies, the answer is the rejection whose cause names
    spec.source.PVC.namespace, which carries no DataVolume and so no
    token. *)
Theorem Admit_clone_token_requires_authorization
    (wh : dataVolumeMutatingWebhook) (ar : AdmissionReview)
    (dv : DataVolume) (pvc : DataVolumeSourcePVC) :
  Unmarshal (Object_Raw (Request ar)) = inr dv →
  pvcSourceOf wh dv = inr (Some pvc) →
  let reviewedTarget :=
    if decide (Namespace dv = "") then Request_Namespace (Request ar) else Namespace dv in
  let reviewedSource :=
    if decide (PVC_Namespace pvc = "") then reviewedTarget else PVC_Namespace pvc in
  (∀ original modified,
     Admit wh ar = toPatchResponse original modified →
     ∃ request reason token,
       Admit_prepare wh ar = inr request
       ∧ sourceName request = PVC_Name pvc
       ∧ CanUserClonePVC wh (sourceNamespace request) (sourceName request)
           (targetNamespace request) (Request_UserInfo (Request ar)) = (true, reason, None)
       ∧ CanUserClonePVC wh reviewedSource (PVC_Name pvc) reviewedTarget
           (Request_UserInfo (Request ar)) = (true, reason, None)
       ∧ original = dv
       ∧ Annotations modified !! AnnCloneToken = Some token)
  ∧ (∀ request,
       Admit_prepare wh ar = inr request →
       sourceName request = PVC_Name pvc
       ∧ sourceNamespace request = reviewedSource
       ∧ targetNamespace request = reviewedTarget)
  ∧ (∀ request reason,
       Admit_prepare wh ar = inr request →
       CanUserClonePVC wh (sourceNamespace request) (sourceName request)
         (targetNamespace request) (Request_UserInfo (Request ar)) = (false, reason, None) →
       Admit wh ar =
         toRejectedAdmissionResponse
           [ {| Type_ := "FieldValueInvalid"; Message := reason;
                Field := "spec.source.PVC.namespace" |} ])
  ∧ (∀ request reason,
       Admit_prepare wh ar = inr request →
       CanUserClonePVC wh reviewedSource (PVC_Name pvc) reviewedTarget
         (Request_UserInfo (Request ar)) = (false, reason, None) →
       Admit wh ar =
         toRejectedAdmissionResponse
           [ {| Type_ := "FieldValueInvalid"; Message := reason;
                Field := "spec.source.PVC.namespace" |} ]).
Proof.
  intros Hdv Hpvc reviewedTarget reviewedSource.
  assert (Hargs : ∀ request,
            Admit_prepare wh ar = inr request →
            sourceName request = PVC_Name pvc
            ∧ sourceNamespace request = reviewedSource
            ∧ targetNamespace request = reviewedTarget).
  { intros request Hprepare.
    apply Admit_prepare_inr in Hprepare
      as (dv' & pvc' & config & Hdv' & Hpvc' & _ & _ & _ & Htns & _ & Hsn & Hsns & _).
    rewrite Hdv in Hdv'. injection Hdv' as <-.
    rewrite Hpvc in Hpvc'. injection Hpvc' as <-.
    split_and!; [done| |done]. by rewrite Hsns, Htns. }
  assert (Hdeny : ∀ request reason,
            Admit_prepare wh ar = inr request →
            CanUserClonePVC wh (sourceNamespace request) (sourceName request)
              (targetNamespace request) (Request_UserInfo (Request ar)) = (false, reason, None) →
            Admit wh ar =
              toRejectedAdmissionResponse
                [ {| Type_ := "FieldValueInvalid"; Message := reason;
                     Field := "spec.source.PVC.namespace" |} ]).
  { intros request reason Hprepare Hcheck. unfold Admit, Admit_clone.
    by rewrite Hprepare, Hcheck. }
  split_and!.
  - intros original modified. unfold Admit.
    destruct (Admit_prepare wh ar) as [response|request] eqn:Hprepare.
    + intros ->.
      by destruct (Admit_prepare_early_with_pvc wh ar dv pvc _ Hdv Hpvc Hprepare) as [?|[? ?]].
    + destruct (Admit_prepare_request wh ar dv pvc request Hdv Hpvc Hprepare)
        as (Hrdv & Hname & _).
      destruct (Hargs request eq_refl) as (_ & Hsns & Htns).
      unfold Admit_clone.
      destruct (CanUserClonePVC wh _ _ _ _) as [[[|] reason] [err|]] eqn:Hcheck; try done.
      destruct (tokenGenerator_Generate wh _) as [err|token]; [done|].
      intros [= <- <-]. exists request, reason, token.
      split_and!; [done|done|done| |done|].
      * by rewrite <- Hsns, <- Htns, <- Hname.
      * simpl. by rewrite lookup_insert_eq.
  - exact Hargs.
  - exact Hdeny.
  - intros request reason Hprepare Hcheck. apply (Hdeny request reason Hprepare).
    destruct (Hargs request Hprepare) as (-> & -> & ->). exact Hcheck.
Qed.

(** Every patch [Admit] answers with follows the TTL rule: the patched
    DataVolume has the annotation the TTL step gives it. *)
Lemma Admit_patch_follows_TTL (wh : dataVolumeMutatingWebhook) (ar : AdmissionReview)
    (original modified : DataVolume) :
  AnnCloneToken ≠ AnnDeleteAfterCompletion →
  Admit wh ar = toPatchResponse original modified →
  ∃ config,
    CDIConfigs_Get wh common.ConfigName = inr config
    ∧ Annotations modified !! AnnDeleteAfterCompletion
      = Annotations (applyTTL config original).1 !! AnnDeleteAfterCompletion.
Proof.
  intros Hkeys. unfold Admit, Admit_prepare.
  destruct (validateDataVolumeResource ar) as [err|]; [done|].
  destruct (Unmarshal (Object_Raw (Request ar))) as [err|dv]; [done|].
  destruct (pvcSourceOf wh dv) as [err|pvcSource]; [done|].
  destruct (CDIConfigs_Get wh common.ConfigName) as [err|config]; [done|].
  destruct (applyTTL config dv) as [modifiedDataVolume modified'] eqn:Httl.
  assert (Hclone : ∀ request,
            dataVolume request = dv → webhooks.modifiedDataVolume request = modifiedDataVolume →
            Admit_clone wh ar request = toPatchResponse original modified →
            ∃ config0, @inr golang.error CDIConfig config = inr config0
              ∧ Annotations modified !! AnnDeleteAfterCompletion
                = Annotations (applyTTL config0 original).1 !! AnnDeleteAfterCompletion).
  { intros request Hrdv Hrmod. unfold Admit_clone.
    destruct (CanUserClonePVC wh _ _ _ _) as [[[|] reason] [err|]]; try done.
    destruct (tokenGenerator_Generate wh _) as [err|token]; [done|].
    intros [= <- <-]. exists config. split; [done|].
    rewrite Hrdv, Httl, Hrmod. simpl. by rewrite lookup_insert_ne. }
  destruct pvcSource as [pvc|].
  - destruct (decide (Operation (Request ar) = Update)).
    + destruct (Unmarshal (OldObject_Raw (Request ar))) as [err|old]; [done|].
      destruct (golang.found _ _); [done|]. by apply Hclone.
    + by apply Hclone.
  - destruct modified'; [|done]. intros [= <- <-]. exists config. by rewrite Httl.
Qed.

(** A DataVolume that is not a clone gets the TTL patch, or a plain
    allow. *)
Lemma Admit_not_cloning (wh : dataVolumeMutatingWebhook) (ar : AdmissionReview)
    (dv : DataVolume) (config : CDIConfig) :
  validateDataVolumeResource ar = None →
  Unmarshal (Object_Raw (Request ar)) = inr dv →
  pvcSourceOf wh dv = inr None →
  CDIConfigs_Get wh common.ConfigName = inr config →
  Admit wh ar =
    if decide (is_Some (DataVolumeTTLSeconds config)
               ∧ Annotations dv !! AnnDeleteAfterCompletion ≠ Some "false")
    then toPatchResponse dv
           (withAnnotations dv (<[AnnDeleteAfterCompletion := "true"]> (Annotations dv)))
    else allowedAdmissionResponse.
Proof.
  intros Hvalid Hdv Hpvc Hconfig. unfold Admit, Admit_prepare.
  rewrite Hvalid, Hdv, Hpvc, Hconfig, applyTTL_spec. by destruct (decide _).
Qed.

(** An update of a clone DataVolume whose old object carries the clone
    token is allowed as it is, whatever the TTL step has prepared. *)
Lemma Admit_update_with_token (wh : dataVolumeMutatingWebhook) (ar : AdmissionReview)
    (dv old : DataVolume) (pvc : DataVolumeSourcePVC) (config : CDIConfig) :
  validateDataVolumeResource ar = None →
  Unmarshal (Object_Raw (Request ar)) = inr dv →
  pvcSourceOf wh dv = inr (Some pvc) →
  CDIConfigs_Get wh common.ConfigName = inr config →
  Operation (Request ar) = Update →
  Unmarshal (OldObject_Raw (Request ar)) = inr old →
  is_Some (Annotations old !! AnnCloneToken) →
  Admit wh ar = allowedAdmissionResponse.
Proof.
  intros Hvalid Hdv Hpvc Hconfig Hop Hold Htoken. unfold Admit, Admit_prepare.
  rewrite Hvalid, Hdv, Hpvc, Hconfig. destruct (applyTTL config dv).
  rewrite decide_True by done. rewrite Hold. unfold golang.found.
  by rewrite bool_decide_true.
Qed.

End mutating_webhook.

Section mutating_webhook_samples.
Import webhooks.

(** C4 at a create request for a clone DataVolume: the review is made for
    the PVC "golden" of namespace "source-ns" and a clone into "target-ns";
    a webhook whose access review denies rejects it, and the patch of a
    webhook whose access review grants carries the token. *)
Lemma Admit_clone_token_requires_authorization_witness :
  let ar := samples.review "CREATE" "clone-dv" "" in
  let dv := samples.cloneDataVolume ∅ in
  let pvc := {| PVC_Namespace := "source-ns"; PVC_Name := "golden" |} in
  let request :=
    {| dataVolume := dv; modifiedDataVolume := dv;
       sourceNamespace := "source-ns"; sourceName := "golden";
       targetNamespace := "target-ns"; targetName := "clone-dv" |} in
  Unmarshal (Object_Raw (Request ar)) = inr dv
  ∧ pvcSourceOf (samples.webhook None false) dv = inr (Some pvc)
  ∧ Admit_prepare (samples.webhook None false) ar = inr request
  ∧ CanUserClonePVC (samples.webhook None false) "source-ns" "golden" "target-ns" "alice"
    = (false, "user may not clone the source", None)
  ∧ Admit (samples.webhook None false) ar =
      toRejectedAdmissionResponse
        [ {| Type_ := "FieldValueInvalid"; Message := "user may not clone the source";
             Field := "spec.source.PVC.namespace" |} ]
  ∧ Admit (samples.webhook None true) ar
    = toPatchResponse dv (samples.cloneDataVolume {[ AnnCloneToken := "signed" ]})
  ∧ ∃ request' reason token,
      Admit_prepare (samples.webhook None true) ar = inr request'
      ∧ sourceName request' = PVC_Name pvc
      ∧ CanUserClonePVC (samples.webhook None true) (sourceNamespace request')
          (sourceName request') (targetNamespace request') (Request_UserInfo (Request ar))
        = (true, reason, None)
      ∧ CanUserClonePVC (samples.webhook None true) "source-ns" "golden" "target-ns" "alice"
        = (true, reason, None)
      ∧ dv = dv
      ∧ Annotations (samples.cloneDataVolume {[ AnnCloneToken := "signed" ]}) !! AnnCloneToken
        = Some token.
Proof.
  intros ar dv pvc request.
  assert (Hdv : Unmarshal (Object_Raw (Request ar)) = inr dv) by reflexivity.
  assert (Hdeny : pvcSourceOf (samples.webhook None false) dv = inr (Some pvc)) by reflexivity.
  assert (Hgrant : pvcSourceOf (samples.webhook None true) dv = inr (Some pvc)) by reflexivity.
  assert (Hprepare : Admit_prepare (samples.webhook None false) ar = inr request)
    by reflexivity.
  assert (Hcheck : CanUserClonePVC (samples.webhook None false) "source-ns" "golden"
                     "target-ns" "alice"
                   = (false, "user may not clone the source", None)) by reflexivity.
  assert (Hpatch : Admit (samples.webhook None true) ar
                   = toPatchResponse dv (samples.cloneDataVolume {[ AnnCloneToken := "signed" ]}))
    by (vm_compute; reflexivity).
  split_and!; [exact Hdv|exact Hdeny|exact Hprepare|exact Hcheck| |exact Hpatch|].
  - exact (proj2 (proj2 (proj2 (Admit_clone_token_requires_authorization
                                  (samples.webhook None false) ar dv pvc Hdv Hdeny)))
                 request "user may not clone the source" Hprepare Hcheck).
  - exact (proj1 (Admit_clone_token_requires_authorization
                    (samples.webhook None true) ar dv pvc Hdv Hgrant)
                 dv (samples.cloneDataVolume {[ AnnCloneToken := "signed" ]}) Hpatch).
Defined.

(** C3 fails on an update of a clone DataVolume whose old object already
    carries the clone token.  The CDIConfig has a TTL and the DataVolume has
    no deleteAfterCompletion annotation, yet [Admit] answers with a plain
    allow: the patch that would add deleteAfterCompletion=true is dropped.
    The same update of a DataVolume that is not a clone gets the patch. *)
Theorem Admit_update_with_token_drops_TTL_annotation :
  let wh := samples.webhook (Some 0%Z) true in
  CDIConfigs_Get wh common.ConfigName = inr {| DataVolumeTTLSeconds := Some 0%Z |}
  ∧ Unmarshal "clone-dv" = inr (samples.cloneDataVolume ∅)
  ∧ Annotations (samples.cloneDataVolume ∅) !! AnnDeleteAfterCompletion = None
  ∧ Admit wh (samples.review "UPDATE" "clone-dv" "clone-dv-with-token")
    = allowedAdmissionResponse
  ∧ Admit wh (samples.review "UPDATE" "blank-dv" "blank-dv")
    = toPatchResponse samples.blankDataVolume
        (withAnnotations samples.blankDataVolume {[ AnnDeleteAfterCompletion := "true" ]}).
Proof. vm_compute. split_and!; reflexivity. Qed.

(** On creation the clone DataVolume gets both annotations. *)
Example Admit_create_clone_with_TTL :
  Admit (samples.webhook (Some 0%Z) true) (samples.review "CREATE" "clone-dv" "")
  = toPatchResponse (samples.cloneDataVolume ∅)
      (samples.cloneDataVolume
         (<[ AnnCloneToken := "signed" ]> {[ AnnDeleteAfterCompletion := "true" ]})).
Proof. vm_compute. reflexivity. Qed.

End mutating_webhook_samples.

(** ** Package importer: the format readers *)

Section format_readers_close.
Import importer.

Lemma Close_loop_closed (rs : list reader) (i : nat) (rtnerr : option golang.error)
    (closed : list nat) :
  i ≤ length rs →
  (Close_loop rs i rtnerr closed).2 = closed ++ reverse (seq 0 i).
Proof.
  revert rtnerr closed. induction i as [|i IH]; intros rtnerr closed Hi.
  - simpl. by rewrite app_nil_r.
  - rewrite seq_S, reverse_snoc. simpl.
    destruct (lookup_lt_is_Some_2 rs i) as [r Hr]; [lia|]. rewrite Hr.
    rewrite IH by lia. by rewrite <- app_assoc.
Qed.

(** The error the loop returns: the one it started with when no reader
    below [i] fails to close, and otherwise the error of the lowest failing
    reader, the last one the downward walk meets. *)
Lemma Close_loop_error (rs : list reader) (i : nat) (rtnerr : option golang.error)
    (closed : list nat) :
  i ≤ length rs →
  ((Close_loop rs i rtnerr closed).1 = rtnerr
   ∧ ∀ j r, j < i → rs !! j = Some r → Reader_Close (rdr r) = None)
  ∨ ∃ k r e,
      k < i ∧ rs !! k = Some r ∧ Reader_Close (rdr r) = Some e
      ∧ (Close_loop rs i rtnerr closed).1 = Some e
      ∧ ∀ j r', j < k → rs !! j = Some r' → Reader_Close (rdr r') = None.
Proof.
  revert rtnerr closed. induction i as [|i IH]; intros rtnerr closed Hi; simpl.
  - left. split; [done|]. intros j r Hj. lia.
  - destruct (lookup_lt_is_Some_2 rs i) as [r Hr]; [lia|]. rewrite Hr.
    destruct (Reader_Close (rdr r)) as [e|] eqn:Hclose.
    + destruct (IH (Some e) (closed ++ [i])) as [[Hres Hnone]|(k & r' & e' & Hk & Hrest)]; [lia| |].
      * right. exists i, r, e. split_and!; [lia|done|done|done|done].
      * right. exists k, r', e'. split; [lia|done].
    + destruct (IH rtnerr (closed ++ [i])) as [[Hres Hnone]|(k & r' & e' & Hk & Hrest)]; [lia| |].
      * left. split; [done|]. intros j r' Hj Hr'.
        destruct (decide (j = i)) as [->|Hne]; [congruence|]. apply (Hnone j); [lia|done].
      * right. exists k, r', e'. split; [lia|done].
Qed.

(** C7.  [Close] calls the [Close] of every reader once, from the top of the
    stack down to the bottom, whatever the earlier calls returned.  It
    returns nil exactly when every call returned nil; otherwise it returns
    the error of the last failing call of the walk, the one of the lowest
    failing reader. *)
Theorem Close_walks_stack_in_reverse (fr : FormatReaders) :
  (Close fr).2 = reverse (seq 0 (length (readers fr)))
  ∧ ((Close fr).1 = None ↔ ∀ r, r ∈ readers fr → Reader_Close (rdr r) = None)
  ∧ ∀ e, (Close fr).1 = Some e →
      ∃ i r, readers fr !! i = Some r
             ∧ Reader_Close (rdr r) = Some e
             ∧ ∀ j r', j < i → readers fr !! j = Some r' → Reader_Close (rdr r') = None.
Proof.
  unfold Close. split_and!.
  - by rewrite Close_loop_closed.
  - destruct (Close_loop_error (readers fr) (length (readers fr)) None [])
      as [[Hres Hnone]|(k & r & e & Hk & Hr & Hclose & Hres & _)]; [done| |].
    + rewrite Hres. split; [|done]. intros _ r [j Hj]%list_elem_of_lookup.
      apply (Hnone j); [|done]. by apply lookup_lt_Some in Hj.
    + rewrite Hres. split; [done|]. intros Hall.
      rewrite (Hall r) in Hclose; [done|]. by apply list_elem_of_lookup_2 in Hr.
  - intros e He.
    destruct (Close_loop_error (readers fr) (length (readers fr)) None [])
      as [[Hres Hnone]|(k & r & e' & Hk & Hr & Hclose & Hres & Hbelow)]; [done| |].
    + congruence.
    + exists k, r. split_and!; [done| |done]. congruence.
Qed.

(** C7 at a stack whose two lower readers fail: all three are closed, top
    first, and the error is the one of the bottom reader. *)
Lemma Close_walks_stack_in_reverse_witness :
  Close samples.failingStack = (Some (golang.errorString "stream"), [2; 1; 0])
  ∧ (Close samples.failingStack).2 = reverse (seq 0 (length (readers samples.failingStack)))
  ∧ ((Close samples.failingStack).1 = None ↔
     ∀ r, r ∈ readers samples.failingStack → Reader_Close (rdr r) = None)
  ∧ ∀ e, (Close samples.failingStack).1 = Some e →
      ∃ i r, readers samples.failingStack !! i = Some r
             ∧ Reader_Close (rdr r) = Some e
             ∧ ∀ j r', j < i → readers samples.failingStack !! j = Some r' →
                 Reader_Close (rdr r') = None.
Proof.
  split; [reflexivity|]. exact (Close_walks_stack_in_reverse samples.failingStack).
Defined.

End format_readers_close.

Section header_detection.
Import importer.
Context {order : golang.MapRange} {decompressors : Decompressors}.

(** A match of [matchHeader] is an entry of the map whose header matches
    the buffer, and the map returned is the map without its key. *)
Lemma matchHeader_match (fr fr' : FormatReaders) (knownHdrs knownHdrs' : gmap string image.Header)
    (format : string) (kh : image.Header) :
  matchHeader fr knownHdrs = inr (fr', knownHdrs', Some (format, kh)) →
  knownHdrs !! format = Some kh
  ∧ image.Match kh (buf fr') = true
  ∧ knownHdrs' = delete format knownHdrs.
Proof.
  unfold matchHeader. destruct (read fr) as [err|fr1]; [done|].
  destruct (find _ _) as [[format' kh']|] eqn:Hfind; [|done].
  intros [= <- <- -> ->].
  apply find_some in Hfind as [Hin Hmatch].
  apply list_elem_of_In, elem_of_range in Hin. done.
Qed.

Lemma matchHeader_no_match (fr fr' : FormatReaders) (knownHdrs knownHdrs' : gmap string image.Header) :
  matchHeader fr knownHdrs = inr (fr', knownHdrs', None) → knownHdrs' = knownHdrs.
Proof.
  unfold matchHeader. destruct (read fr) as [err|fr1]; [done|].
  destruct (find _ _) as [[format' kh']|]; [done|]. by intros [= <- <-].
Qed.

(** A format that is not a key of the map cannot be matched. *)
Lemma matchHeader_absent (fr fr' : FormatReaders) (knownHdrs knownHdrs' : gmap string image.Header)
    (format : string) (entry : string * image.Header) :
  knownHdrs !! format = None →
  matchHeader fr knownHdrs = inr (fr', knownHdrs', Some entry) →
  entry.1 ≠ format.
Proof.
  intros Habsent Hmatch. destruct entry as [format' kh].
  apply matchHeader_match in Hmatch as [Hlookup _]. simpl. congruence.
Qed.

(** The loop ends within one iteration per known header and one more. *)
Lemma constructReaders_loop_terminates (fuel : nat) (fr : FormatReaders)
    (knownHdrs : gmap string image.Header) (log : list string) :
  size knownHdrs < fuel → is_Some (constructReaders_loop fuel fr knownHdrs log).
Proof.
  revert fr knownHdrs log. induction fuel as [|fuel IH]; intros fr knownHdrs log Hsize; [lia|].
  simpl. destruct (matchHeader fr knownHdrs) as [err|[[fr' knownHdrs'] [[format kh]|]]] eqn:Hm;
    [by eexists| |by eexists].
  destruct (decide (image.Format kh = "qcow2")); [by eexists|].
  apply IH. apply matchHeader_match in Hm as (Hlookup & _ & ->).
  rewrite map_size_delete_Some by (by eexists).
  assert (size knownHdrs ≠ 0); [|lia].
  apply map_size_ne_0_lookup. by exists format, kh.
Qed.

(** What the loop keeps true: the keys matched so far are distinct and are
    no longer keys of the map. *)
Lemma constructReaders_loop_invariant (fuel : nat) (fr : FormatReaders)
    (knownHdrs : gmap string image.Header) (log : list string) (d : Detection) :
  constructReaders_loop fuel fr knownHdrs log = Some d →
  NoDup log → (∀ k, k ∈ log → knownHdrs !! k = None) →
  NoDup (matched d)
  ∧ (∀ k, k ∈ matched d → remaining d !! k = None)
  ∧ remaining d ⊆ knownHdrs
  ∧ ∃ new, matched d = log ++ new
           ∧ (∀ k, k ∈ new → is_Some (knownHdrs !! k))
           ∧ remaining d = foldr delete knownHdrs new.
Proof.
  revert fr knownHdrs log. induction fuel as [|fuel IH]; intros fr knownHdrs log; [done|].
  simpl. destruct (matchHeader fr knownHdrs) as [err|[[fr' knownHdrs'] [[format kh]|]]] eqn:Hm.
  - intros [= <-] Hnodup Hgone. simpl. split_and!; [done..|].
    exists []. rewrite app_nil_r. split_and!; [done| |done]. intros k Hk. by apply elem_of_nil in Hk.
  - apply matchHeader_match in Hm as (Hlookup & _ & ->).
    intros Hd Hnodup Hgone.
    assert (Hnodup' : NoDup (log ++ [format])).
    { apply NoDup_app. split_and!; [done| |apply NoDup_singleton].
      intros k Hk Heq%list_elem_of_singleton. subst k. apply Hgone in Hk. congruence. }
    assert (Hgone' : ∀ k, k ∈ log ++ [format] → delete format knownHdrs !! k = None).
    { intros k [Hk|Hk%list_elem_of_singleton]%elem_of_app.
      - apply lookup_delete_None. right. by apply Hgone.
      - subst k. apply lookup_delete_eq. }
    assert (Hstop : d = {| state := fileFormatSelector fr' kh;
                           remaining := delete format knownHdrs;
                           matched := log ++ [format]; result := None |} →
            NoDup (matched d)
            ∧ (∀ k, k ∈ matched d → remaining d !! k = None)
            ∧ remaining d ⊆ knownHdrs
            ∧ ∃ new, matched d = log ++ new
                     ∧ (∀ k, k ∈ new → is_Some (knownHdrs !! k))
                     ∧ remaining d = foldr delete knownHdrs new).
    { intros ->. simpl. split_and!; [done|done|apply delete_subseteq|].
      exists [format]. split_and!; [done| |done].
      intros k Hk%list_elem_of_singleton. subst k. by eexists. }
    destruct (decide (image.Format kh = "qcow2")).
    + apply Hstop. congruence.
    + destruct (IH _ _ _ Hd Hnodup' Hgone') as (Hn & Hrem & Hsub & new & Hnew & Hkeys & Hfold).
      split_and!; [done|done| |].
      * etrans; [exact Hsub|apply delete_subseteq].
      * exists (format :: new). rewrite Hnew, <- app_assoc. split_and!; [done| |].
        -- intros k [Hk|Hk]%elem_of_cons; [subst k; by eexists|].
           destruct (Hkeys k Hk) as [x Hx]. apply lookup_delete_Some in Hx as [_ Hx]. by eexists.
        -- rewrite Hfold. clear. induction new as [|k new IHnew]; simpl; [done|].
           rewrite IHnew. apply delete_delete.
  - apply matchHeader_no_match in Hm as ->.
    intros [= <-] Hnodup Hgone. simpl. split_and!; [done..|].
    exists []. rewrite app_nil_r. split_and!; [done| |done]. intros k Hk. by apply elem_of_nil in Hk.
Qed.

(** C6.  Header detection on one stream ends, and matches each known
    header format at most once: the keys it matched are distinct keys of the
    registry, none of them is left in the local copy of the map, and that
    copy is the registry without them.  Step by step: a match of
    [matchHeader] removes its key from the map, and no later call, on that
    map or on what is left of it, matches that key again. *)
Theorem constructReaders_matches_each_format_once `{registry : image.Registry}
    (fr : FormatReaders) (r : Reader) :
  (∃ d, constructReaders fr r = Some d
        ∧ NoDup (matched d)
        ∧ (∀ format, format ∈ matched d →
             is_Some (image.CopyKnownHdrs !! format) ∧ remaining d !! format = None)
        ∧ remaining d = foldr delete image.CopyKnownHdrs (matched d))
  ∧ ∀ fr1 fr1' knownHdrs knownHdrs' format kh,
      matchHeader fr1 knownHdrs = inr (fr1', knownHdrs', Some (format, kh)) →
      knownHdrs !! format = Some kh
      ∧ image.Match kh (buf fr1') = true
      ∧ knownHdrs' = delete format knownHdrs
      ∧ ∀ fr2 fr2' later later' entry,
          later ⊆ knownHdrs' →
          matchHeader fr2 later = inr (fr2', later', Some entry) →
          entry.1 ≠ format.
Proof.
  split.
  - unfold constructReaders.
    set (fr0 := appendReader fr (rdrTypM_index "stream") (Some r)).
    destruct (constructReaders_loop_terminates (S (size image.CopyKnownHdrs)) fr0
                image.CopyKnownHdrs []) as [d Hd]; [lia|].
    exists d. split; [done|].
    destruct (constructReaders_loop_invariant _ _ _ _ _ Hd)
      as (Hnodup & Hgone & _ & new & Hnew & Hkeys & Hfold).
    { constructor. }
    { intros k Hk. by apply elem_of_nil in Hk. }
    simpl in Hnew. subst new. split_and!; [done| |done].
    intros format Hin. split; [by apply Hkeys|by apply Hgone].
  - intros fr1 fr1' knownHdrs knownHdrs' format kh Hmatch.
    apply matchHeader_match in Hmatch as (Hlookup & Hm & ->).
    split_and!; [done..|].
    intros fr2 fr2' later later' entry Hsub. apply matchHeader_absent.
    eapply lookup_weaken_None; [|exact Hsub]. apply lookup_delete_eq.
Qed.

End header_detection.

Section header_detection_samples.
Import importer.

(** C6 at a gzip stream that holds a qcow2 image: gz matches, then qcow2,
    and both keys have left the map. *)
Lemma constructReaders_matches_each_format_once_witness :
  (option_map matched (constructReaders samples.noReaders samples.gzippedQcow2)
   = Some ["gz"; "qcow2"])
  ∧ ∃ d, constructReaders samples.noReaders samples.gzippedQcow2 = Some d
         ∧ NoDup (matched d)
         ∧ (∀ format, format ∈ matched d →
              is_Some (image.CopyKnownHdrs !! format) ∧ remaining d !! format = None)
         ∧ remaining d = foldr delete image.CopyKnownHdrs (matched d).
Proof.
  split; [vm_compute; reflexivity|].
  exact (proj1 (constructReaders_matches_each_format_once
                  samples.noReaders samples.gzippedQcow2)).
Defined.

(** A vmdk header is found once: the second pass over the same header
    bytes finds its key gone and ends the loop. *)
Example constructReaders_vmdk :
  (λ d, (matched d, dom (remaining d), Convert (state d), length (readers (state d)), result d))
    <$> constructReaders samples.noReaders samples.vmdkImage
  = Some (["vmdk"], {[ "gz"; "qcow2" ]}, true, 3, None).
Proof. vm_compute. reflexivity. Qed.

Example constructReaders_gzipped_qcow2 :
  (λ d, (Convert (state d), Archived (state d), ArchiveGz (state d),
         rdrType <$> readers (state d), result d))
    <$> constructReaders samples.noReaders samples.gzippedQcow2
  = Some (true, true, true, [rdrStream; rdrMulti; rdrGz; rdrMulti], None).
Proof. vm_compute. reflexivity. Qed.

End header_detection_samples.

(* ===================================================================== *)
(** * Part III: further properties of the code                             *)
(* ===================================================================== *)

(** ** Package util: rounding, labels, the pod namespace *)

Section util_rounding.
Import util.

Lemma int64_small (z : Z) : (- 2 ^ 63 ≤ z < 2 ^ 63)%Z → int64 z = z.
Proof. intros Hz. unfold int64. rewrite Z.mod_small; lia. Qed.

(** X1.  For a positive multiple, [RoundDown] returns a multiple of it that
    lies less than one multiple away from the number, on the side of zero:
    numbers that are not negative are rounded down, negative numbers are
    rounded up. *)
Theorem RoundDown_toward_zero (number multiple : Z) :
  (- 2 ^ 63 ≤ number < 2 ^ 63)%Z → (0 < multiple < 2 ^ 63)%Z →
  ∃ r, RoundDown number multiple = Some r
       ∧ (multiple | r)%Z
       ∧ (Z.abs (number - r) < multiple)%Z
       ∧ (0 ≤ number → 0 ≤ r ≤ number)%Z
       ∧ (number ≤ 0 → number ≤ r ≤ 0)%Z.
Proof.
  intros Hn Hm. unfold RoundDown. rewrite decide_False by lia.
  pose proof (Z.quot_rem' number multiple) as Hqr.
  set (q := (number `quot` multiple)%Z) in *. set (t := (number `rem` multiple)%Z) in *.
  assert (Hsign : ((0 ≤ number ∧ 0 ≤ t < multiple) ∨ (number ≤ 0 ∧ - multiple < t ≤ 0))%Z).
  { destruct (Z.le_ge_cases 0 number) as [Hpos|Hneg].
    - left. split; [done|]. apply Z.rem_bound_pos; lia.
    - right. split; [done|]. apply Z.rem_bound_pos_neg; lia. }
  assert (Hq : (- 2 ^ 63 ≤ q < 2 ^ 63)%Z) by nia.
  rewrite (int64_small q Hq).
  assert (Hr : (- 2 ^ 63 ≤ q * multiple < 2 ^ 63)%Z) by nia.
  rewrite (int64_small _ Hr).
  eexists. split; [done|]. split_and!.
  - by exists q.
  - clearbody q t. destruct Hsign as [[? ?]|[? ?]]; lia.
  - intros Hpos. pose proof (Z.quot_pos number multiple Hpos (proj1 Hm)) as Hq0.
    pose proof (Z.rem_bound_pos number multiple Hpos (proj1 Hm)) as Ht.
    fold q in Hq0. fold t in Ht. clearbody q t.
    split; [apply Z.mul_nonneg_nonneg; lia|lia].
  - intros Hneg. pose proof (Z.quot_le_mono number 0 multiple (proj1 Hm) Hneg) as Hle.
    pose proof (Z.rem_bound_pos_neg number multiple (proj1 Hm) Hneg) as Ht.
    rewrite Z.quot_0_l in Hle by lia. fold q in Hle. fold t in Ht. clearbody q t.
    split; [lia|apply Z.mul_nonpos_nonneg; lia].
Qed.

Lemma RoundDown_toward_zero_witness :
  (- 2 ^ 63 ≤ -5 < 2 ^ 63)%Z ∧ (0 < 4 < 2 ^ 63)%Z
  ∧ RoundDown (-5) 4 = Some (-4)%Z
  ∧ ∃ r, RoundDown (-5) 4 = Some r
         ∧ (4 | r)%Z
         ∧ (Z.abs (-5 - r) < 4)%Z
         ∧ (0 ≤ -5 → 0 ≤ r ≤ -5)%Z
         ∧ (-5 ≤ 0 → -5 ≤ r ≤ 0)%Z.
Proof.
  assert (Hn : (- 2 ^ 63 ≤ -5 < 2 ^ 63)%Z) by lia.
  assert (Hm : (0 < 4 < 2 ^ 63)%Z) by lia.
  split; [exact Hn|]. split; [exact Hm|]. split; [reflexivity|].
  exact (RoundDown_toward_zero (-5) 4 Hn Hm).
Defined.

Lemma ResolveVolumeMode_cases (volumeMode : option v1.PersistentVolumeMode) :
  ResolveVolumeMode volumeMode = v1.PersistentVolumeBlock
  ∨ ResolveVolumeMode volumeMode = v1.PersistentVolumeFilesystem.
Proof.
  unfold ResolveVolumeMode. destruct volumeMode as [vm|]; simpl; [|by right].
  destruct (decide (vm = v1.PersistentVolumeBlock)); [by left|by right].
Qed.

(** X2.  [ResolveVolumeMode] answers Block or Filesystem, Block exactly for
    the mode Block, and resolving its own answer changes nothing. *)
Theorem ResolveVolumeMode_total (volumeMode : option v1.PersistentVolumeMode) :
  (ResolveVolumeMode volumeMode = v1.PersistentVolumeBlock
   ∨ ResolveVolumeMode volumeMode = v1.PersistentVolumeFilesystem)
  ∧ (ResolveVolumeMode volumeMode = v1.PersistentVolumeBlock
     ↔ volumeMode = Some v1.PersistentVolumeBlock)
  ∧ ResolveVolumeMode (Some (ResolveVolumeMode volumeMode)) = ResolveVolumeMode volumeMode.
Proof.
  unfold ResolveVolumeMode. destruct volumeMode as [vm|]; simpl.
  - destruct (decide (vm = v1.PersistentVolumeBlock)) as [->|Hne].
    + split_and!; [by left|done|done].
    + split_and!; [by right| |done]. split; [done|]. by intros [= ->].
  - split_and!; [by right|done|done].
Qed.

End util_rounding.

Section util_labels.
Import util.
Context {order : golang.MapRange}.

(** A loop that inserts the selected entries of a list with distinct keys
    into a map. *)
Lemma foldl_insert_lookup (P : string → Prop) `{∀ k, Decision (P k)}
    (l : list (string * string)) (acc : gmap string string) (k : string) :
  NoDup l.*1 →
  foldl (λ m entry, if decide (P entry.1) then <[entry.1 := entry.2]> m else m) acc l !! k =
    match (list_to_map l : gmap string string) !! k with
    | Some v => if decide (P k) then Some v else acc !! k
    | None => acc !! k
    end.
Proof.
  revert acc. induction l as [|[k0 v0] l IH]; intros acc Hnodup; simpl; [done|].
  apply NoDup_cons in Hnodup as [Hk0 Hnodup]. rewrite IH by done.
  destruct (decide (k = k0)) as [->|Hne].
  - rewrite lookup_insert_eq. rewrite (not_elem_of_list_to_map_1 _ _ Hk0).
    destruct (decide (P k0)); [by rewrite lookup_insert_eq|done].
  - rewrite lookup_insert_ne by done.
    destruct (decide (P k0)); [by rewrite lookup_insert_ne|done].
Qed.

Lemma list_to_map_range (m : gmap string string) : list_to_map (golang.range m) = m.
Proof.
  unfold golang.range. rewrite (list_to_map_proper _ (map_to_list m)).
  - apply list_to_map_to_list.
  - rewrite golang.range_order_perm. apply NoDup_fst_map_to_list.
  - apply golang.range_order_perm.
Qed.

(** X3.  In whatever order the loop of [MergeLabels] visits the source, the
    result is the same map: a key of the source gets the value of the
    source, also when the destination had another value for it, and every
    other key keeps the value of the destination. *)
Theorem MergeLabels_source_wins (src dest : gmap string string) :
  MergeLabels_range src dest = MergeLabels src dest
  ∧ ∀ k, MergeLabels src dest !! k =
           match src !! k with
           | Some v => Some v
           | None => dest !! k
           end.
Proof.
  assert (Hlookup : ∀ k, MergeLabels src dest !! k =
                         match src !! k with Some v => Some v | None => dest !! k end).
  { intros k. unfold MergeLabels. destruct (src !! k) as [v|] eqn:Hk.
    - by apply lookup_union_Some_l.
    - by rewrite lookup_union_r. }
  split; [|done]. apply map_eq. intros k. rewrite Hlookup.
  unfold MergeLabels_range.
  etrans; [exact (foldl_insert_lookup (λ _, True) (golang.range src) dest k
                    (NoDup_range_keys src))|].
  rewrite list_to_map_range. by destruct (src !! k).
Qed.

Lemma SetRecommendedLabels_lookup `{consts : common.Constants}
    (objLabels installerLabels : gmap string string) (controllerName k : string) :
  SetRecommendedLabels objLabels installerLabels controllerName !! k =
    match installerLabels !! k with
    | Some v => Some v
    | None =>
        if decide (k = common.AppKubernetesManagedByLabel) then Some controllerName
        else if decide (k = common.AppKubernetesComponentLabel) then Some "storage"
        else objLabels !! k
    end.
Proof.
  unfold SetRecommendedLabels, MergeLabels.
  destruct (installerLabels !! k) as [v|] eqn:Hinst.
  - by apply lookup_union_Some_l.
  - rewrite lookup_union_r by done.
    destruct (decide (k = common.AppKubernetesManagedByLabel)) as [->|Hm].
    + apply lookup_union_Some_l. by rewrite lookup_insert_eq.
    + destruct (decide (k = common.AppKubernetesComponentLabel)) as [->|Hc].
      * apply lookup_union_Some_l. rewrite lookup_insert_ne by done. by rewrite lookup_insert_eq.
      * rewrite lookup_union_r; [done|]. by rewrite !lookup_insert_ne, lookup_empty.
Qed.

Lemma SetRecommendedLabels_twice `{consts : common.Constants}
    (objLabels installerLabels : gmap string string) (controllerName : string) :
  SetRecommendedLabels (SetRecommendedLabels objLabels installerLabels controllerName)
    installerLabels controllerName
  = SetRecommendedLabels objLabels installerLabels controllerName.
Proof.
  apply map_eq. intros k. rewrite !SetRecommendedLabels_lookup.
  destruct (installerLabels !! k); [done|]. by repeat (destruct (decide _)).
Qed.

(** X4.  The labels [SetRecommendedLabels] sets: an installer label wins,
    then managed-by is the controller name and component is "storage", and
    any other key keeps the label of the object.  No key of the object is
    lost, and setting the labels twice is setting them once. *)
Theorem SetRecommendedLabels_precedence `{consts : common.Constants}
    (objLabels installerLabels : gmap string string) (controllerName : string) :
  (∀ k, SetRecommendedLabels objLabels installerLabels controllerName !! k =
          match installerLabels !! k with
          | Some v => Some v
          | None =>
              if decide (k = common.AppKubernetesManagedByLabel) then Some controllerName
              else if decide (k = common.AppKubernetesComponentLabel) then Some "storage"
              else objLabels !! k
          end)
  ∧ dom objLabels ⊆ dom (SetRecommendedLabels objLabels installerLabels controllerName)
  ∧ SetRecommendedLabels (SetRecommendedLabels objLabels installerLabels controllerName)
      installerLabels controllerName
    = SetRecommendedLabels objLabels installerLabels controllerName.
Proof.
  split_and!.
  - intros k. apply SetRecommendedLabels_lookup.
  - intros k [v Hv]%elem_of_dom. apply elem_of_dom. rewrite SetRecommendedLabels_lookup.
    destruct (installerLabels !! k); [by eexists|].
    repeat (destruct (decide _); [by eexists|]). by eexists.
  - apply SetRecommendedLabels_twice.
Qed.

(** X5.  [GetRecommendedInstallerLabelsFromCr] returns exactly the labels
    of the custom resource under the part-of and version keys, whatever the
    order of the loop. *)
Theorem GetRecommendedInstallerLabelsFromCr_lookup `{keys : common.InstallerLabelKeys}
    (crLabels : gmap string string) (k : string) :
  GetRecommendedInstallerLabelsFromCr crLabels !! k =
    if decide (k = common.AppKubernetesPartOfLabel ∨ k = common.AppKubernetesVersionLabel)
    then crLabels !! k
    else None.
Proof.
  unfold GetRecommendedInstallerLabelsFromCr.
  etrans; [exact (foldl_insert_lookup
                    (λ k, k = common.AppKubernetesPartOfLabel
                          ∨ k = common.AppKubernetesVersionLabel)
                    (golang.range crLabels) ∅ k (NoDup_range_keys crLabels))|].
  rewrite list_to_map_range, lookup_empty.
  destruct (crLabels !! k); by destruct (decide _).
Qed.

End util_labels.

Section util_namespace.
Import util.

Lemma whiteSpace_width (space : list N) : space ∈ whiteSpace → 0 < length space.
Proof.
  intros Hin. apply list_elem_of_In in Hin. unfold whiteSpace, asciiSpace in Hin. simpl in Hin.
  repeat (destruct Hin as [<-|Hin]; [simpl; lia|]). destruct Hin.
Qed.

Lemma leadingSpace_Some b w : leadingSpace b = Some w → 0 < w ≤ length b ∧ ∃ space, space ∈ whiteSpace ∧ w = length space ∧ space `prefix_of` b.
Proof.
  unfold leadingSpace. destruct (find _ _) as [space|] eqn:Hf; [|done].
  intros [= <-]. apply find_some in Hf as [Hin Hp]. apply bool_decide_eq_true in Hp.
  apply list_elem_of_In in Hin. split; [|by exists space].
  split; [by apply whiteSpace_width|]. by apply prefix_length.
Qed.

Lemma leadingSpace_None b space : leadingSpace b = None → space ∈ whiteSpace → ¬ space `prefix_of` b.
Proof.
  unfold leadingSpace. destruct (find _ _) as [x|] eqn:Hf; [done|]. intros _ Hin Hp.
  apply list_elem_of_In in Hin.
  pose proof (find_none _ _ Hf _ Hin) as Hn. simpl in Hn.
  apply bool_decide_eq_false in Hn. done.
Qed.

Lemma trimLeft_done fuel b : length b ≤ fuel → leadingSpace (trimLeft fuel b) = None.
Proof.
  revert b. induction fuel as [|fuel IH]; intros b Hlen; simpl.
  - destruct b; [|simpl in Hlen; lia]. by destruct (leadingSpace []) eqn:H; [apply leadingSpace_Some in H as [[? ?] _]; simpl in *; lia|].
  - destruct (leadingSpace b) as [w|] eqn:Hw; [|done].
    apply leadingSpace_Some in Hw as [[? ?] _]. apply IH. rewrite length_drop. lia.
Qed.

Lemma trailingSpace_Some b w : trailingSpace b = Some w → 0 < w ≤ length b ∧ ∃ space, space ∈ whiteSpace ∧ w = length space ∧ space `suffix_of` b.
Proof.
  unfold trailingSpace. destruct (find _ _) as [space|] eqn:Hf; [|done].
  intros [= <-]. apply find_some in Hf as [Hin Hp]. apply bool_decide_eq_true in Hp.
  apply list_elem_of_In in Hin. split; [|by exists space].
  split; [by apply whiteSpace_width|]. by apply suffix_length.
Qed.

Lemma trailingSpace_None b space : trailingSpace b = None → space ∈ whiteSpace → ¬ space `suffix_of` b.
Proof.
  unfold trailingSpace. destruct (find _ _) as [x|] eqn:Hf; [done|]. intros _ Hin Hp.
  apply list_elem_of_In in Hin.
  pose proof (find_none _ _ Hf _ Hin) as Hn. simpl in Hn.
  apply bool_decide_eq_false in Hn. done.
Qed.

Lemma trimRight_done fuel b : length b ≤ fuel → trailingSpace (trimRight fuel b) = None.
Proof.
  revert b. induction fuel as [|fuel IH]; intros b Hlen; simpl.
  - destruct b; [|simpl in Hlen; lia].
    by destruct (trailingSpace []) eqn:H; [apply trailingSpace_Some in H as [[? ?] _]; simpl in *; lia|].
  - destruct (trailingSpace b) as [w|] eqn:Hw; [|done].
    apply trailingSpace_Some in Hw as [[? ?] _]. apply IH. rewrite length_take. lia.
Qed.

Lemma trimRight_prefix fuel b : trimRight fuel b `prefix_of` b.
Proof.
  revert b. induction fuel as [|fuel IH]; intros b; simpl; [done|].
  destruct (trailingSpace b) as [w|]; [|done].
  etrans; [apply IH|]. apply prefix_take.
Qed.

Lemma leadingSpace_prefix b b' : b' `prefix_of` b → leadingSpace b = None → leadingSpace b' = None.
Proof.
  intros Hp Hnone. destruct (leadingSpace b') as [w|] eqn:Hw; [|done].
  apply leadingSpace_Some in Hw as (_ & space & Hin & _ & Hsp).
  destruct (leadingSpace_None b space Hnone Hin). by etrans.
Qed.

Lemma asciiSpace_small c : c ∈ asciiSpace → (c < 0x80)%N.
Proof.
  intros Hin. apply list_elem_of_In in Hin. simpl in Hin.
  repeat (destruct Hin as [<-|Hin]; [done|]). destruct Hin.
Qed.

Lemma whiteSpace_cases space :
  space ∈ whiteSpace →
  (∃ c, c ∈ asciiSpace ∧ space = [c])
  ∨ (∃ h l, head space = Some h ∧ last space = Some l ∧ (0x80 ≤ h)%N ∧ (0x80 ≤ l)%N).
Proof.
  unfold whiteSpace. rewrite elem_of_app. intros [Hin|Hin].
  - left. apply list_elem_of_fmap in Hin as (c & -> & Hc). by exists c.
  - right. apply list_elem_of_In in Hin. simpl in Hin.
    repeat (destruct Hin as [<-|Hin]; [eexists _, _; split_and!; [reflexivity|reflexivity|done|done]|]).
    destruct Hin.
Qed.

Lemma whiteSpace_ascii c : c ∈ asciiSpace → [c] ∈ whiteSpace.
Proof.
  intros Hc. unfold whiteSpace. apply elem_of_app. left.
  apply list_elem_of_fmap. by exists c.
Qed.

Lemma leadingSpace_ascii c rest : c ∈ asciiSpace → leadingSpace (c :: rest) = Some 1.
Proof.
  intros Hc. destruct (leadingSpace (c :: rest)) as [w|] eqn:Hw.
  - apply leadingSpace_Some in Hw as (_ & space & Hin & -> & Hp).
    destruct (whiteSpace_cases space Hin) as [(c' & _ & ->)|(h & l & Hh & _ & Hge & _)]; [done|].
    destruct space as [|h' t]; [done|]. injection Hh as ->.
    apply prefix_cons_inv_1 in Hp. subst h. apply asciiSpace_small in Hc. lia.
  - destruct (leadingSpace_None _ [c] Hw (whiteSpace_ascii c Hc)).
    by apply prefix_cons, prefix_nil.
Qed.

Lemma leadingSpace_plain c rest : (c < 0x80)%N → c ∉ asciiSpace → leadingSpace (c :: rest) = None.
Proof.
  intros Hsmall Hc. destruct (leadingSpace (c :: rest)) as [w|] eqn:Hw; [|done].
  apply leadingSpace_Some in Hw as (_ & space & Hin & -> & Hp).
  destruct (whiteSpace_cases space Hin) as [(c' & Hc' & ->)|(h & l & Hh & _ & Hge & _)].
  - apply prefix_cons_inv_1 in Hp. by subst c'.
  - destruct space as [|h' t]; [done|]. injection Hh as ->.
    apply prefix_cons_inv_1 in Hp. subst h. lia.
Qed.

Lemma trailingSpace_ascii c b : c ∈ asciiSpace → trailingSpace (b ++ [c]) = Some 1.
Proof.
  intros Hc. destruct (trailingSpace (b ++ [c])) as [w|] eqn:Hw.
  - apply trailingSpace_Some in Hw as (_ & space & Hin & -> & Hp).
    destruct (whiteSpace_cases space Hin) as [(c' & _ & ->)|(h & l & _ & Hl & _ & Hge)]; [done|].
    apply last_Some in Hl as [t ->].
    apply suffix_snoc_inv_1 in Hp. subst l. apply asciiSpace_small in Hc. lia.
  - destruct (trailingSpace_None _ [c] Hw (whiteSpace_ascii c Hc)).
    by apply suffix_app_r.
Qed.

Lemma trailingSpace_plain c b : (c < 0x80)%N → c ∉ asciiSpace → trailingSpace (b ++ [c]) = None.
Proof.
  intros Hsmall Hc. destruct (trailingSpace (b ++ [c])) as [w|] eqn:Hw; [|done].
  apply trailingSpace_Some in Hw as (_ & space & Hin & -> & Hp).
  destruct (whiteSpace_cases space Hin) as [(c' & Hc' & ->)|(h & l & _ & Hl & _ & Hge)].
  - apply (suffix_snoc_inv_1 _ _ [] b) in Hp. by subst c'.
  - apply last_Some in Hl as [t ->].
    apply suffix_snoc_inv_1 in Hp. subst l. lia.
Qed.

Lemma leadingSpace_nil : leadingSpace [] = None.
Proof. reflexivity. Qed.
Lemma trailingSpace_nil : trailingSpace [] = None.
Proof. reflexivity. Qed.

(** Leading ASCII white space goes, up to a byte that is plain ASCII. *)
Lemma trimLeft_ascii fuel ws rest :
  Forall (.∈ asciiSpace) ws → length ws ≤ fuel → leadingSpace rest = None →
  trimLeft fuel (ws ++ rest) = rest.
Proof.
  intros Hws. revert fuel. induction Hws as [|c ws Hc _ IH]; intros fuel Hlen Hrest; simpl.
  - destruct fuel; simpl; [done|]. by rewrite Hrest.
  - destruct fuel as [|fuel]; [simpl in Hlen; lia|]. simpl.
    rewrite (leadingSpace_ascii c (ws ++ rest) Hc). simpl. rewrite drop_0.
    apply IH; [simpl in Hlen; lia|done].
Qed.

Lemma trimRight_ascii fuel ws rest :
  Forall (.∈ asciiSpace) ws → length ws ≤ fuel → trailingSpace rest = None →
  trimRight fuel (rest ++ ws) = rest.
Proof.
  revert fuel. induction ws as [|c ws IH] using rev_ind; intros fuel Hws Hlen Hrest.
  - rewrite app_nil_r. destruct fuel; simpl; [done|]. by rewrite Hrest.
  - apply Forall_app in Hws as [Hws Hc]. apply Forall_cons in Hc as [Hc _].
    rewrite length_app in Hlen. simpl in Hlen.
    destruct fuel as [|fuel]; [lia|]. simpl.
    rewrite (assoc_L (++)), (trailingSpace_ascii c (rest ++ ws) Hc).
    rewrite length_app. simpl. rewrite Nat.add_sub, take_app_length.
    apply IH; [done|lia|done].
Qed.

Lemma trimRight_nil fuel : trimRight fuel [] = [].
Proof. destruct fuel; reflexivity. Qed.

Lemma length_stringOf b : String.length (stringOf b) = length b.
Proof. unfold stringOf. induction b as [|c b IH]; simpl; [done|]. f_equal. exact IH. Qed.

Lemma length_bytesOf s : length (bytesOf s) = String.length s.
Proof. unfold bytesOf. induction s as [|c s IH]; simpl; [done|]. f_equal. exact IH. Qed.

(** The trimmed string is what stands between the leading and the trailing
    ASCII white space, when it starts and ends with plain ASCII. *)
Lemma TrimSpace_ascii (data : string) (ws1 core ws2 : list N) :
  bytesOf data = ws1 ++ core ++ ws2 →
  Forall (.∈ asciiSpace) ws1 → Forall (.∈ asciiSpace) ws2 →
  (∀ c, head core = Some c ∨ last core = Some c → (c < 0x80)%N ∧ c ∉ asciiSpace) →
  TrimSpace data = stringOf core.
Proof.
  intros Hdata Hws1 Hws2 Hcore. unfold TrimSpace. rewrite Hdata. f_equal.
  assert (Hlen : length ws1 ≤ length (ws1 ++ core ++ ws2) ∧ length ws2 ≤ length (ws1 ++ core ++ ws2))
    by (rewrite !length_app; lia).
  destruct Hlen as [Hlen1 Hlen2].
  assert (Htrail : trailingSpace core = None).
  { destruct (last core) as [c|] eqn:Hlast.
    - apply last_Some in Hlast as Hc. destruct Hc as [t ->].
      destruct (Hcore c) as [? ?]; [by right|]. by apply trailingSpace_plain.
    - apply last_None in Hlast. by subst core. }
  destruct core as [|c core'].
  - replace (ws1 ++ [] ++ ws2) with ((ws1 ++ ws2) ++ []) by (by rewrite app_nil_r).
    rewrite trimLeft_ascii; [|by apply Forall_app_2|by rewrite app_nil_r|done].
    apply trimRight_nil.
  - destruct (Hcore c) as [? ?]; [by left|].
    rewrite trimLeft_ascii; [|done|done|by apply leadingSpace_plain].
    by apply trimRight_ascii.
Qed.

(** The length of the bytes is fuel enough: what is left neither starts nor
    ends with white space. *)
Lemma trimLeft_length (fuel : nat) (b : list N) : length (trimLeft fuel b) ≤ length b.
Proof.
  revert b. induction fuel as [|fuel IH]; intros b; simpl; [done|].
  destruct (leadingSpace b) as [w|]; [|done].
  etrans; [apply IH|]. rewrite length_drop. lia.
Qed.

Lemma trimSpace_complete (b : list N) :
  leadingSpace (trimRight (length b) (trimLeft (length b) b)) = None
  ∧ trailingSpace (trimRight (length b) (trimLeft (length b) b)) = None.
Proof.
  split.
  - eapply leadingSpace_prefix; [apply trimRight_prefix|]. by apply trimLeft_done.
  - apply trimRight_done, trimLeft_length.
Qed.

(** X6.  [getNamespace] never returns the empty string.  It returns "cdi"
    when the file cannot be read and when its trimmed content is empty, and
    the trimmed content otherwise.  In particular, for a file that holds
    ASCII white space around a text that starts and ends with an ASCII
    character that is no white space, it returns that text, and for a file
    of ASCII white space only it returns "cdi". *)
Theorem getNamespace_not_empty `{os : OS} (path : string) :
  getNamespace path ≠ ""
  ∧ (∀ err, ReadFile path = inl err → getNamespace path = "cdi")
  ∧ (∀ data, ReadFile path = inr data →
       getNamespace path = if decide (TrimSpace data = "") then "cdi" else TrimSpace data)
  ∧ (∀ data ws1 core ws2,
       ReadFile path = inr data →
       bytesOf data = ws1 ++ core ++ ws2 →
       Forall (.∈ asciiSpace) ws1 → Forall (.∈ asciiSpace) ws2 →
       (∀ c, head core = Some c ∨ last core = Some c → (c < 0x80)%N ∧ c ∉ asciiSpace) →
       getNamespace path = if decide (core = []) then "cdi" else stringOf core).
Proof.
  assert (Hread : ∀ data, ReadFile path = inr data →
            getNamespace path
            = if decide (TrimSpace data = "") then "cdi" else TrimSpace data).
  { intros data Hdata. unfold getNamespace. rewrite Hdata. simpl.
    destruct (TrimSpace data) as [|c ns]; [done|].
    rewrite decide_True by (simpl; lia). by rewrite decide_False. }
  split_and!.
  - unfold getNamespace. destruct (ReadFile path) as [err|data]; [done|]. simpl.
    destruct (decide (0 < String.length (TrimSpace data))) as [Hlen|Hlen]; [|done].
    intros Heq. rewrite Heq in Hlen. simpl in Hlen. lia.
  - intros err Herr. unfold getNamespace. by rewrite Herr.
  - exact Hread.
  - intros data ws1 core ws2 Hdata Hbytes Hws1 Hws2 Hcore.
    rewrite (Hread data Hdata), (TrimSpace_ascii data ws1 core ws2 Hbytes Hws1 Hws2 Hcore).
    destruct core as [|c core]; [done|].
    rewrite decide_False, decide_False; [done|done|].
    intros Heq. apply (f_equal String.length) in Heq.
    rewrite length_stringOf in Heq. simpl in Heq. lia.
Qed.

(** X6 at the namespace file of the sample pod, and at a file that is not
    there. *)
Lemma getNamespace_not_empty_witness :
  let path := "/var/run/secrets/kubernetes.io/serviceaccount/namespace" in
  let data := "  kube-system" +:+ String (ascii_of_N 10) "" in
  @ReadFile samples.podFiles path = inr data
  ∧ bytesOf data = [0x20; 0x20]%N ++ bytesOf "kube-system" ++ [0x0A]%N
  ∧ @getNamespace samples.podFiles path = "kube-system"
  ∧ @getNamespace samples.podFiles "/etc/namespace" = "cdi".
Proof.
  intros path data.
  assert (Hdata : @ReadFile samples.podFiles path = inr data) by reflexivity.
  assert (Hbytes : bytesOf data = [0x20; 0x20]%N ++ bytesOf "kube-system" ++ [0x0A]%N)
    by reflexivity.
  assert (Hws1 : Forall (.∈ asciiSpace) [0x20; 0x20]%N)
    by (repeat constructor; apply bool_decide_unpack; vm_compute; exact I).
  assert (Hws2 : Forall (.∈ asciiSpace) [0x0A]%N)
    by (repeat constructor; apply bool_decide_unpack; vm_compute; exact I).
  assert (Hcore : ∀ c, head (bytesOf "kube-system") = Some c
                       ∨ last (bytesOf "kube-system") = Some c →
                       (c < 0x80)%N ∧ c ∉ asciiSpace).
  { intros c [[= <-]|[= <-]]; (split; [done|]);
      apply (bool_decide_unpack (_ ∉ asciiSpace)); vm_compute; exact I. }
  split; [exact Hdata|]. split; [exact Hbytes|]. split.
  - exact (proj2 (proj2 (proj2 (@getNamespace_not_empty samples.podFiles path)))
             data _ _ _ Hdata Hbytes Hws1 Hws2 Hcore).
  - exact (proj1 (proj2 (@getNamespace_not_empty samples.podFiles "/etc/namespace"))
             (golang.errorString "no such file or directory") eq_refl).
Defined.

End util_namespace.

Section termination_message_edges.
Import util.

(** X7.  An empty message, and a message of 64 KiB or more, is dropped:
    [WriteTerminationMessageToFile] writes nothing and still returns nil. *)
Theorem WriteTerminationMessageToFile_drops (fs : FileSystem) (file message : string) :
  message = "" ∨ (MaxScanTokenSize ≤ Z.of_nat (String.length message))%Z →
  WriteTerminationMessageToFile fs file message = (fs, None).
Proof.
  intros Hm. unfold WriteTerminationMessageToFile, Scan.
  rewrite (IndexByte_absent _ newline (get_ReplaceAll_newline message)). simpl.
  destruct (decide (ReplaceAll message newline " " = "")); [done|].
  rewrite length_ReplaceAll. destruct Hm as [->|Hlen]; [done|].
  by rewrite decide_False by lia.
Qed.

Lemma WriteTerminationMessageToFile_drops_witness :
  ("" = "" ∨ (MaxScanTokenSize ≤ Z.of_nat (String.length ""))%Z)
  ∧ WriteTerminationMessageToFile {| files := {[ "/dev/termination-log" := "old" ]};
                                     WriteFile_err := None |} "/dev/termination-log" ""
    = ({| files := {[ "/dev/termination-log" := "old" ]}; WriteFile_err := None |}, None).
Proof.
  assert (Hm : "" = "" ∨ (MaxScanTokenSize ≤ Z.of_nat (String.length ""))%Z) by (left; reflexivity).
  split; [exact Hm|].
  exact (WriteTerminationMessageToFile_drops _ "/dev/termination-log" "" Hm).
Defined.

(** The lemma [WriteTerminationMessageToFile_writes] at a one-line
    message. *)
Lemma WriteTerminationMessageToFile_writes_witness :
  let fs := {| files := ∅; WriteFile_err := None |} in
  "disk full" ≠ "" ∧ (Z.of_nat (String.length "disk full") < MaxScanTokenSize)%Z
  ∧ WriteFile_err fs = None
  ∧ WriteTerminationMessageToFile fs "/dev/termination-log" "disk full" =
      ({| files := <["/dev/termination-log" := dropCR (ReplaceAll "disk full" newline " ")]>
                     (files fs);
          WriteFile_err := None |}, None).
Proof.
  intros fs.
  assert (Hne : "disk full" ≠ "") by discriminate.
  assert (Hlen : (Z.of_nat (String.length "disk full") < MaxScanTokenSize)%Z) by (vm_compute; reflexivity).
  assert (Hfs : WriteFile_err fs = None) by reflexivity.
  split; [exact Hne|]. split; [exact Hlen|]. split; [exact Hfs|].
  exact (WriteTerminationMessageToFile_writes fs "/dev/termination-log" "disk full" Hne Hlen Hfs).
Defined.

End termination_message_edges.

(** ** Package util: zeroing the end of the destination file *)

Section append_zero.
Import util.

Lemma withContents_same (f : File) : withContents f (contents f) (offset f) = f.
Proof. by destruct f. Qed.

(** Writing at the end of a file appends. *)
Lemma Write_at_end (f : File) (b : list byte) :
  Write_errs f = [] → offset f = length (contents f) →
  Write f b = (withContents f (contents f ++ b) (offset f + length b),
               inr (Z.of_nat (length b))).
Proof.
  intros Herrs Hend. unfold Write, withContents. rewrite Herrs. simpl.
  by rewrite Hend, take_ge, drop_ge, Nat.sub_diag, app_nil_r by lia.
Qed.

Lemma zeroBufferLen_pos : (0 < zeroBufferLen)%Z.
Proof. done. Qed.

(** The loop appends the zero bytes that are still missing. *)
Lemma AppendZeroWithWrite_loop_at_end (fuel : nat) (f : File) (start length count : Z) :
  Write_errs f = [] → offset f = List.length (contents f) →
  (0 ≤ count)%Z → Z.to_nat (length - count) ≤ fuel →
  AppendZeroWithWrite_loop fuel f start length count =
    Some (withContents f (contents f ++ replicate (Z.to_nat (length - count)) Byte.x00)
            (offset f + Z.to_nat (length - count)), None).
Proof.
  revert f count. induction fuel as [|fuel IH]; intros f count Herrs Hend Hcount Hfuel.
  - simpl. rewrite decide_False by lia.
    replace (Z.to_nat (length - count)) with 0 by lia. simpl.
    by rewrite app_nil_r, Nat.add_0_r, withContents_same.
  - simpl. destruct (decide (count < length)%Z) as [Hlt|Hge].
    + set (blockSize := if decide (length - count < zeroBufferLen)%Z
                        then (length - count)%Z else zeroBufferLen).
      assert (Hblock : (0 < blockSize ≤ length - count)%Z).
      { unfold blockSize. pose proof zeroBufferLen_pos. destruct (decide _); lia. }
      rewrite Write_at_end by done. rewrite length_replicate.
      rewrite IH; simpl; [|done|by rewrite length_app, length_replicate, Hend|lia|lia].
      unfold withContents. simpl. clearbody blockSize.
      assert (Hn : Z.to_nat blockSize
                   + Z.to_nat (length - (count + Z.of_nat (Z.to_nat blockSize)))
                   = Z.to_nat (length - count)) by lia.
      by rewrite <- app_assoc, <- replicate_add, <- Nat.add_assoc, Hn.
    + replace (Z.to_nat (length - count)) with 0 by lia. simpl.
      by rewrite app_nil_r, Nat.add_0_r, withContents_same.
Qed.

Lemma AppendZeroWithWrite_at_end (f : File) (start length : Z) :
  Seek_err f = None → Write_errs f = [] → offset f = List.length (contents f) →
  start = Z.of_nat (offset f) →
  AppendZeroWithWrite f start length =
    Some (withContents f (contents f ++ replicate (Z.to_nat length) Byte.x00)
            (offset f + Z.to_nat length), None).
Proof.
  intros Hseek Herrs Hend Hstart. unfold AppendZeroWithWrite, SeekCurrent. rewrite Hseek.
  rewrite decide_False by (intros Hne; by apply Hne).
  rewrite AppendZeroWithWrite_loop_at_end by (done || lia).
  by rewrite Z.sub_0_r.
Qed.

Lemma AppendZeroWithTruncate_at_end (f : File) (start length : Z) :
  Seek_err f = None → Truncate_err f = None →
  start = Z.of_nat (List.length (contents f)) →
  (0 ≤ length)%Z → (start + length < 2 ^ 63)%Z →
  AppendZeroWithTruncate f start length =
    (withContents f (contents f ++ replicate (Z.to_nat length) Byte.x00)
       (List.length (contents f) + Z.to_nat length), None).
Proof.
  intros Hseek Htrunc Hstart Hlen Hmax. unfold AppendZeroWithTruncate, SeekEnd. rewrite Hseek.
  rewrite decide_False by (intros Hne; by apply Hne).
  unfold Truncate. simpl. rewrite Htrunc, int64_small by lia.
  rewrite decide_False by lia. simpl. rewrite Hseek. unfold withContents. simpl.
  rewrite take_ge by lia. f_equal. f_equal.
  - f_equal. f_equal. lia.
  - rewrite length_app, length_replicate. lia.
Qed.

(** X8.  On a file that is positioned at its end and whose calls do not
    fail, with [start] that position and a length that is not negative,
    [AppendZeroWithWrite] and [AppendZeroWithTruncate] do the same: the file
    gets exactly [length] zero bytes appended, and its offset is the new
    end. *)
Theorem AppendZero_write_and_truncate_agree (f : File) (start length : Z) :
  Seek_err f = None → Truncate_err f = None → Write_errs f = [] →
  offset f = List.length (contents f) → start = Z.of_nat (offset f) →
  (0 ≤ length)%Z → (start + length < 2 ^ 63)%Z →
  AppendZeroWithWrite f start length = Some (AppendZeroWithTruncate f start length)
  ∧ AppendZeroWithTruncate f start length =
      (withContents f (contents f ++ replicate (Z.to_nat length) Byte.x00)
         (offset f + Z.to_nat length), None).
Proof.
  intros Hseek Htrunc Herrs Hend Hstart Hlen Hmax.
  rewrite AppendZeroWithWrite_at_end, AppendZeroWithTruncate_at_end by (done || congruence).
  by rewrite Hend.
Qed.

(** X9.  Both functions refuse a [start] that is not where the file stands
    ([AppendZeroWithWrite]: the current offset; [AppendZeroWithTruncate]:
    the end of the file) and leave the bytes of the file as they are. *)
Theorem AppendZero_refuses_other_offset (f : File) (start length : Z) :
  Seek_err f = None →
  (start ≠ Z.of_nat (offset f) →
     ∃ e, AppendZeroWithWrite f start length = Some (f, Some e))
  ∧ (start ≠ Z.of_nat (List.length (contents f)) →
     ∃ f' e, AppendZeroWithTruncate f start length = (f', Some e)
             ∧ contents f' = contents f).
Proof.
  intros Hseek. split; intros Hstart.
  - unfold AppendZeroWithWrite, SeekCurrent. rewrite Hseek. rewrite decide_True by done.
    by eexists.
  - unfold AppendZeroWithTruncate, SeekEnd. rewrite Hseek. rewrite decide_True by done.
    by eexists _, _.
Qed.

(** X10.  With a negative length [AppendZeroWithWrite] writes nothing and
    returns nil, whereas [AppendZeroWithTruncate] cuts the file: what is
    left are its first [start + length] bytes. *)
Theorem AppendZero_negative_length (f : File) (start length : Z) :
  Seek_err f = None → Truncate_err f = None →
  offset f = List.length (contents f) → start = Z.of_nat (offset f) →
  (start < 2 ^ 63)%Z → (length < 0)%Z → (0 ≤ start + length)%Z →
  AppendZeroWithWrite f start length = Some (f, None)
  ∧ AppendZeroWithTruncate f start length =
      (withContents f (take (Z.to_nat (start + length)) (contents f))
         (Z.to_nat (start + length)), None).
Proof.
  intros Hseek Htrunc Hend Hstart Hmax Hlen Hsum. split.
  - unfold AppendZeroWithWrite, SeekCurrent. rewrite Hseek.
    rewrite decide_False by (intros Hne; by apply Hne).
    replace (Z.to_nat length) with 0 by lia. simpl. by rewrite decide_False by lia.
  - unfold AppendZeroWithTruncate, SeekEnd. rewrite Hseek.
    rewrite decide_False by (intros Hne; apply Hne; congruence).
    unfold Truncate. simpl. rewrite Htrunc, int64_small by lia.
    rewrite decide_False by lia. simpl. rewrite Hseek. unfold withContents. simpl.
    replace (Z.to_nat (start + length) - List.length (contents f)) with 0 by lia.
    simpl. rewrite app_nil_r, length_take. f_equal. f_equal. lia.
Qed.

Lemma AppendZero_write_and_truncate_agree_witness :
  let f := samples.dataFile in
  Seek_err f = None ∧ Truncate_err f = None ∧ Write_errs f = []
  ∧ offset f = List.length (contents f) ∧ 2%Z = Z.of_nat (offset f)
  ∧ (0 ≤ 3)%Z ∧ (2 + 3 < 2 ^ 63)%Z
  ∧ AppendZeroWithWrite f 2 3 = Some (AppendZeroWithTruncate f 2 3)
  ∧ AppendZeroWithTruncate f 2 3 =
      (withContents f (contents f ++ replicate (Z.to_nat 3) Byte.x00)
         (offset f + Z.to_nat 3), None).
Proof.
  intros f.
  assert (H1 : Seek_err f = None) by reflexivity.
  assert (H2 : Truncate_err f = None) by reflexivity.
  assert (H3 : Write_errs f = []) by reflexivity.
  assert (H4 : offset f = List.length (contents f)) by reflexivity.
  assert (H5 : 2%Z = Z.of_nat (offset f)) by reflexivity.
  assert (H6 : (0 ≤ 3)%Z) by lia.
  assert (H7 : (2 + 3 < 2 ^ 63)%Z) by lia.
  split_and!; [exact H1|exact H2|exact H3|exact H4|exact H5|exact H6|exact H7|..];
    apply (AppendZero_write_and_truncate_agree f 2 3 H1 H2 H3 H4 H5 H6 H7).
Defined.

Lemma AppendZero_refuses_other_offset_witness :
  let f := samples.dataFile in
  Seek_err f = None ∧ 0%Z ≠ Z.of_nat (offset f) ∧ 0%Z ≠ Z.of_nat (List.length (contents f))
  ∧ (∃ e, AppendZeroWithWrite f 0 3 = Some (f, Some e))
  ∧ ∃ f' e, AppendZeroWithTruncate f 0 3 = (f', Some e) ∧ contents f' = contents f.
Proof.
  intros f.
  assert (H1 : Seek_err f = None) by reflexivity.
  assert (H2 : 0%Z ≠ Z.of_nat (offset f)) by (simpl; lia).
  assert (H3 : 0%Z ≠ Z.of_nat (List.length (contents f))) by (simpl; lia).
  split_and!; [exact H1|exact H2|exact H3|..].
  - exact (proj1 (AppendZero_refuses_other_offset f 0 3 H1) H2).
  - exact (proj2 (AppendZero_refuses_other_offset f 0 3 H1) H3).
Defined.

Lemma AppendZero_negative_length_witness :
  let f := samples.dataFile in
  Seek_err f = None ∧ Truncate_err f = None
  ∧ offset f = List.length (contents f) ∧ 2%Z = Z.of_nat (offset f)
  ∧ (2 < 2 ^ 63)%Z ∧ (-1 < 0)%Z ∧ (0 ≤ 2 + -1)%Z
  ∧ AppendZeroWithWrite f 2 (-1) = Some (f, None)
  ∧ AppendZeroWithTruncate f 2 (-1) =
      (withContents f (take (Z.to_nat (2 + -1)) (contents f)) (Z.to_nat (2 + -1)), None).
Proof.
  intros f.
  assert (H1 : Seek_err f = None) by reflexivity.
  assert (H2 : Truncate_err f = None) by reflexivity.
  assert (H3 : offset f = List.length (contents f)) by reflexivity.
  assert (H4 : 2%Z = Z.of_nat (offset f)) by reflexivity.
  assert (H5 : (2 < 2 ^ 63)%Z) by lia.
  assert (H6 : (-1 < 0)%Z) by lia.
  assert (H7 : (0 ≤ 2 + -1)%Z) by lia.
  split_and!; [exact H1|exact H2|exact H3|exact H4|exact H5|exact H6|exact H7|..];
    apply (AppendZero_negative_length f 2 (-1) H1 H2 H3 H4 H5 H6 H7).
Defined.

Example AppendZeroWithWrite_three_zeroes :
  AppendZeroWithWrite samples.dataFile 2 3 =
    Some ({| contents := [Byte.x51; Byte.x46; Byte.x00; Byte.x00; Byte.x00]; offset := 5;
             Seek_err := None; Truncate_err := None; Write_errs := [] |}, None).
Proof. vm_compute. reflexivity. Qed.

End append_zero.

(** ** Package storagecapabilities: what every lookup returns *)

Section storagecapabilities_invariants.
Import storagecapabilities.
Context {order : golang.MapRange}.

Lemma remove_dups_length `{EqDecision A} (l : list A) : length (remove_dups l) ≤ length l.
Proof.
  induction l as [|x l IH]; simpl; [done|].
  destruct (decide_rel elem_of x l); simpl; lia.
Qed.

(** X11.  [uniqueCapabilities] returns the distinct capabilities of its
    input, in some order: a permutation of the input without its repeated
    elements, so never longer than the input. *)
Theorem uniqueCapabilities_permutation (input : list StorageCapabilities) :
  uniqueCapabilities input ≡ₚ remove_dups input
  ∧ length (uniqueCapabilities input) ≤ length input.
Proof.
  destruct (uniqueCapabilities_spec input) as [Hnodup Hmem].
  assert (Hperm : uniqueCapabilities input ≡ₚ remove_dups input).
  { apply NoDup_Permutation; [done|apply NoDup_remove_dups|].
    intros c. by rewrite Hmem, elem_of_remove_dups. }
  split; [done|]. rewrite Hperm. apply remove_dups_length.
Qed.

(** Every list of the static table is non-empty, has no duplicates, and
    names only the volume modes Block and Filesystem. *)
Lemma CapabilitiesByProvisionerKey_entries (key : string) (capabilities : list StorageCapabilities) :
  CapabilitiesByProvisionerKey !! key = Some capabilities →
  capabilities ≠ [] ∧ NoDup capabilities
  ∧ ∀ c, c ∈ capabilities →
      VolumeMode c = v1.PersistentVolumeBlock ∨ VolumeMode c = v1.PersistentVolumeFilesystem.
Proof.
  assert (Hrbd : createRbdCapabilities ≠ [] ∧ NoDup createRbdCapabilities
                 ∧ ∀ c, c ∈ createRbdCapabilities →
                     VolumeMode c = v1.PersistentVolumeBlock
                     ∨ VolumeMode c = v1.PersistentVolumeFilesystem).
  { split_and!; [done|by apply (bool_decide_unpack _)|].
    intros c Hc. unfold createRbdCapabilities in Hc.
    rewrite !elem_of_cons, elem_of_nil in Hc.
    destruct Hc as [->|[->|[->|[]]]]; simpl; auto. }
  assert (Hone : ∀ c, VolumeMode c = v1.PersistentVolumeBlock
                      ∨ VolumeMode c = v1.PersistentVolumeFilesystem →
                 [c] ≠ [] ∧ NoDup [c]
                 ∧ ∀ c', c' ∈ [c] → VolumeMode c' = v1.PersistentVolumeBlock
                                    ∨ VolumeMode c' = v1.PersistentVolumeFilesystem).
  { intros c Hc. split_and!; [done|apply NoDup_singleton|].
    by intros c' ->%list_elem_of_singleton. }
  unfold CapabilitiesByProvisionerKey. intros Hin%elem_of_list_to_map_2.
  repeat (apply elem_of_cons in Hin as [Heq|Hin];
          [injection Heq as -> ->; first [exact Hrbd|apply Hone; simpl; auto]|]).
  by apply elem_of_nil in Hin.
Qed.

(** X12.  For every StorageClass and cluster, the list [Get] returns has no
    duplicates and names only the volume modes Block and Filesystem, and the
    found flag is true exactly when the list is not empty. *)
Theorem Get_found_iff_nonempty (cl : client.Client) (sc : storagev1.StorageClass) :
  (Get cl sc).2 = bool_decide ((Get cl sc).1 ≠ [])
  ∧ NoDup (Get cl sc).1
  ∧ ∀ c, c ∈ (Get cl sc).1 →
      VolumeMode c = v1.PersistentVolumeBlock ∨ VolumeMode c = v1.PersistentVolumeFilesystem.
Proof.
  unfold Get. destruct (decide _) as [Hkey|Hkey].
  - unfold capabilitiesForNoProvisioner. destruct (negb _); simpl.
    { split_and!; [done|constructor|]. intros c Hc. apply elem_of_nil in Hc. destruct Hc. }
    destruct (client.ListPersistentVolumes cl) as [err|pvs]; simpl.
    { split_and!; [done|constructor|]. intros c Hc. apply elem_of_nil in Hc. destruct Hc. }
    destruct (uniqueCapabilities_spec (collectCapabilities sc pvs)) as [Hnodup Hmem].
    split_and!; [by destruct (uniqueCapabilities _)|done|].
    intros c (pv & _ & _ & _ & ->)%Hmem%collectCapabilities_spec.
    apply ResolveVolumeMode_cases.
  - destruct (CapabilitiesByProvisionerKey !! storageProvisionerKey sc) as [caps|] eqn:Hlookup;
      simpl.
    + destruct (CapabilitiesByProvisionerKey_entries _ _ Hlookup) as (Hne & Hnodup & Hmodes).
      split_and!; [by rewrite bool_decide_true|done|done].
    + split_and!; [done|constructor|]. intros c Hc. apply elem_of_nil in Hc. destruct Hc.
Qed.

Lemma mapper_lookup_trident :
  storageClassToProvisionerKeyMapper !! "csi.trident.netapp.io" =
  Some (λ sc : storagev1.StorageClass,
          let val := golang.index (storagev1.Parameters sc) "backendType" in
          if decide (val = "ontap-nas") then "csi.trident.netapp.io/ontap-nas"
          else if decide (val = "ontap-san") then "csi.trident.netapp.io/ontap-san"
          else "UNKNOWN").
Proof. reflexivity. Qed.

(** X13.  A class of provisioner "csi.trident.netapp.io" is keyed by its
    parameter backendType: "ontap-nas" gives ReadWriteMany/Filesystem,
    "ontap-san" gives ReadWriteOnce/Block, and with any other backend type,
    or none, nothing is found. *)
Theorem Get_trident_keyed_by_backendType (cl : client.Client) (sc : storagev1.StorageClass) :
  storagev1.Provisioner sc = "csi.trident.netapp.io" →
  Get cl sc =
    if decide (storagev1.Parameters sc !! "backendType" = Some "ontap-nas") then
      ([ {| AccessMode := v1.ReadWriteMany; VolumeMode := v1.PersistentVolumeFilesystem |} ], true)
    else if decide (storagev1.Parameters sc !! "backendType" = Some "ontap-san") then
      ([ {| AccessMode := v1.ReadWriteOnce; VolumeMode := v1.PersistentVolumeBlock |} ], true)
    else ([], false).
Proof.
  intros Hp.
  assert (Hkey : storageProvisionerKey sc =
            if decide (storagev1.Parameters sc !! "backendType" = Some "ontap-nas")
            then "csi.trident.netapp.io/ontap-nas"
            else if decide (storagev1.Parameters sc !! "backendType" = Some "ontap-san")
            then "csi.trident.netapp.io/ontap-san"
            else "UNKNOWN").
  { unfold storageProvisionerKey. rewrite Hp, mapper_lookup_trident. cbv beta zeta.
    assert (Hnas : golang.index (storagev1.Parameters sc) "backendType" = "ontap-nas"
                   ↔ storagev1.Parameters sc !! "backendType" = Some "ontap-nas")
      by (by apply index_eq_nonempty).
    assert (Hsan : golang.index (storagev1.Parameters sc) "backendType" = "ontap-san"
                   ↔ storagev1.Parameters sc !! "backendType" = Some "ontap-san")
      by (by apply index_eq_nonempty).
    repeat (destruct (decide _)); tauto. }
  unfold Get. rewrite Hkey.
  destruct (decide (_ = Some "ontap-nas")); [reflexivity|].
  destruct (decide (_ = Some "ontap-san")); reflexivity.
Qed.

End storagecapabilities_invariants.

Section storagecapabilities_invariants_samples.
Import storagecapabilities.

Lemma Get_trident_keyed_by_backendType_witness :
  let sc := {| storagev1.Name := "trident"; storagev1.Labels := ∅; storagev1.Annotations := ∅;
               storagev1.DeletionTimestamp := None;
               storagev1.Provisioner := "csi.trident.netapp.io";
               storagev1.Parameters := {[ "backendType" := "ontap-gold" ]} |} in
  storagev1.Provisioner sc = "csi.trident.netapp.io"
  ∧ Get (samples.clusterWith []) sc = ([], false)
  ∧ Get (samples.clusterWith []) sc =
      if decide (storagev1.Parameters sc !! "backendType" = Some "ontap-nas") then
        ([ {| AccessMode := v1.ReadWriteMany; VolumeMode := v1.PersistentVolumeFilesystem |} ], true)
      else if decide (storagev1.Parameters sc !! "backendType" = Some "ontap-san") then
        ([ {| AccessMode := v1.ReadWriteOnce; VolumeMode := v1.PersistentVolumeBlock |} ], true)
      else ([], false).
Proof.
  intros sc.
  assert (Hp : storagev1.Provisioner sc = "csi.trident.netapp.io") by reflexivity.
  split; [exact Hp|]. split; [vm_compute; reflexivity|].
  exact (Get_trident_keyed_by_backendType (samples.clusterWith []) sc Hp).
Defined.

End storagecapabilities_invariants_samples.

(** ** Package controller: what a reconcile pass changes *)

Section reconcile_effects.
Import controller.
Context {order : golang.MapRange} {consts : common.Constants} {imports : controller.Imports}.

Lemma Get_found_flag (cl : client.Client) (sc : storagev1.StorageClass) :
  (storagecapabilities.Get cl sc).2 = bool_decide ((storagecapabilities.Get cl sc).1 ≠ []).
Proof.
  unfold storagecapabilities.Get. destruct (decide _) as [Hkey|Hkey].
  - unfold storagecapabilities.capabilitiesForNoProvisioner. destruct (negb _); [done|].
    destruct (client.ListPersistentVolumes cl) as [err|pvs]; [done|]. simpl.
    by destruct (storagecapabilities.uniqueCapabilities _).
  - destruct (storagecapabilities.CapabilitiesByProvisionerKey
                !! storagecapabilities.storageProvisionerKey sc) as [caps|] eqn:Hlookup; [|done].
    destruct (CapabilitiesByProvisionerKey_entries _ _ Hlookup) as (Hne & _).
    simpl. by rewrite bool_decide_true.
Qed.

(** The property sets computed for a class are its capabilities, one set
    per capability. *)
Lemma reconcilePropertySets_fmap (cl : client.Client) (sc : storagev1.StorageClass) :
  reconcilePropertySets cl sc =
    (λ capability,
       {| cdiv1.AccessModes := [storagecapabilities.AccessMode capability];
          cdiv1.VolumeMode := Some (storagecapabilities.VolumeMode capability) |})
    <$> (storagecapabilities.Get cl sc).1.
Proof.
  unfold reconcilePropertySets. pose proof (Get_found_flag cl sc) as Hflag.
  destruct (storagecapabilities.Get cl sc) as [capabilities found]. simpl in *.
  destruct found.
  - by rewrite foldl_snoc_fmap.
  - symmetry in Hflag. apply bool_decide_eq_false in Hflag.
    destruct capabilities; [done|]. exfalso. by apply Hflag.
Qed.

Lemma reconcilePropertySets_isIncomplete (cl : client.Client) (sc : storagev1.StorageClass) :
  isIncomplete (reconcilePropertySets cl sc) = negb (storagecapabilities.Get cl sc).2.
Proof.
  rewrite reconcilePropertySets_fmap, Get_found_flag.
  destruct (storagecapabilities.Get cl sc).1 as [|c caps]; [done|].
  rewrite bool_decide_true by done.
  apply not_true_is_false. intros Hinc.
  apply isIncomplete_spec in Hinc as [Hnil|(cps & Hin & Hbad)]; [done|].
  apply list_elem_of_fmap in Hin as (c' & -> & _). by destruct Hbad.
Qed.

(** X14.  The property sets [reconcilePropertySets] computes hold one access
    mode and a volume mode each, one set per capability of the class; they
    are incomplete exactly when no capability is found. *)
Theorem reconcilePropertySets_complete (cl : client.Client) (sc : storagev1.StorageClass) :
  length (reconcilePropertySets cl sc) = length (storagecapabilities.Get cl sc).1
  ∧ (∀ cps, cps ∈ reconcilePropertySets cl sc →
       length (cdiv1.AccessModes cps) = 1 ∧ is_Some (cdiv1.VolumeMode cps))
  ∧ isIncomplete (reconcilePropertySets cl sc) = negb (storagecapabilities.Get cl sc).2.
Proof.
  split_and!.
  - by rewrite reconcilePropertySets_fmap, length_fmap.
  - intros cps. rewrite reconcilePropertySets_fmap.
    intros (c & -> & _)%list_elem_of_fmap. simpl. split; [done|by eexists].
  - apply reconcilePropertySets_isIncomplete.
Qed.

(** X15.  If [Reconcile] returns an error, the gauge keeps its value. *)
Theorem Reconcile_error_keeps_gauge (r : StorageProfileReconciler) (w w' : World)
    (req : string) (e : golang.error) :
  Reconcile r w req = (w', Some e) →
  IncompleteProfileGauge w' = IncompleteProfileGauge w.
Proof.
  assert (Hcheck : ∀ v v', checkIncompleteProfiles v = (v', Some e) →
                     IncompleteProfileGauge v' = IncompleteProfileGauge v).
  { intros v v'. unfold checkIncompleteProfiles.
    destruct (client.ListStorageProfiles (api v)); [|done]. by intros [= <- _]. }
  assert (Hdelete : ∀ name, deleteStorageProfile w name = (w', Some e) →
                      IncompleteProfileGauge w' = IncompleteProfileGauge w).
  { intros name. unfold deleteStorageProfile. destruct (client.Delete _ _) as [cl err].
    destruct (IgnoreNotFound err); [by intros [= <- _]|]. intros Hc%Hcheck. done. }
  unfold Reconcile. destruct (client.GetStorageClass (api w) req) as [err|storageClass].
  - destruct (k8serrors.IsNotFound err); [apply Hdelete|by intros [= <- _]].
  - destruct (storagev1.DeletionTimestamp storageClass); [apply Hdelete|].
    destruct (reconcileStorageProfile r (api w) storageClass) as [cl [err|]].
    + by intros [= <- _].
    + intros Hc%Hcheck. done.
Qed.

(** X16.  When the class is gone, or is being deleted, and the delete call
    does not fail, [Reconcile] leaves no profile of that name in the store,
    whatever it returns, and no other profile is touched. *)
Theorem Reconcile_removes_profile_of_deleted_class (r : StorageProfileReconciler)
    (w w' : World) (req : string) (err : option golang.error) :
  client.Delete_err (client.faults (api w)) = None →
  (∃ e, client.GetStorageClass (api w) req = inl e ∧ k8serrors.IsNotFound e = true)
  ∨ (∃ storageClass, client.GetStorageClass (api w) req = inr storageClass
                     ∧ is_Some (storagev1.DeletionTimestamp storageClass)) →
  Reconcile r w req = (w', err) →
  client.StorageProfiles (api w') !! req = None
  ∧ ∀ k, k ≠ req → client.StorageProfiles (api w') !! k = client.StorageProfiles (api w) !! k.
Proof.
  intros Hfault Hclass.
  assert (Hcheck : ∀ v v' e', checkIncompleteProfiles v = (v', e') → api v' = api v).
  { intros v v' e'. unfold checkIncompleteProfiles.
    destruct (client.ListStorageProfiles (api v)); by intros [= <- _]. }
  assert (Hdelete : deleteStorageProfile w req = (w', err) →
            client.StorageProfiles (api w') !! req = None
            ∧ ∀ k, k ≠ req →
                client.StorageProfiles (api w') !! k = client.StorageProfiles (api w) !! k).
  { unfold deleteStorageProfile, client.Delete. rewrite Hfault.
    destruct (client.StorageProfiles (api w) !! req) as [p|] eqn:Hp.
    - assert (Hgone : ∀ v, api v = client.withStorageProfiles (api w)
                                     (delete req (client.StorageProfiles (api w))) →
                client.StorageProfiles (api v) !! req = None
                ∧ ∀ k, k ≠ req →
                    client.StorageProfiles (api v) !! k = client.StorageProfiles (api w) !! k).
      { intros v ->. simpl. split; [apply lookup_delete_eq|].
        intros k Hk. by apply lookup_delete_ne. }
      destruct (IgnoreNotFound None).
      + intros [= <- _]. by apply Hgone.
      + intros Hc%Hcheck. by apply Hgone.
    - assert (Hsame : ∀ v, api v = api w →
                client.StorageProfiles (api v) !! req = None
                ∧ ∀ k, k ≠ req →
                    client.StorageProfiles (api v) !! k = client.StorageProfiles (api w) !! k).
      { intros v ->. done. }
      destruct (IgnoreNotFound _).
      + intros [= <- _]. apply Hsame. by destruct w.
      + intros Hc%Hcheck. apply Hsame. rewrite Hc. by destruct w. }
  unfold Reconcile.
  destruct Hclass as [(e & -> & ->)|(storageClass & -> & [t ->])]; apply Hdelete.
Qed.

(** The profile a pass works on has the name of the class, in a store whose
    keys are the names of its profiles, when setting the owner keeps the
    name. *)
Lemma getStorageProfile_name (r : StorageProfileReconciler) (cl : client.Client)
    (sc : storagev1.StorageClass) (sp : cdiv1.StorageProfile)
    (prev : option cdiv1.StorageProfile) :
  (∀ k p, client.StorageProfiles cl !! k = Some p → cdiv1.Name p = k) →
  (∀ p p', SetOwnerRuntime p = inr p' → cdiv1.Name p' = cdiv1.Name p) →
  getStorageProfile r cl sc = inr (sp, prev) →
  cdiv1.Name sp = storagev1.Name sc
  ∧ (prev = None
     ∨ prev = Some sp ∧ client.StorageProfiles cl !! storagev1.Name sc = Some sp).
Proof.
  intros Hwf Howner. unfold getStorageProfile, client.GetStorageProfile.
  assert (Hcreate : match createEmptyStorageProfile r sc with
                    | inl err => inl err
                    | inr storageProfile => inr (storageProfile, None)
                    end = inr (sp, prev) →
            cdiv1.Name sp = storagev1.Name sc
            ∧ (prev = None
               ∨ prev = Some sp ∧ client.StorageProfiles cl !! storagev1.Name sc = Some sp)).
  { unfold createEmptyStorageProfile.
    destruct (SetOwnerRuntime _) as [err|sp0] eqn:Hown; [done|].
    intros [= <- <-]. apply Howner in Hown. split; [done|by left]. }
  destruct (client.GetStorageProfile_err _) as [e|].
  { destruct (k8serrors.IsNotFound e); [exact Hcreate|done]. }
  destruct (client.StorageProfiles cl !! storagev1.Name sc) as [p|] eqn:Hp; simpl.
  - intros [= <- <-]. split; [by apply Hwf|by right].
  - exact Hcreate.
Qed.

(** What [updateStorageProfile] leaves in the store. *)
Lemma updateStorageProfile_store (cl cl' : client.Client)
    (prev : option cdiv1.StorageProfile) (sp : cdiv1.StorageProfile) (err : option golang.error) :
  updateStorageProfile cl prev sp = (cl', err) →
  cl' = cl
  ∨ err = None
    ∧ cl' = client.withStorageProfiles cl (<[cdiv1.Name sp := sp]> (client.StorageProfiles cl))
    ∧ (prev = None → client.StorageProfiles cl !! cdiv1.Name sp = None).
Proof.
  unfold updateStorageProfile, client.Create, client.Update. destruct prev as [prev|].
  - destruct (decide _); [by intros [= <- _]; left|].
    destruct (client.Update_err _); [by intros [= <- _]; left|].
    destruct (_ !! _); [by intros [= <- <-]; right|by intros [= <- _]; left].
  - destruct (client.Create_err _); [by intros [= <- _]; left|].
    destruct (_ !! _) eqn:Hlookup; [by intros [= <- _]; left|by intros [= <- <-]; right].
Qed.

(** X17.  In a store whose keys are the names of its profiles, and when
    setting the owner keeps the name, [reconcileStorageProfile] touches at
    most the profile named after the class: classes, volumes and all other
    profiles stay, a profile of that name is never removed, and its spec,
    name and owner references are never changed. *)
Theorem reconcileStorageProfile_touches_only_its_profile (r : StorageProfileReconciler)
    (cl cl' : client.Client) (sc : storagev1.StorageClass) (err : option golang.error) :
  (∀ k p, client.StorageProfiles cl !! k = Some p → cdiv1.Name p = k) →
  (∀ p p', SetOwnerRuntime p = inr p' → cdiv1.Name p' = cdiv1.Name p) →
  reconcileStorageProfile r cl sc = (cl', err) →
  client.StorageClasses cl' = client.StorageClasses cl
  ∧ client.PersistentVolumes cl' = client.PersistentVolumes cl
  ∧ (∀ k, k ≠ storagev1.Name sc →
       client.StorageProfiles cl' !! k = client.StorageProfiles cl !! k)
  ∧ (∀ p, client.StorageProfiles cl !! storagev1.Name sc = Some p →
       ∃ p', client.StorageProfiles cl' !! storagev1.Name sc = Some p'
             ∧ cdiv1.Spec p' = cdiv1.Spec p
             ∧ cdiv1.Name p' = cdiv1.Name p
             ∧ cdiv1.OwnerReferences p' = cdiv1.OwnerReferences p)
  ∧ (∀ k p, client.StorageProfiles cl' !! k = Some p → cdiv1.Name p = k).
Proof.
  intros Hwf Howner.
  assert (Hsame : client.StorageClasses cl = client.StorageClasses cl
            ∧ client.PersistentVolumes cl = client.PersistentVolumes cl
            ∧ (∀ k, k ≠ storagev1.Name sc →
                 client.StorageProfiles cl !! k = client.StorageProfiles cl !! k)
            ∧ (∀ p, client.StorageProfiles cl !! storagev1.Name sc = Some p →
                 ∃ p', client.StorageProfiles cl !! storagev1.Name sc = Some p'
                       ∧ cdiv1.Spec p' = cdiv1.Spec p
                       ∧ cdiv1.Name p' = cdiv1.Name p
                       ∧ cdiv1.OwnerReferences p' = cdiv1.OwnerReferences p)
            ∧ (∀ k p, client.StorageProfiles cl !! k = Some p → cdiv1.Name p = k)).
  { split_and!; [done..| |done]. intros p Hp. by exists p. }
  unfold reconcileStorageProfile.
  destruct (getStorageProfile r cl sc) as [e|[sp prev]] eqn:Hget; [by intros [= <- _]|].
  destruct (getStorageProfile_name r cl sc sp prev Hwf Howner Hget) as [Hname Hprev].
  match goal with
  | |- context [match ?v with inl _ => _ | inr _ => _ end] => destruct v as [e|sets]
  end; [by intros [= <- _]|].
  intros [->|(_ & -> & Hfresh)]%updateStorageProfile_store; [exact Hsame|].
  simpl in *. rewrite Hname in *.
  split_and!; [done|done| | |].
  - intros k Hk. by rewrite lookup_insert_ne.
  - intros p Hp. eexists. rewrite lookup_insert_eq. split; [done|]. simpl.
    destruct Hprev as [->|[-> Hsp]].
    + rewrite Hfresh in Hp by done. done.
    + rewrite Hp in Hsp. by injection Hsp as ->.
  - intros k p. destruct (decide (k = storagev1.Name sc)) as [->|Hk].
    + rewrite lookup_insert_eq. by intros [= <-].
    + rewrite lookup_insert_ne by done. apply Hwf.
Qed.

Lemma updateStorageProfile_success (cl cl' : client.Client)
    (prev : option cdiv1.StorageProfile) (sp : cdiv1.StorageProfile) :
  updateStorageProfile cl prev sp = (cl', None) →
  prev = Some sp ∧ cl' = cl
  ∨ cl' = client.withStorageProfiles cl (<[cdiv1.Name sp := sp]> (client.StorageProfiles cl)).
Proof.
  unfold updateStorageProfile, client.Create, client.Update. destruct prev as [prev|].
  - destruct (decide _) as [->|Hne]; [by intros [= <-]; left|].
    destruct (client.Update_err _); [done|].
    destruct (_ !! _); [by intros [= <-]; right|done].
  - destruct (client.Create_err _); [done|].
    destruct (_ !! _); [done|by intros [= <-]; right].
Qed.

(** The capabilities of a class do not depend on the profiles of the
    store. *)
Lemma reconcilePropertySets_withStorageProfiles (cl : client.Client)
    (profiles : gmap string cdiv1.StorageProfile) (sc : storagev1.StorageClass) :
  reconcilePropertySets (client.withStorageProfiles cl profiles) sc = reconcilePropertySets cl sc.
Proof. reflexivity. Qed.

(** After a pass without error the store holds a profile under the name of
    the class, and the fault plan is as before. *)
Lemma reconcileStorageProfile_touches_store (r : StorageProfileReconciler)
    (cl cl' : client.Client) (sc : storagev1.StorageClass) :
  (∀ k p, client.StorageProfiles cl !! k = Some p → cdiv1.Name p = k) →
  (∀ p p', SetOwnerRuntime p = inr p' → cdiv1.Name p' = cdiv1.Name p) →
  reconcileStorageProfile r cl sc = (cl', None) →
  ∃ p, client.StorageProfiles cl' !! storagev1.Name sc = Some p
       ∧ cdiv1.Name p = storagev1.Name sc
       ∧ client.faults cl' = client.faults cl.
Proof.
  intros Hwf Howner. unfold reconcileStorageProfile.
  destruct (getStorageProfile r cl sc) as [e|[sp prev]] eqn:Hget; [done|].
  destruct (getStorageProfile_name r cl sc sp prev Hwf Howner Hget) as [Hname Hprev].
  cbv zeta.
  assert (Hstore : ∀ sp' : cdiv1.StorageProfile,
            cdiv1.Name sp' = cdiv1.Name sp →
            updateStorageProfile cl prev sp' = (cl', None) →
            ∃ p, client.StorageProfiles cl' !! storagev1.Name sc = Some p
                 ∧ cdiv1.Name p = storagev1.Name sc
                 ∧ client.faults cl' = client.faults cl).
  { intros sp' Hname' Hupdate.
    apply updateStorageProfile_success in Hupdate as [[-> ->]| ->].
    - destruct Hprev as [?|[[= Heq] Hsp]]; [done|]. exists sp. by rewrite Hsp, Hname.
    - exists sp'. simpl. rewrite Hname', Hname, lookup_insert_eq. done. }
  destruct (decide (0 < length (cdiv1.ClaimPropertySets (cdiv1.Spec sp)))).
  - destruct (checkClaimPropertySets _); [done|]. by apply Hstore.
  - by apply Hstore.
Qed.

(** A second pass that ranges over every map in the order of the first
    pass, on the store the first pass has left without error, finds the
    profile as it would write it. *)
Lemma reconcileStorageProfile_again (r : StorageProfileReconciler)
    (cl cl' : client.Client) (sc : storagev1.StorageClass) :
  (∀ k p, client.StorageProfiles cl !! k = Some p → cdiv1.Name p = k) →
  (∀ p p', SetOwnerRuntime p = inr p' → cdiv1.Name p' = cdiv1.Name p) →
  client.GetStorageProfile_err (client.faults cl) = None →
  reconcileStorageProfile r cl sc = (cl', None) →
  reconcileStorageProfile r cl' sc = (cl', None).
Proof.
  intros Hwf Howner Hfault. unfold reconcileStorageProfile at 1.
  destruct (getStorageProfile r cl sc) as [e|[sp prev]] eqn:Hget; [done|].
  destruct (getStorageProfile_name r cl sc sp prev Hwf Howner Hget) as [Hname Hprev].
  set (validate := λ (c : client.Client) (p : cdiv1.StorageProfile),
         if decide (0 < length (cdiv1.ClaimPropertySets (cdiv1.Spec p)))
         then match checkClaimPropertySets (cdiv1.ClaimPropertySets (cdiv1.Spec p)) with
              | Some err => inl err
              | None => inr (cdiv1.ClaimPropertySets (cdiv1.Spec p))
              end
         else inr (reconcilePropertySets c sc)).
  set (finish := λ (p : cdiv1.StorageProfile) (sets : list cdiv1.ClaimPropertySet),
         cdiv1.withLabels
           (cdiv1.withStatus p
              {| cdiv1.StorageClass := Some (storagev1.Name sc);
                 cdiv1.Provisioner := Some (storagev1.Provisioner sc);
                 cdiv1.StatusCloneStrategy :=
                   reconcileCloneStrategy sc (cdiv1.CloneStrategy (cdiv1.Spec p));
                 cdiv1.StatusClaimPropertySets := sets |})
           (util.SetRecommendedLabels
              (cdiv1.Labels
                 (cdiv1.withStatus p
                    {| cdiv1.StorageClass := Some (storagev1.Name sc);
                       cdiv1.Provisioner := Some (storagev1.Provisioner sc);
                       cdiv1.StatusCloneStrategy :=
                         reconcileCloneStrategy sc (cdiv1.CloneStrategy (cdiv1.Spec p));
                       cdiv1.StatusClaimPropertySets := sets |}))
              (installerLabels r) "cdi-controller")).
  change (match validate cl sp with
          | inl err => (cl, Some err)
          | inr sets => updateStorageProfile cl prev (finish sp sets)
          end = (cl', None) → reconcileStorageProfile r cl' sc = (cl', None)).
  destruct (validate cl sp) as [e|sets] eqn:Hvalid; [done|].
  intros Hupdate.
  assert (Hfinish : finish (finish sp sets) sets = finish sp sets).
  { unfold finish, cdiv1.withLabels, cdiv1.withStatus. simpl.
    by rewrite SetRecommendedLabels_twice. }
  assert (Hstore : client.StorageProfiles cl' !! storagev1.Name sc = Some (finish sp sets)
                   ∧ client.faults cl' = client.faults cl
                   ∧ ∀ p, validate cl' p = validate cl p).
  { apply updateStorageProfile_success in Hupdate as [[-> ->]| ->].
    - destruct Hprev as [?|[[= Heq] Hsp]]; [done|]. split_and!; [|done..].
      rewrite Hsp. by f_equal.
    - simpl. split_and!; [|done..]. change (cdiv1.Name (finish sp sets)) with (cdiv1.Name sp).
      by rewrite Hname, lookup_insert_eq. }
  destruct Hstore as (Hlookup & Hfaults & Hvalidate).
  unfold reconcileStorageProfile, getStorageProfile, client.GetStorageProfile.
  rewrite Hfaults, Hfault, Hlookup.
  change (match validate cl' (finish sp sets) with
          | inl err => (cl', Some err)
          | inr sets' =>
              updateStorageProfile cl' (Some (finish sp sets)) (finish (finish sp sets) sets')
          end = (cl', None)).
  rewrite Hvalidate.
  change (validate cl (finish sp sets)) with (validate cl sp). rewrite Hvalid, Hfinish.
  unfold updateStorageProfile. by rewrite decide_True.
Qed.

(** X19.  After a pass that returned no error the store holds a profile of
    the class whose status says what the spec says: with property sets in
    the spec, the status carries those sets, each of which has an access
    mode if it has a volume mode; with none in the spec, the status carries
    the computed sets, and is incomplete exactly when the class has no known
    capabilities. *)
Theorem reconcileStorageProfile_status_sets (r : StorageProfileReconciler)
    (cl cl' : client.Client) (sc : storagev1.StorageClass) :
  reconcileStorageProfile r cl sc = (cl', None) →
  ∃ key p,
    client.StorageProfiles cl' !! key = Some p
    ∧ cdiv1.StorageClass (cdiv1.Status p) = Some (storagev1.Name sc)
    ∧ cdiv1.Provisioner (cdiv1.Status p) = Some (storagev1.Provisioner sc)
    ∧ (cdiv1.ClaimPropertySets (cdiv1.Spec p) ≠ [] →
         cdiv1.StatusClaimPropertySets (cdiv1.Status p) = cdiv1.ClaimPropertySets (cdiv1.Spec p)
         ∧ ∀ cps, cps ∈ cdiv1.ClaimPropertySets (cdiv1.Spec p) →
             is_Some (cdiv1.VolumeMode cps) → cdiv1.AccessModes cps ≠ [])
    ∧ (cdiv1.ClaimPropertySets (cdiv1.Spec p) = [] →
         cdiv1.StatusClaimPropertySets (cdiv1.Status p) = reconcilePropertySets cl sc
         ∧ isIncomplete (cdiv1.StatusClaimPropertySets (cdiv1.Status p))
           = negb (storagecapabilities.Get cl sc).2).
Proof.
  intros Hok. destruct (reconcileStorageProfile_success r cl cl' sc Hok)
    as (key & p & Hkey & Hstatus & Hcheck).
  exists key, p. rewrite Hstatus. simpl. split_and!; [done..| |].
  - intros Hne. rewrite decide_True.
    + split; [done|]. by apply checkClaimPropertySets_None.
    + destruct (cdiv1.ClaimPropertySets (cdiv1.Spec p)); simpl; [done|lia].
  - intros ->. simpl. split; [done|]. apply reconcilePropertySets_isIncomplete.
Qed.

End reconcile_effects.

Section reconcile_twice.
Import storagecapabilities controller.
Context {consts : common.Constants} {imports : controller.Imports}.

(** Only the capabilities of a no-provisioner class are read off a map
    range; for every other class the pass does not depend on the order in
    which maps are visited. *)
Lemma Get_order_free (first second : golang.MapRange) (cl : client.Client)
    (sc : storagev1.StorageClass) :
  storageProvisionerKey sc ≠ "kubernetes.io/no-provisioner" →
  @Get first cl sc = @Get second cl sc.
Proof. intros Hkey. unfold Get. by rewrite !decide_False. Qed.

Lemma reconcileStorageProfile_order_free (first second : golang.MapRange)
    (r : StorageProfileReconciler) (cl : client.Client) (sc : storagev1.StorageClass) :
  storageProvisionerKey sc ≠ "kubernetes.io/no-provisioner" →
  @reconcileStorageProfile first consts imports r cl sc
  = @reconcileStorageProfile second consts imports r cl sc.
Proof.
  intros Hkey. unfold reconcileStorageProfile, reconcilePropertySets.
  by rewrite (Get_order_free first second cl sc Hkey).
Qed.

(** X18.  For a class whose capabilities are not read off a map range,
    that is, whose provisioner key is not "kubernetes.io/no-provisioner",
    [reconcileStorageProfile] is idempotent, in whatever order each pass
    visits its maps: after a pass that returned no error, a second pass on
    the resulting store leaves the store as it is and returns no error.
    This is for a store whose keys are the names of its profiles, an owner
    setter that keeps the name, and reads and updates of the profile that do
    not fail; with updates that do not fail it does not matter whether the
    second pass finds the profile equal to what it read or writes it
    again. *)
Theorem reconcileStorageProfile_idempotent (first second : golang.MapRange)
    (r : StorageProfileReconciler) (cl cl' : client.Client) (sc : storagev1.StorageClass) :
  (∀ k p, client.StorageProfiles cl !! k = Some p → cdiv1.Name p = k) →
  (∀ p p', SetOwnerRuntime p = inr p' → cdiv1.Name p' = cdiv1.Name p) →
  client.GetStorageProfile_err (client.faults cl) = None →
  client.Update_err (client.faults cl) = None →
  storageProvisionerKey sc ≠ "kubernetes.io/no-provisioner" →
  @reconcileStorageProfile first consts imports r cl sc = (cl', None) →
  @reconcileStorageProfile second consts imports r cl' sc = (cl', None)
  ∧ client.Update cl' <$> (client.StorageProfiles cl' !! storagev1.Name sc)
    = Some (cl', None).
Proof.
  intros Hwf Howner Hget Hupdate Hkey Hfirst.
  rewrite (reconcileStorageProfile_order_free second first r cl' sc Hkey).
  split; [exact (@reconcileStorageProfile_again first consts imports r cl cl' sc
                   Hwf Howner Hget Hfirst)|].
  destruct (@reconcileStorageProfile_touches_store first consts imports r cl cl' sc
              Hwf Howner Hfirst)
    as (p & Hlookup & Hname & Hfaults).
  rewrite Hlookup. simpl. unfold client.Update. rewrite Hfaults, Hupdate, Hname, Hlookup.
  rewrite insert_id by done. by destruct cl'.
Qed.

End reconcile_twice.

Section reconcile_effects_samples.
Import controller.

Lemma samples_owner_keeps_name (p p' : cdiv1.StorageProfile) :
  SetOwnerRuntime p = inr p' → cdiv1.Name p' = cdiv1.Name p.
Proof. by intros [= <-]. Qed.

Lemma samples_no_profiles (classes : list storagev1.StorageClass) (k : string)
    (p : cdiv1.StorageProfile) :
  client.StorageProfiles (samples.clusterOf classes [] []) !! k = Some p → cdiv1.Name p = k.
Proof. simpl. by rewrite lookup_empty. Qed.

Lemma Reconcile_error_keeps_gauge_witness :
  let profile := samples.profileWithSpec
                   {| cdiv1.CloneStrategy := None;
                      cdiv1.ClaimPropertySets := [samples.blockWithoutAccessMode] |} in
  let w := {| api := samples.clusterOf [samples.operatorLocalClass] [profile] [];
              IncompleteProfileGauge := 7 |} in
  Reconcile samples.reconciler w "local"
    = (w, Some (golang.errorString "must provide access mode for volume mode: Block"))
  ∧ IncompleteProfileGauge w = IncompleteProfileGauge w.
Proof.
  intros profile w.
  assert (Herr : Reconcile samples.reconciler w "local"
                 = (w, Some (golang.errorString "must provide access mode for volume mode: Block")))
    by (vm_compute; reflexivity).
  split; [exact Herr|].
  exact (Reconcile_error_keeps_gauge samples.reconciler w w "local" _ Herr).
Defined.

Lemma Reconcile_removes_profile_of_deleted_class_witness :
  let profile := samples.profileWithSpec
                   {| cdiv1.CloneStrategy := None; cdiv1.ClaimPropertySets := [] |} in
  let w := {| api := samples.clusterOf [] [profile] []; IncompleteProfileGauge := 1 |} in
  let w' := (Reconcile samples.reconciler w "local").1 in
  client.Delete_err (client.faults (api w)) = None
  ∧ client.GetStorageClass (api w) "local" = inl (golang.StatusNotFound "local")
  ∧ Reconcile samples.reconciler w "local" = (w', None)
  ∧ client.StorageProfiles (api w') !! "local" = None
  ∧ ∀ k, k ≠ "local" →
      client.StorageProfiles (api w') !! k = client.StorageProfiles (api w) !! k.
Proof.
  intros profile w w'.
  assert (Hfault : client.Delete_err (client.faults (api w)) = None) by reflexivity.
  assert (Hget : client.GetStorageClass (api w) "local" = inl (golang.StatusNotFound "local"))
    by reflexivity.
  assert (Hrun : Reconcile samples.reconciler w "local" = (w', None))
    by (vm_compute; reflexivity).
  split; [exact Hfault|]. split; [exact Hget|]. split; [exact Hrun|].
  exact (Reconcile_removes_profile_of_deleted_class samples.reconciler w w' "local" None Hfault
           (or_introl (ex_intro _ (golang.StatusNotFound "local") (conj Hget eq_refl))) Hrun).
Defined.

Lemma reconcileStorageProfile_touches_only_its_profile_witness :
  let cl := samples.clusterOf [samples.operatorLocalClass] [] [] in
  let sc := samples.operatorLocalClass in
  let cl' := (reconcileStorageProfile samples.reconciler cl sc).1 in
  reconcileStorageProfile samples.reconciler cl sc = (cl', None)
  ∧ client.StorageClasses cl' = client.StorageClasses cl
  ∧ client.PersistentVolumes cl' = client.PersistentVolumes cl
  ∧ (∀ k, k ≠ storagev1.Name sc →
       client.StorageProfiles cl' !! k = client.StorageProfiles cl !! k)
  ∧ (∀ p, client.StorageProfiles cl !! storagev1.Name sc = Some p →
       ∃ p', client.StorageProfiles cl' !! storagev1.Name sc = Some p'
             ∧ cdiv1.Spec p' = cdiv1.Spec p
             ∧ cdiv1.Name p' = cdiv1.Name p
             ∧ cdiv1.OwnerReferences p' = cdiv1.OwnerReferences p)
  ∧ (∀ k p, client.StorageProfiles cl' !! k = Some p → cdiv1.Name p = k).
Proof.
  intros cl sc cl'.
  assert (Hrun : reconcileStorageProfile samples.reconciler cl sc = (cl', None))
    by (vm_compute; reflexivity).
  split; [exact Hrun|].
  exact (reconcileStorageProfile_touches_only_its_profile samples.reconciler cl cl' sc None
           (samples_no_profiles [samples.operatorLocalClass]) samples_owner_keeps_name Hrun).
Defined.

(** X18 at a ceph-rbd class without a profile: the first pass visits maps in
    listed order and creates the profile, the second visits them in reverse
    order and leaves the store as it is. *)
Lemma reconcileStorageProfile_idempotent_witness :
  let sc := {| storagev1.Name := "fast"; storagev1.Labels := ∅; storagev1.Annotations := ∅;
               storagev1.DeletionTimestamp := None;
               storagev1.Provisioner := "rbd.csi.ceph.com";
               storagev1.Parameters := ∅ |} in
  let cl := samples.clusterOf [sc] [] [] in
  let cl' := (@reconcileStorageProfile samples.listed_order _ _ samples.reconciler cl sc).1 in
  client.GetStorageProfile_err (client.faults cl) = None
  ∧ client.Update_err (client.faults cl) = None
  ∧ storagecapabilities.storageProvisionerKey sc ≠ "kubernetes.io/no-provisioner"
  ∧ @reconcileStorageProfile samples.listed_order _ _ samples.reconciler cl sc = (cl', None)
  ∧ client.StorageProfiles cl ≠ client.StorageProfiles cl'
  ∧ @reconcileStorageProfile samples.reversed_order _ _ samples.reconciler cl' sc = (cl', None)
  ∧ client.Update cl' <$> (client.StorageProfiles cl' !! storagev1.Name sc)
    = Some (cl', None).
Proof.
  intros sc cl cl'.
  assert (Hget : client.GetStorageProfile_err (client.faults cl) = None) by reflexivity.
  assert (Hupdate : client.Update_err (client.faults cl) = None) by reflexivity.
  assert (Hkey : storagecapabilities.storageProvisionerKey sc ≠ "kubernetes.io/no-provisioner")
    by (by vm_compute).
  assert (Hrun : @reconcileStorageProfile samples.listed_order _ _ samples.reconciler cl sc
                 = (cl', None))
    by (vm_compute; reflexivity).
  assert (Hnew : client.StorageProfiles cl ≠ client.StorageProfiles cl').
  { intros Heq. apply (f_equal (λ m, m !! "fast")) in Heq. vm_compute in Heq. discriminate. }
  split; [exact Hget|]. split; [exact Hupdate|]. split; [exact Hkey|].
  split; [exact Hrun|]. split; [exact Hnew|].
  exact (reconcileStorageProfile_idempotent samples.listed_order samples.reversed_order
           samples.reconciler cl cl' sc (samples_no_profiles [sc]) samples_owner_keeps_name
           Hget Hupdate Hkey Hrun).
Defined.

Lemma reconcileStorageProfile_status_sets_witness :
  let sc := {| storagev1.Name := "fast"; storagev1.Labels := ∅; storagev1.Annotations := ∅;
               storagev1.DeletionTimestamp := None;
               storagev1.Provisioner := "rbd.csi.ceph.com";
               storagev1.Parameters := ∅ |} in
  let cl := samples.clusterOf [sc] [] [] in
  let cl' := (reconcileStorageProfile samples.reconciler cl sc).1 in
  reconcileStorageProfile samples.reconciler cl sc = (cl', None)
  ∧ ∃ key p,
      client.StorageProfiles cl' !! key = Some p
      ∧ cdiv1.StorageClass (cdiv1.Status p) = Some (storagev1.Name sc)
      ∧ cdiv1.Provisioner (cdiv1.Status p) = Some (storagev1.Provisioner sc)
      ∧ (cdiv1.ClaimPropertySets (cdiv1.Spec p) ≠ [] →
           cdiv1.StatusClaimPropertySets (cdiv1.Status p)
           = cdiv1.ClaimPropertySets (cdiv1.Spec p)
           ∧ ∀ cps, cps ∈ cdiv1.ClaimPropertySets (cdiv1.Spec p) →
               is_Some (cdiv1.VolumeMode cps) → cdiv1.AccessModes cps ≠ [])
      ∧ (cdiv1.ClaimPropertySets (cdiv1.Spec p) = [] →
           cdiv1.StatusClaimPropertySets (cdiv1.Status p) = reconcilePropertySets cl sc
           ∧ isIncomplete (cdiv1.StatusClaimPropertySets (cdiv1.Status p))
             = negb (storagecapabilities.Get cl sc).2).
Proof.
  intros sc cl cl'.
  assert (Hrun : reconcileStorageProfile samples.reconciler cl sc = (cl', None))
    by (vm_compute; reflexivity).
  split; [exact Hrun|].
  exact (reconcileStorageProfile_status_sets samples.reconciler cl cl' sc Hrun).
Defined.

Example reconcileStorageProfile_rbd_profile_is_complete :
  let sc := {| storagev1.Name := "fast"; storagev1.Labels := ∅; storagev1.Annotations := ∅;
               storagev1.DeletionTimestamp := None;
               storagev1.Provisioner := "rbd.csi.ceph.com";
               storagev1.Parameters := ∅ |} in
  IncompleteProfileGauge
    (Reconcile samples.reconciler
       {| api := samples.clusterOf [sc] [] []; IncompleteProfileGauge := 0 |} "fast").1 = 0.
Proof. vm_compute. reflexivity. Qed.

End reconcile_effects_samples.

(** ** Package webhooks: what [Admit] answers, case by case *)

Section admit_effects.
Import webhooks.
Context {consts : common.Constants} {imports : webhooks.Imports}.

(** A patch answered before the access review is the TTL patch of a
    DataVolume that is not a clone. *)
Lemma Admit_prepare_patch (wh : dataVolumeMutatingWebhook) (ar : AdmissionReview)
    (original modified : DataVolume) :
  Admit_prepare wh ar = inl (toPatchResponse original modified) →
  ∃ config,
    Unmarshal (Object_Raw (Request ar)) = inr original
    ∧ pvcSourceOf wh original = inr None
    ∧ CDIConfigs_Get wh common.ConfigName = inr config
    ∧ applyTTL config original = (modified, true).
Proof.
  unfold Admit_prepare.
  destruct (validateDataVolumeResource ar) as [err|]; [done|].
  destruct (Unmarshal (Object_Raw (Request ar))) as [err|dv]; [done|].
  destruct (pvcSourceOf wh dv) as [err|[pvc|]] eqn:Hpvc; [done| |].
  - destruct (CDIConfigs_Get wh common.ConfigName) as [err|config]; [done|].
    destruct (applyTTL config dv) as [modifiedDataVolume modified'].
    destruct (decide (Operation (Request ar) = Update)); [|done].
    destruct (Unmarshal (OldObject_Raw (Request ar))) as [err|old]; [done|].
    by destruct (golang.found _ _).
  - destruct (CDIConfigs_Get wh common.ConfigName) as [err|config]; [done|].
    destruct (applyTTL config dv) as [modifiedDataVolume [|]] eqn:Httl; [|done].
    intros [= <- <-]. by exists config.
Qed.

(** A patch answered after the access review: the review has granted, the
    generator has signed the payload of the request, and the token is the
    one annotation added. *)
Lemma Admit_clone_patch (wh : dataVolumeMutatingWebhook) (ar : AdmissionReview)
    (c : CloneRequest) (original modified : DataVolume) :
  Admit_clone wh ar c = toPatchResponse original modified →
  ∃ reason token,
    CanUserClonePVC wh (sourceNamespace c) (sourceName c) (targetNamespace c)
      (Request_UserInfo (Request ar)) = (true, reason, None)
    ∧ tokenGenerator_Generate wh
        {| Payload_Operation := OperationClone;
           Payload_Name := sourceName c;
           Payload_Namespace := sourceNamespace c;
           Payload_Resource := tokenResource;
           Params := <["targetNamespace" := targetNamespace c]>
                       (<["targetName" := targetName c]> ∅) |} = inr token
    ∧ original = dataVolume c
    ∧ modified = withAnnotations (modifiedDataVolume c)
                   (<[AnnCloneToken := token]> (Annotations (modifiedDataVolume c))).
Proof.
  unfold Admit_clone.
  destruct (CanUserClonePVC wh _ _ _ _) as [[[|] reason] [err|]] eqn:Hcheck; try done.
  destruct (tokenGenerator_Generate wh _) as [err|token] eqn:Hgen; [done|].
  intros [= <- <-]. by exists reason, token.
Qed.

(** The TTL step changes the annotations only, and there only the key
    [AnnDeleteAfterCompletion]. *)
Lemma applyTTL_frame (config : CDIConfig) (dv : DataVolume) :
  Namespace (applyTTL config dv).1 = Namespace dv
  ∧ Name (applyTTL config dv).1 = Name dv
  ∧ Source (applyTTL config dv).1 = Source dv
  ∧ SourceRef (applyTTL config dv).1 = SourceRef dv
  ∧ ∀ k, k ≠ AnnDeleteAfterCompletion →
      Annotations (applyTTL config dv).1 !! k = Annotations dv !! k.
Proof.
  rewrite applyTTL_spec. destruct (decide _); simpl; split_and!; try done.
  intros k Hk. by rewrite lookup_insert_ne.
Qed.

(** X20.  Whatever patch [Admit] answers with, its original is the decoded
    object of the request, and the patched DataVolume differs from it at
    most in the two annotations [AnnDeleteAfterCompletion] and
    [AnnCloneToken]: namespace, name, source, source reference and every
    other annotation are the original's. *)
Theorem Admit_patch_touches_two_annotations
    (wh : dataVolumeMutatingWebhook) (ar : AdmissionReview) (original modified : DataVolume) :
  Admit wh ar = toPatchResponse original modified →
  Unmarshal (Object_Raw (Request ar)) = inr original
  ∧ Namespace modified = Namespace original
  ∧ Name modified = Name original
  ∧ Source modified = Source original
  ∧ SourceRef modified = SourceRef original
  ∧ ∀ k, k ≠ AnnDeleteAfterCompletion → k ≠ AnnCloneToken →
      Annotations modified !! k = Annotations original !! k.
Proof.
  unfold Admit. destruct (Admit_prepare wh ar) as [response|request] eqn:Hprepare.
  - intros ->. apply Admit_prepare_patch in Hprepare as (config & Hdv & _ & _ & Httl).
    destruct (applyTTL_frame config original) as (Hns & Hname & Hsrc & Href & Hann).
    rewrite Httl in Hns, Hname, Hsrc, Href, Hann. simpl in *.
    split_and!; try done. intros k Hk _. by apply Hann.
  - intros (reason & token & _ & _ & -> & ->)%Admit_clone_patch.
    apply Admit_prepare_inr in Hprepare
      as (dv & pvc & config & Hdv & _ & _ & Hrdv & Hrmod & _).
    rewrite Hrmod, Hrdv.
    destruct (applyTTL_frame config dv) as (Hns & Hname & Hsrc & Href & Hann).
    simpl. split_and!; try done.
    intros k Hk Hk'. rewrite lookup_insert_ne by done. by apply Hann.
Qed.

(** X21.  The deleteAfterCompletion annotation of every patch follows the
    TTL rule: when the CDIConfig has a TTL and the object does not carry the
    value "false", the patched DataVolume carries "true"; otherwise the
    annotation is the object's own, so an opt-out by "false" survives every
    patch. *)
Theorem Admit_patch_TTL_rule
    (wh : dataVolumeMutatingWebhook) (ar : AdmissionReview) (config : CDIConfig)
    (original modified : DataVolume) :
  AnnCloneToken ≠ AnnDeleteAfterCompletion →
  CDIConfigs_Get wh common.ConfigName = inr config →
  Admit wh ar = toPatchResponse original modified →
  Annotations modified !! AnnDeleteAfterCompletion
  = if decide (is_Some (DataVolumeTTLSeconds config)
               ∧ Annotations original !! AnnDeleteAfterCompletion ≠ Some "false")
    then Some "true"
    else Annotations original !! AnnDeleteAfterCompletion.
Proof.
  intros Hkeys Hconfig Hpatch.
  assert (Hbase : Annotations modified !! AnnDeleteAfterCompletion
                  = Annotations (applyTTL config original).1 !! AnnDeleteAfterCompletion).
  { revert Hpatch. unfold Admit.
    destruct (Admit_prepare wh ar) as [response|request] eqn:Hprepare.
    - intros ->. apply Admit_prepare_patch in Hprepare as (config' & _ & _ & Hconfig' & Httl).
      rewrite Hconfig in Hconfig'. injection Hconfig' as <-. by rewrite Httl.
    - intros (reason & token & _ & _ & -> & ->)%Admit_clone_patch.
      apply Admit_prepare_inr in Hprepare
        as (dv & pvc & config' & _ & _ & Hconfig' & Hrdv & Hrmod & _).
      rewrite Hconfig in Hconfig'. injection Hconfig' as <-.
      rewrite Hrmod, Hrdv. simpl. by rewrite lookup_insert_ne. }
  rewrite Hbase, applyTTL_spec. destruct (decide _); simpl; [|done].
  by rewrite lookup_insert_eq.
Qed.

(** X22.  The clone token of a patch is bound to the source and the target
    of the clone: it is what the generator returns for the payload that
    names the source PVC, in its own namespace or else the target's, and
    that carries the target namespace and name, each taken from the request
    when the object leaves it empty. *)
Theorem Admit_token_binds_source_and_target
    (wh : dataVolumeMutatingWebhook) (ar : AdmissionReview)
    (original modified : DataVolume) (pvc : DataVolumeSourcePVC) :
  pvcSourceOf wh original = inr (Some pvc) →
  Admit wh ar = toPatchResponse original modified →
  let targetNamespace :=
    if decide (Namespace original = "") then Request_Namespace (Request ar)
    else Namespace original in
  let targetName :=
    if decide (Name original = "") then Request_Name (Request ar) else Name original in
  ∃ token,
    Annotations modified !! AnnCloneToken = Some token
    ∧ tokenGenerator_Generate wh
        {| Payload_Operation := OperationClone;
           Payload_Name := PVC_Name pvc;
           Payload_Namespace := if decide (PVC_Namespace pvc = "") then targetNamespace
                                else PVC_Namespace pvc;
           Payload_Resource :=
             {| Group := ""; Version := "v1"; Resource := "persistentvolumeclaims" |};
           Params := <["targetNamespace" := targetNamespace]>
                       (<["targetName" := targetName]> ∅) |}
      = inr token.
Proof.
  intros Hpvc. unfold Admit.
  destruct (Admit_prepare wh ar) as [response|request] eqn:Hprepare.
  - intros ->. apply Admit_prepare_patch in Hprepare as (config & _ & Hnone & _).
    congruence.
  - intros (reason & token & _ & Hgen & -> & ->)%Admit_clone_patch.
    apply Admit_prepare_inr in Hprepare
      as (dv & pvc' & config & _ & Hpvc' & _ & Hdv & _ & Htns & Htn & Hsn & Hsns & _).
    subst dv. rewrite Hpvc in Hpvc'. injection Hpvc' as <-.
    exists token. split; [simpl; by rewrite lookup_insert_eq|].
    rewrite Hsns, Hsn, Htns, Htn in Hgen. exact Hgen.
Qed.

(** X23.  [Admit] rejects a request only after an access review that
    denied: the rejection has the one cause that carries the reason of the
    review and names spec.source.PVC.namespace. *)
Theorem Admit_rejects_only_on_denied_review
    (wh : dataVolumeMutatingWebhook) (ar : AdmissionReview) (causes : list StatusCause) :
  Admit wh ar = toRejectedAdmissionResponse causes →
  ∃ request reason,
    Admit_prepare wh ar = inr request
    ∧ CanUserClonePVC wh (sourceNamespace request) (sourceName request)
        (targetNamespace request) (Request_UserInfo (Request ar)) = (false, reason, None)
    ∧ causes = [ {| Type_ := "FieldValueInvalid"; Message := reason;
                    Field := "spec.source.PVC.namespace" |} ].
Proof.
  unfold Admit. destruct (Admit_prepare wh ar) as [response|request] eqn:Hprepare.
  - intros ->. exfalso. revert Hprepare. unfold Admit_prepare.
    destruct (validateDataVolumeResource ar) as [err|]; [done|].
    destruct (Unmarshal (Object_Raw (Request ar))) as [err|dv]; [done|].
    destruct (pvcSourceOf wh dv) as [err|pvcSource]; [done|].
    destruct (CDIConfigs_Get wh common.ConfigName) as [err|config]; [done|].
    destruct (applyTTL config dv) as [modifiedDataVolume [|]]; destruct pvcSource as [pvc|];
      try done;
      (destruct (decide (Operation (Request ar) = Update)); [|done];
       destruct (Unmarshal (OldObject_Raw (Request ar))) as [err|old]; [done|];
       by destruct (golang.found _ _)).
  - unfold Admit_clone.
    destruct (CanUserClonePVC wh _ _ _ _) as [[[|] reason] [err|]] eqn:Hcheck; try done.
    + by destruct (tokenGenerator_Generate wh _).
    + intros [= <-]. by exists request, reason.
Qed.

(** X24.  A clone DataVolume is allowed without a patch in one case only:
    the request is an update whose old object already carries the clone
    token.  On every other path a clone is answered with a patch that
    carries a token, a rejection or an error. *)
Theorem Admit_clone_allowed_only_with_old_token
    (wh : dataVolumeMutatingWebhook) (ar : AdmissionReview)
    (dv : DataVolume) (pvc : DataVolumeSourcePVC) :
  Unmarshal (Object_Raw (Request ar)) = inr dv →
  pvcSourceOf wh dv = inr (Some pvc) →
  Admit wh ar = allowedAdmissionResponse →
  Operation (Request ar) = Update
  ∧ ∃ old, Unmarshal (OldObject_Raw (Request ar)) = inr old
           ∧ is_Some (Annotations old !! AnnCloneToken).
Proof.
  intros Hdv Hpvc. unfold Admit.
  destruct (Admit_prepare wh ar) as [response|request] eqn:Hprepare.
  - intros ->. revert Hprepare. unfold Admit_prepare.
    destruct (validateDataVolumeResource ar) as [err|]; [done|].
    rewrite Hdv, Hpvc.
    destruct (CDIConfigs_Get wh common.ConfigName) as [err|config]; [done|].
    destruct (applyTTL config dv) as [modifiedDataVolume modified].
    destruct (decide (Operation (Request ar) = Update)) as [Hop|]; [|done].
    destruct (Unmarshal (OldObject_Raw (Request ar))) as [err|old]; [done|].
    unfold golang.found. destruct (bool_decide _) eqn:Hfound; [|done].
    intros _. split; [done|]. exists old. split; [done|].
    by apply bool_decide_eq_true in Hfound.
  - unfold Admit_clone.
    destruct (CanUserClonePVC wh _ _ _ _) as [[[|] reason] [err|]]; try done.
    by destruct (tokenGenerator_Generate wh _).
Qed.

End admit_effects.

Section admit_effects_samples.
Import webhooks.

Lemma Admit_patch_touches_two_annotations_witness :
  let wh := samples.webhook (Some 0%Z) true in
  let ar := samples.review "CREATE" "clone-dv" "" in
  let original := samples.cloneDataVolume ∅ in
  let modified :=
    samples.cloneDataVolume
      (<[ AnnCloneToken := "signed" ]> {[ AnnDeleteAfterCompletion := "true" ]}) in
  Admit wh ar = toPatchResponse original modified
  ∧ Unmarshal (Object_Raw (Request ar)) = inr original
  ∧ Namespace modified = Namespace original
  ∧ Name modified = Name original
  ∧ Source modified = Source original
  ∧ SourceRef modified = SourceRef original
  ∧ ∀ k, k ≠ AnnDeleteAfterCompletion → k ≠ AnnCloneToken →
      Annotations modified !! k = Annotations original !! k.
Proof.
  intros wh ar original modified.
  assert (Hpatch : Admit wh ar = toPatchResponse original modified)
    by (vm_compute; reflexivity).
  split; [exact Hpatch|].
  exact (Admit_patch_touches_two_annotations wh ar original modified Hpatch).
Defined.

Lemma Admit_patch_TTL_rule_witness :
  let wh := samples.webhook (Some 0%Z) true in
  let ar := samples.review "CREATE" "clone-dv" "" in
  let config := {| DataVolumeTTLSeconds := Some 0%Z |} in
  let original := samples.cloneDataVolume ∅ in
  let modified :=
    samples.cloneDataVolume
      (<[ AnnCloneToken := "signed" ]> {[ AnnDeleteAfterCompletion := "true" ]}) in
  AnnCloneToken ≠ AnnDeleteAfterCompletion
  ∧ CDIConfigs_Get wh common.ConfigName = inr config
  ∧ Admit wh ar = toPatchResponse original modified
  ∧ Annotations modified !! AnnDeleteAfterCompletion
    = if decide (is_Some (DataVolumeTTLSeconds config)
                 ∧ Annotations original !! AnnDeleteAfterCompletion ≠ Some "false")
      then Some "true"
      else Annotations original !! AnnDeleteAfterCompletion.
Proof.
  intros wh ar config original modified.
  assert (Hkeys : AnnCloneToken ≠ AnnDeleteAfterCompletion) by (by vm_compute).
  assert (Hconfig : CDIConfigs_Get wh common.ConfigName = inr config) by reflexivity.
  assert (Hpatch : Admit wh ar = toPatchResponse original modified)
    by (vm_compute; reflexivity).
  split; [exact Hkeys|]. split; [exact Hconfig|]. split; [exact Hpatch|].
  exact (Admit_patch_TTL_rule wh ar config original modified Hkeys Hconfig Hpatch).
Defined.

Lemma Admit_token_binds_source_and_target_witness :
  let wh := samples.webhook None true in
  let ar := samples.review "CREATE" "clone-dv" "" in
  let original := samples.cloneDataVolume ∅ in
  let modified := samples.cloneDataVolume {[ AnnCloneToken := "signed" ]} in
  let pvc := {| PVC_Namespace := "source-ns"; PVC_Name := "golden" |} in
  pvcSourceOf wh original = inr (Some pvc)
  ∧ Admit wh ar = toPatchResponse original modified
  ∧ ∃ token,
      Annotations modified !! AnnCloneToken = Some token
      ∧ tokenGenerator_Generate wh
          {| Payload_Operation := OperationClone;
             Payload_Name := "golden";
             Payload_Namespace := "source-ns";
             Payload_Resource :=
               {| Group := ""; Version := "v1"; Resource := "persistentvolumeclaims" |};
             Params := <["targetNamespace" := "target-ns"]>
                         (<["targetName" := "clone-dv"]> ∅) |}
        = inr token.
Proof.
  intros wh ar original modified pvc.
  assert (Hpvc : pvcSourceOf wh original = inr (Some pvc)) by reflexivity.
  assert (Hpatch : Admit wh ar = toPatchResponse original modified)
    by (vm_compute; reflexivity).
  split; [exact Hpvc|]. split; [exact Hpatch|].
  exact (Admit_token_binds_source_and_target wh ar original modified pvc Hpvc Hpatch).
Defined.

Lemma Admit_rejects_only_on_denied_review_witness :
  let wh := samples.webhook None false in
  let ar := samples.review "CREATE" "clone-dv" "" in
  let causes := [ {| Type_ := "FieldValueInvalid"; Message := "user may not clone the source";
                     Field := "spec.source.PVC.namespace" |} ] in
  Admit wh ar = toRejectedAdmissionResponse causes
  ∧ ∃ request reason,
      Admit_prepare wh ar = inr request
      ∧ CanUserClonePVC wh (sourceNamespace request) (sourceName request)
          (targetNamespace request) (Request_UserInfo (Request ar)) = (false, reason, None)
      ∧ causes = [ {| Type_ := "FieldValueInvalid"; Message := reason;
                      Field := "spec.source.PVC.namespace" |} ].
Proof.
  intros wh ar causes.
  assert (Hreject : Admit wh ar = toRejectedAdmissionResponse causes)
    by (vm_compute; reflexivity).
  split; [exact Hreject|].
  exact (Admit_rejects_only_on_denied_review wh ar causes Hreject).
Defined.

Lemma Admit_clone_allowed_only_with_old_token_witness :
  let wh := samples.webhook (Some 0%Z) true in
  let ar := samples.review "UPDATE" "clone-dv" "clone-dv-with-token" in
  let dv := samples.cloneDataVolume ∅ in
  let pvc := {| PVC_Namespace := "source-ns"; PVC_Name := "golden" |} in
  Unmarshal (Object_Raw (Request ar)) = inr dv
  ∧ pvcSourceOf wh dv = inr (Some pvc)
  ∧ Admit wh ar = allowedAdmissionResponse
  ∧ Operation (Request ar) = Update
  ∧ ∃ old, Unmarshal (OldObject_Raw (Request ar)) = inr old
           ∧ is_Some (Annotations old !! AnnCloneToken).
Proof.
  intros wh ar dv pvc.
  assert (Hdv : Unmarshal (Object_Raw (Request ar)) = inr dv) by reflexivity.
  assert (Hpvc : pvcSourceOf wh dv = inr (Some pvc)) by reflexivity.
  assert (Hallow : Admit wh ar = allowedAdmissionResponse) by (vm_compute; reflexivity).
  split; [exact Hdv|]. split; [exact Hpvc|]. split; [exact Hallow|].
  exact (Admit_clone_allowed_only_with_old_token wh ar dv pvc Hdv Hpvc Hallow).
Defined.

End admit_effects_samples.

(** ** Package importer: what header detection does to the stream *)

Section header_detection_effects.
Import importer.
Context {order : golang.MapRange} {decompressors : Decompressors}.

Lemma TopReader_snoc (fr : FormatReaders) (rs : list reader) (top : reader) :
  readers fr = rs ++ [top] → TopReader fr = rdr top.
Proof. intros Hrs. unfold TopReader. by rewrite Hrs, last_snoc. Qed.

Lemma TopReader_readers (fr fr' : FormatReaders) :
  readers fr' = readers fr → TopReader fr' = TopReader fr.
Proof. intros Hrs. unfold TopReader. by rewrite Hrs. Qed.

(** A successful [read] takes the first [len(buf)] bytes of the top reader
    into the buffer and leaves the rest in the top reader. *)
Lemma read_success (fr fr' : FormatReaders) :
  read fr = inr fr' →
  ∃ rs top,
    readers fr = rs ++ [top]
    ∧ length (buf fr) ≤ length (data (rdr top))
    ∧ readers fr' = rs ++ [ {| rdrType := rdrType top;
                               rdr := {| data := drop (length (buf fr)) (data (rdr top));
                                         closer := closer (rdr top) |} |} ]
    ∧ buf fr' = take (length (buf fr)) (data (rdr top))
    ∧ Convert fr' = Convert fr ∧ Archived fr' = Archived fr
    ∧ ArchiveXz fr' = ArchiveXz fr ∧ ArchiveGz fr' = ArchiveGz fr.
Proof.
  unfold read. destruct (last (readers fr)) as [top|] eqn:Hlast; [|done].
  apply last_Some in Hlast as [rs Hrs].
  destruct (decide (length (buf fr) ≤ length (data (rdr top)))) as [Hlen|Hlen].
  - intros [= <-]. exists rs, top. simpl. rewrite Hrs, removelast_last. done.
  - by destruct (decide (length (data (rdr top)) = 0)).
Qed.

(** A failing [read]: the stack is empty or the top reader is shorter than
    the buffer. *)
Lemma read_failure (fr : FormatReaders) (err : golang.error) :
  read fr = inl err →
  (err = golang.errorString "EOF" ∨ err = golang.errorString "unexpected EOF")
  ∧ length (data (TopReader fr)) < length (buf fr) ∨ readers fr = [].
Proof.
  unfold read, TopReader. destruct (last (readers fr)) as [top|] eqn:Hlast.
  - destruct (decide (length (buf fr) ≤ length (data (rdr top)))) as [Hlen|Hlen]; [done|].
    destruct (decide (length (data (rdr top)) = 0)); intros [= <-]; left; split; auto; lia.
  - intros _. right. by apply last_None.
Qed.

(** What [matchHeader] does to the readers, whatever it matches. *)
Lemma matchHeader_effect (fr fr' : FormatReaders) (knownHdrs knownHdrs' : gmap string image.Header)
    (m : option (string * image.Header)) :
  matchHeader fr knownHdrs = inr (fr', knownHdrs', m) →
  ∃ rs top,
    readers fr = rs ++ [top]
    ∧ length (buf fr) ≤ length (data (rdr top))
    ∧ readers fr'
      = rs ++ [ {| rdrType := rdrType top;
                   rdr := {| data := drop (length (buf fr)) (data (rdr top));
                             closer := closer (rdr top) |} |};
                {| rdrType := rdrMulti;
                   rdr := {| data := data (rdr top); closer := Some None |} |} ]
    ∧ buf fr' = take (length (buf fr)) (data (rdr top))
    ∧ Convert fr' = Convert fr ∧ Archived fr' = Archived fr
    ∧ ArchiveXz fr' = ArchiveXz fr ∧ ArchiveGz fr' = ArchiveGz fr.
Proof.
  unfold matchHeader. destruct (read fr) as [err|fr1] eqn:Hread; [done|].
  apply read_success in Hread
    as (rs & top & Hrs & Hlen & Hrs1 & Hbuf & Hc & Ha & Hx & Hg).
  assert (Heffect :
    readers (appendReader fr1 rdrMulti (Some (NewReader (buf fr1))))
    = rs ++ [ {| rdrType := rdrType top;
                 rdr := {| data := drop (length (buf fr)) (data (rdr top));
                           closer := closer (rdr top) |} |};
              {| rdrType := rdrMulti;
                 rdr := {| data := data (rdr top); closer := Some None |} |} ]).
  { unfold appendReader. rewrite decide_True by done. simpl.
    rewrite (TopReader_snoc fr1 _ _ Hrs1), Hrs1, Hbuf. simpl.
    unfold NopCloser, MultiReader, NewReader. simpl.
    rewrite take_drop, <- app_assoc. done. }
  intros Hm. exists rs, top.
  assert (Hfr' : fr' = appendReader fr1 rdrMulti (Some (NewReader (buf fr1)))).
  { destruct (find _ _) as [[format kh]|]; by injection Hm as <- _ _. }
  subst fr'. split_and!; try done.
Qed.

(** X25.  [matchHeader] reads the header without losing it: the buffer
    holds the first [len(buf)] bytes of the stream, and the reader it
    leaves on top of the stack, one entry higher than before, is a
    multi-reader that closes without error and yields the very bytes the
    top reader yielded before the call.  The four flags are untouched. *)
Theorem matchHeader_replays_header (fr fr' : FormatReaders)
    (knownHdrs knownHdrs' : gmap string image.Header) (m : option (string * image.Header)) :
  matchHeader fr knownHdrs = inr (fr', knownHdrs', m) →
  buf fr' = take (length (buf fr)) (data (TopReader fr))
  ∧ length (buf fr') = length (buf fr)
  ∧ data (TopReader fr') = data (TopReader fr)
  ∧ Reader_Close (TopReader fr') = None
  ∧ (rdrType <$> last (readers fr')) = Some rdrMulti
  ∧ length (readers fr') = S (length (readers fr))
  ∧ (Convert fr', Archived fr', ArchiveXz fr', ArchiveGz fr')
    = (Convert fr, Archived fr, ArchiveXz fr, ArchiveGz fr).
Proof.
  intros (rs & top & Hrs & Hlen & Hrs' & Hbuf & -> & -> & -> & ->)%matchHeader_effect.
  rewrite (TopReader_snoc fr rs top Hrs).
  rewrite (TopReader_snoc fr' (rs ++ [ {| rdrType := rdrType top;
             rdr := {| data := drop (length (buf fr)) (data (rdr top));
                       closer := closer (rdr top) |} |} ])
             {| rdrType := rdrMulti;
                rdr := {| data := data (rdr top); closer := Some None |} |})
    by (by rewrite Hrs', <- app_assoc).
  rewrite Hbuf, Hrs', Hrs. split_and!; try done.
  - rewrite length_take. lia.
  - by rewrite last_app.
  - rewrite !length_app. simpl. lia.
Qed.

(** For a format other than gz and xz the format-specific step creates no
    reader: the stack and the archive flag stay. *)
Lemma fileFormatSelector_no_decompressor (fr : FormatReaders) (hdr : image.Header) :
  image.Format hdr ≠ "gz" → image.Format hdr ≠ "xz" →
  readers (fileFormatSelector fr hdr) = readers fr
  ∧ Archived (fileFormatSelector fr hdr) = Archived fr.
Proof.
  intros Hgz Hxz. unfold fileFormatSelector.
  rewrite (decide_False (P := image.Format hdr = "gz")) by done.
  destruct (decide (image.Format hdr = "qcow2")).
  { by destruct (qcow2NopReader fr hdr). }
  rewrite (decide_False (P := image.Format hdr = "xz")) by done.
  by destruct (decide (_ ∨ _)).
Qed.

(** A reader constructor that fails leaves the flags, the buffer and the
    shape of the stack as they are; only the bytes of the top reader
    change. *)
Lemma withTopData_shape (fr : FormatReaders) (rest : list byte) :
  rdrType <$> readers (withTopData fr rest) = rdrType <$> readers fr
  ∧ buf (withTopData fr rest) = buf fr
  ∧ (Convert (withTopData fr rest), Archived (withTopData fr rest),
     ArchiveXz (withTopData fr rest), ArchiveGz (withTopData fr rest))
    = (Convert fr, Archived fr, ArchiveXz fr, ArchiveGz fr)
  ∧ (readers fr ≠ [] → data (TopReader (withTopData fr rest)) = rest).
Proof.
  unfold withTopData, TopReader. destruct (last (readers fr)) as [top|] eqn:Hlast.
  - apply last_Some in Hlast as [rs Hrs]. simpl. rewrite Hrs, removelast_last.
    rewrite !fmap_app, last_snoc. done.
  - apply last_None in Hlast. by rewrite Hlast.
Qed.

(** [Convert] after the format-specific step: set before, or set for one
    of the five image formats that need conversion. *)
Lemma fileFormatSelector_Convert (fr : FormatReaders) (hdr : image.Header) :
  Convert (fileFormatSelector fr hdr)
  = Convert fr || bool_decide (image.Format hdr ∈ ["qcow2"; "vmdk"; "vdi"; "vhd"; "vhdx"]).
Proof.
  unfold fileFormatSelector, gzReader, xzReader.
  destruct (decide (image.Format hdr = "gz")) as [Hf|].
  { rewrite Hf, orb_false_r.
    destruct (gzip_NewReader (TopReader fr)) as [[err rest]|r]; [|done].
    simpl. by destruct (withTopData_shape fr rest) as (_ & _ & [= -> _ _ _] & _). }
  destruct (decide (image.Format hdr = "qcow2")) as [Hf|].
  { rewrite Hf, orb_true_r. by destruct (qcow2NopReader fr _). }
  destruct (decide (image.Format hdr = "xz")) as [Hf|].
  { rewrite Hf, orb_false_r.
    destruct (xz_NewReader (TopReader fr)) as [[err rest]|r]; [|done].
    simpl. by destruct (withTopData_shape fr rest) as (_ & _ & [= -> _ _ _] & _). }
  destruct (decide (_ ∨ _)) as [Hf|Hf]; simpl.
  - rewrite bool_decide_true, orb_true_r; [done|].
    rewrite !elem_of_cons. tauto.
  - rewrite bool_decide_false, orb_false_r; [done|].
    rewrite !elem_of_cons, elem_of_nil. tauto.
Qed.

(** A rule for the loop of [constructReaders]: a property [P] of the loop
    state that every further iteration keeps gives the property [Q] of the
    outcome that each of the three exits establishes from it. *)
Lemma constructReaders_loop_rule
    (P : FormatReaders → gmap string image.Header → list string → Prop)
    (Q : Detection → Prop) :
  (∀ fr knownHdrs log err,
     P fr knownHdrs log → matchHeader fr knownHdrs = inl err →
     Q {| state := fr; remaining := knownHdrs; matched := log;
          result := Some (golang.withMessage err "could not process image header") |}) →
  (∀ fr knownHdrs log fr' knownHdrs',
     P fr knownHdrs log → matchHeader fr knownHdrs = inr (fr', knownHdrs', None) →
     Q {| state := fr'; remaining := knownHdrs'; matched := log; result := None |}) →
  (∀ fr knownHdrs log fr' knownHdrs' format hdr,
     P fr knownHdrs log →
     matchHeader fr knownHdrs = inr (fr', knownHdrs', Some (format, hdr)) →
     image.Format hdr = "qcow2" →
     Q {| state := fileFormatSelector fr' hdr; remaining := knownHdrs';
          matched := log ++ [format]; result := None |}) →
  (∀ fr knownHdrs log fr' knownHdrs' format hdr,
     P fr knownHdrs log →
     matchHeader fr knownHdrs = inr (fr', knownHdrs', Some (format, hdr)) →
     image.Format hdr ≠ "qcow2" →
     P (fileFormatSelector fr' hdr) knownHdrs' (log ++ [format])) →
  ∀ fuel fr knownHdrs log d,
    P fr knownHdrs log → constructReaders_loop fuel fr knownHdrs log = Some d → Q d.
Proof.
  intros Herr Hnone Hqcow2 Hnext. induction fuel as [|fuel IH]; intros fr knownHdrs log d HP;
    [done|].
  simpl. destruct (matchHeader fr knownHdrs) as [err|[[fr' knownHdrs'] [[format hdr]|]]] eqn:Hm.
  - intros [= <-]. by eapply Herr.
  - destruct (decide (image.Format hdr = "qcow2")) as [Hq|Hq].
    + intros [= <-]. by eapply Hqcow2.
    + apply IH. by eapply Hnext.
  - intros [= <-]. by eapply Hnone.
Qed.

(** The stream pushed first lies on top of the stack, with the type
    [rdrStream], and neither the buffer nor a flag has changed. *)
Lemma appendReader_stream (fr : FormatReaders) (r : Reader) :
  ∃ top,
    readers (appendReader fr (rdrTypM_index "stream") (Some r)) = readers fr ++ [top]
    ∧ rdrType top = rdrStream
    ∧ data (rdr top) = data r
    ∧ buf (appendReader fr (rdrTypM_index "stream") (Some r)) = buf fr
    ∧ Convert (appendReader fr (rdrTypM_index "stream") (Some r)) = Convert fr
    ∧ Archived (appendReader fr (rdrTypM_index "stream") (Some r)) = Archived fr.
Proof.
  assert (Hidx : rdrTypM_index "stream" = rdrStream) by (vm_compute; reflexivity).
  rewrite Hidx. unfold appendReader. rewrite decide_False by done. simpl.
  eexists. split; [reflexivity|]. simpl. split_and!; try done.
  by destruct (closer r).
Qed.


(** One more key in the log of a loop state whose map is part of the
    registry: the key names its header in the registry. *)
Lemma matchHeader_in_registry (known0 : gmap string image.Header)
    (fr fr' : FormatReaders) (knownHdrs knownHdrs' : gmap string image.Header)
    (format : string) (hdr : image.Header) :
  knownHdrs ⊆ known0 →
  matchHeader fr knownHdrs = inr (fr', knownHdrs', Some (format, hdr)) →
  known0 !! format = Some hdr ∧ knownHdrs' ⊆ known0.
Proof.
  intros Hsub (Hlookup & _ & ->)%matchHeader_match. split.
  - by eapply lookup_weaken.
  - etrans; [apply delete_subseteq|done].
Qed.

(** While no matched key names a gz or xz header, the top reader of the
    outcome yields what the top reader of the loop state yields, and
    [Archived] is as it was. *)
Lemma constructReaders_loop_intact (registry : gmap string image.Header)
    (s : list byte) (archived : bool) (fuel : nat) (fr : FormatReaders)
    (knownHdrs : gmap string image.Header) (log : list string) (d : Detection) :
  let plain := λ keys : list string,
    ∀ format hdr, format ∈ keys → registry !! format = Some hdr →
                  image.Format hdr ≠ "gz" ∧ image.Format hdr ≠ "xz" in
  knownHdrs ⊆ registry →
  (plain log → data (TopReader fr) = s ∧ Archived fr = archived) →
  constructReaders_loop fuel fr knownHdrs log = Some d →
  result d = None → plain (matched d) →
  data (TopReader (state d)) = s ∧ Archived (state d) = archived.
Proof.
  intros plain Hsub HP. pose proof (conj Hsub HP) as Hinv. clear Hsub HP.
  revert fuel fr knownHdrs log d Hinv.
  assert (Hm : ∀ fr fr' knownHdrs knownHdrs' m,
            matchHeader fr knownHdrs = inr (fr', knownHdrs', m) →
            data (TopReader fr') = data (TopReader fr) ∧ Archived fr' = Archived fr).
  { intros fr fr' knownHdrs knownHdrs' m Hmatch.
    apply matchHeader_effect in Hmatch as (rs & top & Hrs & _ & Hrs' & _ & _ & Ha & _).
    split; [|done]. rewrite (TopReader_snoc fr rs top Hrs).
    unfold TopReader. by rewrite Hrs', last_app. }
  assert (Hsel : ∀ fr fr' knownHdrs knownHdrs' log format hdr,
            knownHdrs ⊆ registry →
            (plain log → data (TopReader fr) = s ∧ Archived fr = archived) →
            matchHeader fr knownHdrs = inr (fr', knownHdrs', Some (format, hdr)) →
            knownHdrs' ⊆ registry
            ∧ (plain (log ++ [format]) →
               data (TopReader (fileFormatSelector fr' hdr)) = s
               ∧ Archived (fileFormatSelector fr' hdr) = archived)).
  { intros fr fr' knownHdrs knownHdrs' log format hdr Hsub HP Hmatch.
    destruct (matchHeader_in_registry _ _ _ _ _ _ _ Hsub Hmatch) as [Hreg Hsub'].
    split; [done|]. intros Hplain.
    destruct (Hplain format hdr) as [Hgz Hxz]; [apply elem_of_app; right; apply list_elem_of_here|done|].
    destruct (fileFormatSelector_no_decompressor fr' hdr Hgz Hxz) as [Hrs Ha].
    rewrite (TopReader_readers _ _ Hrs), Ha.
    destruct (Hm _ _ _ _ _ Hmatch) as [-> ->]. apply HP.
    intros k h Hk. apply Hplain, elem_of_app. by left. }
  apply (constructReaders_loop_rule
           (λ fr knownHdrs log,
              knownHdrs ⊆ registry
              ∧ (plain log → data (TopReader fr) = s ∧ Archived fr = archived))
           (λ d, result d = None → plain (matched d) →
                 data (TopReader (state d)) = s ∧ Archived (state d) = archived)).
  - done.
  - intros fr knownHdrs log fr' knownHdrs' [_ HP] Hmatch _ Hplain. simpl in *.
    destruct (Hm _ _ _ _ _ Hmatch) as [-> ->]. by apply HP.
  - intros fr knownHdrs log fr' knownHdrs' format hdr [Hsub HP] Hmatch _ _ Hplain.
    simpl in *. by apply (Hsel _ _ _ _ _ _ _ Hsub HP Hmatch).
  - intros fr knownHdrs log fr' knownHdrs' format hdr [Hsub HP] Hmatch _.
    by apply (Hsel _ _ _ _ _ _ _ Hsub HP Hmatch).
Qed.


(** X27.  Header detection does not consume the image: when it ends
    without error and none of the matched keys names a gz or xz header, so
    that no decompressor was asked for, the top reader yields the input
    stream from its first byte, however many headers were read and replayed
    on the way, and [Archived] is as it was. *)
Theorem constructReaders_keeps_uncompressed_stream `{registry : image.Registry}
    (fr : FormatReaders) (r : Reader) (d : Detection) :
  constructReaders fr r = Some d →
  result d = None →
  (∀ format hdr,
     format ∈ matched d → image.CopyKnownHdrs !! format = Some hdr →
     image.Format hdr ≠ "gz" ∧ image.Format hdr ≠ "xz") →
  data (TopReader (state d)) = data r ∧ Archived (state d) = Archived fr.
Proof.
  unfold constructReaders. intros Hd.
  destruct (appendReader_stream fr r) as (top & Hrs & _ & Hdata & _ & _ & Ha).
  eapply (constructReaders_loop_intact image.CopyKnownHdrs); [done| |exact Hd].
  intros _. by rewrite (TopReader_snoc _ _ _ Hrs).
Qed.

(** X28.  The only error of header detection is a failed read of the
    header.  A gzip or xz reader that cannot be created is not reported:
    the format-specific step then pushes no reader and sets no flag, and
    the detection goes on with the top reader holding only the bytes the
    failed constructor has left. *)
Theorem constructReaders_reports_read_errors_only `{registry : image.Registry}
    (fr : FormatReaders) (r : Reader) (d : Detection) (e : golang.error) :
  constructReaders fr r = Some d →
  result d = Some e →
  (∃ fr' err, read fr' = inl err
              ∧ e = golang.withMessage err "could not process image header")
  ∧ ∀ fr' hdr err rest,
      (image.Format hdr = "gz" ∧ gzip_NewReader (TopReader fr') = inl (err, rest)
       ∨ image.Format hdr = "xz" ∧ xz_NewReader (TopReader fr') = inl (err, rest)) →
      rdrType <$> readers (fileFormatSelector fr' hdr) = rdrType <$> readers fr'
      ∧ buf (fileFormatSelector fr' hdr) = buf fr'
      ∧ (Convert (fileFormatSelector fr' hdr), Archived (fileFormatSelector fr' hdr),
         ArchiveXz (fileFormatSelector fr' hdr), ArchiveGz (fileFormatSelector fr' hdr))
        = (Convert fr', Archived fr', ArchiveXz fr', ArchiveGz fr')
      ∧ (readers fr' ≠ [] → data (TopReader (fileFormatSelector fr' hdr)) = rest).
Proof.
  intros Hd He. split.
  - revert He. unfold constructReaders in Hd. revert Hd.
    apply (constructReaders_loop_rule (λ _ _ _, True)
             (λ d, result d = Some e →
                   ∃ fr' err, read fr' = inl err
                              ∧ e = golang.withMessage err "could not process image header"));
      try done.
    intros fr0 knownHdrs log err _ Hmatch [= <-]. exists fr0, err. split; [|done].
    revert Hmatch. unfold matchHeader. destruct (read fr0) as [err'|fr1]; [by intros [= ->]|].
    by destruct (find _ _) as [[? ?]|].
  - intros fr' hdr err rest Hfail.
    assert (Hsel : fileFormatSelector fr' hdr = withTopData fr' rest).
    { destruct Hfail as [[Hf Herr]|[Hf Herr]];
        unfold fileFormatSelector, gzReader, xzReader; rewrite Hf, Herr; done. }
    rewrite Hsel. apply withTopData_shape.
Qed.

(** X29.  A qcow2 header ends the detection: when a matched key names a
    header of format qcow2 in the registry, it is the last key matched, no
    error is returned and [Convert] is set. *)
Theorem constructReaders_qcow2_is_last `{registry : image.Registry}
    (fr : FormatReaders) (r : Reader) (d : Detection) (format : string) (hdr : image.Header) :
  constructReaders fr r = Some d →
  format ∈ matched d →
  image.CopyKnownHdrs !! format = Some hdr →
  image.Format hdr = "qcow2" →
  last (matched d) = Some format ∧ result d = None ∧ Convert (state d) = true.
Proof.
  unfold constructReaders. intros Hd. revert format hdr. revert Hd.
  apply (constructReaders_loop_rule
           (λ _ knownHdrs log,
              knownHdrs ⊆ image.CopyKnownHdrs
              ∧ ∀ k h, k ∈ log → image.CopyKnownHdrs !! k = Some h → image.Format h ≠ "qcow2")
           (λ d, ∀ format hdr,
              format ∈ matched d → image.CopyKnownHdrs !! format = Some hdr →
              image.Format hdr = "qcow2" →
              last (matched d) = Some format ∧ result d = None ∧ Convert (state d) = true)).
  - intros fr0 knownHdrs log err [_ Hlog] _ format hdr Hin Hreg Hq. simpl in Hin.
    by destruct (Hlog format hdr Hin Hreg).
  - intros fr0 knownHdrs log fr' knownHdrs' [_ Hlog] _ format hdr Hin Hreg Hq. simpl in Hin.
    by destruct (Hlog format hdr Hin Hreg).
  - intros fr0 knownHdrs log fr' knownHdrs' key kh [Hsub Hlog] Hmatch Hkh format hdr Hin Hreg Hq.
    simpl in *. apply elem_of_app in Hin as [Hin|Hin%list_elem_of_singleton].
    + by destruct (Hlog format hdr Hin Hreg).
    + subst key. rewrite last_snoc. split_and!; [done..|].
      rewrite fileFormatSelector_Convert, Hkh. apply orb_true_r.
  - intros fr0 knownHdrs log fr' knownHdrs' key kh [Hsub Hlog] Hmatch Hkh.
    destruct (matchHeader_in_registry _ _ _ _ _ _ _ Hsub Hmatch) as [Hreg Hsub'].
    split; [done|]. intros k h [Hin|Hin%list_elem_of_singleton]%elem_of_app Hk.
    + by eapply Hlog.
    + subst k. congruence.
  - split; [done|]. intros k h Hin. by apply elem_of_nil in Hin.
Qed.

(** X30.  [Convert] tells whether an image format that needs conversion
    was detected: after the detection it is set exactly when it was set
    before or one of the matched keys names, in the registry, a header of
    format qcow2, vmdk, vdi, vhd or vhdx. *)
Theorem constructReaders_Convert_iff `{registry : image.Registry}
    (fr : FormatReaders) (r : Reader) (d : Detection) :
  constructReaders fr r = Some d →
  Convert (state d) = true
  ↔ Convert fr = true
    ∨ ∃ format hdr,
        format ∈ matched d
        ∧ image.CopyKnownHdrs !! format = Some hdr
        ∧ image.Format hdr ∈ ["qcow2"; "vmdk"; "vdi"; "vhd"; "vhdx"].
Proof.
  unfold constructReaders.
  destruct (appendReader_stream fr r) as (top & _ & _ & _ & _ & Hc & _).
  set (converted := λ log : list string,
         Convert fr = true
         ∨ ∃ format hdr,
             format ∈ log
             ∧ image.CopyKnownHdrs !! format = Some hdr
             ∧ image.Format hdr ∈ ["qcow2"; "vmdk"; "vdi"; "vhd"; "vhdx"]).
  assert (Hstep : ∀ fr0 fr' knownHdrs knownHdrs' log key kh,
            knownHdrs ⊆ image.CopyKnownHdrs →
            (Convert fr0 = true ↔ converted log) →
            matchHeader fr0 knownHdrs = inr (fr', knownHdrs', Some (key, kh)) →
            Convert (fileFormatSelector fr' kh) = true ↔ converted (log ++ [key])).
  { intros fr0 fr' knownHdrs knownHdrs' log key kh Hsub HP Hmatch.
    destruct (matchHeader_in_registry _ _ _ _ _ _ _ Hsub Hmatch) as [Hreg _].
    apply matchHeader_effect in Hmatch as (_ & _ & _ & _ & _ & _ & Hconv & _).
    rewrite fileFormatSelector_Convert, Hconv, orb_true_iff, HP, bool_decide_eq_true.
    unfold converted. split.
    - intros [[Hc0|(format & hdr & Hin & Hrest)]|Hkh]; [by left| |].
      + right. exists format, hdr. split; [|done]. apply elem_of_app. by left.
      + right. exists key, kh. split_and!; [|done..]. apply elem_of_app. right.
        by apply list_elem_of_singleton.
    - intros [Hc0|(format & hdr & [Hin|Hin%list_elem_of_singleton]%elem_of_app & Hlookup & Hf)].
      + left. by left.
      + left. right. by exists format, hdr.
      + right. subst format. congruence. }
  intros Hd. revert Hd.
  apply (constructReaders_loop_rule
           (λ fr0 knownHdrs log,
              knownHdrs ⊆ image.CopyKnownHdrs ∧ (Convert fr0 = true ↔ converted log))
           (λ d, Convert (state d) = true ↔ converted (matched d))).
  - by intros fr0 knownHdrs log err [_ HP] _.
  - intros fr0 knownHdrs log fr' knownHdrs' [_ HP] Hmatch. simpl.
    apply matchHeader_effect in Hmatch as (_ & _ & _ & _ & _ & _ & Hconv & _).
    by rewrite Hconv.
  - intros fr0 knownHdrs log fr' knownHdrs' key kh [Hsub HP] Hmatch _. simpl.
    by eapply Hstep.
  - intros fr0 knownHdrs log fr' knownHdrs' key kh [Hsub HP] Hmatch _. split.
    + by destruct (matchHeader_in_registry _ _ _ _ _ _ _ Hsub Hmatch).
    + by eapply Hstep.
  - split; [done|]. rewrite Hc. unfold converted. split; [by left|].
    intros [?|(format & hdr & Hin & _)]; [done|]. by apply elem_of_nil in Hin.
Qed.

End header_detection_effects.

Section header_detection_effects_samples.
Import importer.

(** The header of a vmdk image is read and replayed: gz does not match
    before it in the order of the sample registry, vmdk does. *)
Lemma matchHeader_replays_header_witness :
  let fr := appendReader samples.noReaders rdrStream (Some samples.vmdkImage) in
  let out := matchHeader fr image.CopyKnownHdrs in
  let fr' := match out with inr (fr', _, _) => fr' | inl _ => fr end in
  let knownHdrs' := match out with inr (_, known, _) => known | inl _ => ∅ end in
  let m := match out with inr (_, _, m) => m | inl _ => None end in
  matchHeader fr image.CopyKnownHdrs = inr (fr', knownHdrs', m)
  ∧ fst <$> m = Some "vmdk"
  ∧ buf fr' = take (length (buf fr)) (data (TopReader fr))
  ∧ length (buf fr') = length (buf fr)
  ∧ data (TopReader fr') = data (TopReader fr)
  ∧ Reader_Close (TopReader fr') = None
  ∧ (rdrType <$> last (readers fr')) = Some rdrMulti
  ∧ length (readers fr') = S (length (readers fr))
  ∧ (Convert fr', Archived fr', ArchiveXz fr', ArchiveGz fr')
    = (Convert fr, Archived fr, ArchiveXz fr, ArchiveGz fr).
Proof.
  intros fr out fr' knownHdrs' m.
  assert (Hm : matchHeader fr image.CopyKnownHdrs = inr (fr', knownHdrs', m))
    by (vm_compute; reflexivity).
  split; [exact Hm|]. split; [vm_compute; reflexivity|].
  exact (matchHeader_replays_header fr fr' image.CopyKnownHdrs knownHdrs' m Hm).
Defined.


(** The vmdk image is found to need conversion, and is still whole on top
    of the stack. *)
Lemma constructReaders_keeps_uncompressed_stream_witness :
  let none := {| state := samples.noReaders; remaining := ∅; matched := [];
                 result := None |} in
  let d := default none (constructReaders samples.noReaders samples.vmdkImage) in
  constructReaders samples.noReaders samples.vmdkImage = Some d
  ∧ result d = None
  ∧ matched d = ["vmdk"]
  ∧ data (TopReader (state d)) = data samples.vmdkImage
  ∧ Archived (state d) = Archived samples.noReaders.
Proof.
  intros none d.
  assert (Hd : constructReaders samples.noReaders samples.vmdkImage = Some d)
    by (vm_compute; reflexivity).
  assert (Hres : result d = None) by (vm_compute; reflexivity).
  assert (Hlog : matched d = ["vmdk"]) by (vm_compute; reflexivity).
  assert (Hvmdk : image.CopyKnownHdrs !! "vmdk"
                  = Some {| image.Format := "vmdk"; image.SizeOff := 0; image.SizeLen := 0;
                            image.Match := samples.vmdkMagic |})
    by (vm_compute; reflexivity).
  assert (Hplain : ∀ format hdr,
            format ∈ matched d → image.CopyKnownHdrs !! format = Some hdr →
            image.Format hdr ≠ "gz" ∧ image.Format hdr ≠ "xz").
  { intros format hdr Hin Hreg. rewrite Hlog in Hin.
    apply list_elem_of_singleton in Hin. subst format.
    rewrite Hvmdk in Hreg. injection Hreg as <-. by split. }
  split; [exact Hd|]. split; [exact Hres|]. split; [exact Hlog|].
  exact (constructReaders_keeps_uncompressed_stream
           samples.noReaders samples.vmdkImage d Hd Hres Hplain).
Defined.

(** A gzip stream cut after three bytes, read with a header buffer of two:
    the header matches, the gzip reader cannot be created, which is not
    reported, and the next read of the header fails on the drained
    stream. *)
Lemma constructReaders_reports_read_errors_only_witness :
  let r := {| data := [Byte.x1f; Byte.x8b; Byte.x08]; closer := Some None |} in
  let fr := withBuf samples.noReaders (replicate 2 Byte.x00) in
  let none := {| state := samples.noReaders; remaining := ∅; matched := [];
                 result := None |} in
  let d := default none (constructReaders fr r) in
  let e := golang.withMessage (golang.errorString "EOF") "could not process image header" in
  constructReaders fr r = Some d
  ∧ result d = Some e
  ∧ matched d = ["gz"]
  ∧ (∃ fr' err, read fr' = inl err
                ∧ e = golang.withMessage err "could not process image header")
  ∧ ∀ fr' hdr err rest,
      (image.Format hdr = "gz" ∧ gzip_NewReader (TopReader fr') = inl (err, rest)
       ∨ image.Format hdr = "xz" ∧ xz_NewReader (TopReader fr') = inl (err, rest)) →
      rdrType <$> readers (fileFormatSelector fr' hdr) = rdrType <$> readers fr'
      ∧ buf (fileFormatSelector fr' hdr) = buf fr'
      ∧ (Convert (fileFormatSelector fr' hdr), Archived (fileFormatSelector fr' hdr),
         ArchiveXz (fileFormatSelector fr' hdr), ArchiveGz (fileFormatSelector fr' hdr))
        = (Convert fr', Archived fr', ArchiveXz fr', ArchiveGz fr')
      ∧ (readers fr' ≠ [] → data (TopReader (fileFormatSelector fr' hdr)) = rest).
Proof.
  intros r fr none d e.
  assert (Hd : constructReaders fr r = Some d) by (vm_compute; reflexivity).
  assert (He : result d = Some e) by (vm_compute; reflexivity).
  split; [exact Hd|]. split; [exact He|]. split; [vm_compute; reflexivity|].
  exact (constructReaders_reports_read_errors_only fr r d e Hd He).
Defined.

Lemma constructReaders_qcow2_is_last_witness :
  let none := {| state := samples.noReaders; remaining := ∅; matched := [];
                 result := None |} in
  let d := default none (constructReaders samples.noReaders samples.gzippedQcow2) in
  let hdr := {| image.Format := "qcow2"; image.SizeOff := 0; image.SizeLen := 4;
                image.Match := samples.qcow2Magic |} in
  constructReaders samples.noReaders samples.gzippedQcow2 = Some d
  ∧ matched d = ["gz"; "qcow2"]
  ∧ "qcow2" ∈ matched d
  ∧ image.CopyKnownHdrs !! "qcow2" = Some hdr
  ∧ image.Format hdr = "qcow2"
  ∧ last (matched d) = Some "qcow2" ∧ result d = None ∧ Convert (state d) = true.
Proof.
  intros none d hdr.
  assert (Hd : constructReaders samples.noReaders samples.gzippedQcow2 = Some d)
    by (vm_compute; reflexivity).
  assert (Hlog : matched d = ["gz"; "qcow2"]) by (vm_compute; reflexivity).
  assert (Hin : "qcow2" ∈ matched d)
    by (rewrite Hlog; apply list_elem_of_further, list_elem_of_here).
  assert (Hreg : image.CopyKnownHdrs !! "qcow2" = Some hdr) by (vm_compute; reflexivity).
  assert (Hq : image.Format hdr = "qcow2") by reflexivity.
  split; [exact Hd|]. split; [exact Hlog|]. split; [exact Hin|].
  split; [exact Hreg|]. split; [exact Hq|].
  exact (constructReaders_qcow2_is_last samples.noReaders samples.gzippedQcow2 d "qcow2" hdr
           Hd Hin Hreg Hq).
Defined.

Lemma constructReaders_Convert_iff_witness :
  let none := {| state := samples.noReaders; remaining := ∅; matched := [];
                 result := None |} in
  let d := default none (constructReaders samples.noReaders samples.vmdkImage) in
  constructReaders samples.noReaders samples.vmdkImage = Some d
  ∧ (Convert (state d) = true
     ↔ Convert samples.noReaders = true
       ∨ ∃ format hdr,
           format ∈ matched d
           ∧ image.CopyKnownHdrs !! format = Some hdr
           ∧ image.Format hdr ∈ ["qcow2"; "vmdk"; "vdi"; "vhd"; "vhdx"]).
Proof.
  intros none d.
  assert (Hd : constructReaders samples.noReaders samples.vmdkImage = Some d)
    by (vm_compute; reflexivity).
  split; [exact Hd|].
  exact (constructReaders_Convert_iff samples.noReaders samples.vmdkImage d Hd).
Defined.

End header_detection_effects_samples.
